(** * basar: the cache engine of the ISF banner index

    A shallow embedding of [internal/fetcher/fetcher.go] and of the cache
    controller ([package cache]), and the properties of the cache engine
    that the specification states about them.

    Conventions of the embedding.
    - A Go [string] is a [string] (a sequence of bytes); [==] on Go
      strings is equality of the byte sequences.
    - A Go slice [[]string] is the [list] of its elements.  [nil] and the
      empty slice are both [[]]: the code only ranges over slices, appends
      to them and takes their length, and none of these tells them apart.
    - A Go [map[string]V] is a [gmap string V]; [nil] and the empty map
      are both [∅] (the code ranges over maps, reads them and takes
      [len]; it writes only to maps made with [make]).
    - A pointer that may be [nil] is an [option].
    - An instant is a [Z], the nanoseconds since the Unix epoch; a
      [time.Duration] is a [Z] in nanoseconds.
    - The file system, the clock, the network and the standard library
      are explicit: the state of the files and the clock is a [World]
      that every operation threads, and what the process cannot decide
      (answers of the network, I/O failures, the JSON syntax layer) is a
      [Runtime].
    - Diagnostics printed to the standard error stream under [verbose]
      are not part of the model. *)

From stdpp Require Import gmap strings list fin_maps pretty.
From Stdlib Require Import ZArith Ascii.
From Stdlib Require String.
From Stdlib Require SpecFloat.

Open Scope Z_scope.
#[local] Set Warnings "-clear-no-such-hyp,-register-all".

(** * Errors *)

(** The file-system operations that can fail for reasons outside the
    program (permissions, a full disk, ...). *)
Inductive IoOp :=
  | OpMkdirAll | OpOpen | OpOpenFile | OpReadFile | OpWriteFile
  | OpWrite | OpSync | OpClose | OpRename | OpRemove.

(** Go [error] values.  [ErrLocked] is the sentinel of package cache;
    [fmt_Errorf msg cause] is [fmt.Errorf(msg + ": %w", cause)]. *)
Inductive error :=
  | ErrLocked
  | errors_New (msg : string)
  | fmt_Errorf (msg : string) (cause : error)
  | ErrNotExist (path : string)
  | PathError (op : IoOp) (path : string)
  | ExternalError (descr : string).

#[global] Instance IoOp_eq_dec : EqDecision IoOp.
Proof. solve_decision. Defined.
#[global] Instance error_eq_dec : EqDecision error.
Proof. solve_decision. Defined.

(** * encoding/json: JSON values and the rules of [Unmarshal] *)

Module json.

(** A syntactically valid JSON text.  A number is either an integer
    literal (no fraction, no exponent) or any other number literal. *)
Inductive Value :=
  | Null
  | Bool (b : bool)
  | Int (n : Z)
  | Float (literal : string)
  | Str (s : string)
  | Array (elements : list Value)
  | Object (members : list (string * Value)).

(** [foldName]: the key under which [Unmarshal] looks a field up when no
    field has exactly the name of the JSON key.  Letters [a-z] become
    upper case; the two runes outside ASCII whose case-fold orbit meets
    ASCII, U+017F (bytes C5 BF, folds to S) and U+212A (bytes E2 84 AA,
    folds to K), become that letter; every other byte outside ASCII is
    kept (it never equals a byte of a folded ASCII field name). *)
Fixpoint foldName (s : string) : string :=
  match s with
  | EmptyString => EmptyString
  | String c rest =>
    let n := N_of_ascii c in
    if ((97 <=? n) && (n <=? 122))%N
    then String (ascii_of_N (n - 32)) (foldName rest)
    else
      match rest with
      | String c2 rest2 =>
        let n2 := N_of_ascii c2 in
        if ((n =? 197) && (n2 =? 191))%N then String "S" (foldName rest2)
        else
          match rest2 with
          | String c3 rest3 =>
            if ((n =? 226) && (n2 =? 132) && (N_of_ascii c3 =? 170))%N
            then String "K" (foldName rest3)
            else String c (foldName rest)
          | EmptyString => String c (foldName rest)
          end
      | EmptyString => String c EmptyString
      end
  end.

(** The struct field a JSON key selects: the field with exactly that
    name if there is one, otherwise the first field whose folded name
    equals the folded key.  [fields] pairs each field with its JSON name. *)
Definition matchField {F : Type} (fields : list (F * string)) (key : string)
  : option F :=
  match list_find (λ f : F * string, f.2 = key) fields with
  | Some (_, f) => Some f.1
  | None =>
    match list_find (λ f : F * string, foldName f.2 = foldName key) fields with
    | Some (_, f) => Some f.1
    | None => None
    end
  end.

(** Decoding an object member by member: [step] stores one member into
    the value built so far, or fails with a type error.  [Unmarshal]
    goes on after a type error and reports the first one at the end; the
    callers only test whether an error was reported. *)
Definition decodeMembers {A : Type} (step : A → string → Value → option A)
    (start : A) (members : list (string * Value)) : option A :=
  foldl (λ acc m, acc ≫= λ a, step a m.1 m.2) (Some start) members.

(** Into a Go [string]: [null] leaves the string as it is. *)
Definition decodeString (cur : string) (v : Value) : option string :=
  match v with
  | Null => Some cur
  | Str s => Some s
  | _ => None
  end.

(** Into a fresh [[]string]: [null] gives the nil slice; an element
    [null] leaves the zero value, the empty string. *)
Definition decodeStrings (v : Value) : option (list string) :=
  match v with
  | Null => Some []
  | Array elements => mapM (decodeString EmptyString) elements
  | _ => None
  end.

(** Into a Go [int] (64 bits): the literal must be an integer in range. *)
Definition decodeInt (cur : Z) (v : Value) : option Z :=
  match v with
  | Null => Some cur
  | Int n => if decide (- 2 ^ 63 ≤ n < 2 ^ 63) then Some n else None
  | _ => None
  end.

(** Into a [map[string]V]: [null] sets the map to nil; an object adds its
    members to the map that is there, each value decoded into a fresh
    [V], a later duplicate key replacing an earlier one. *)
Definition decodeMap {V : Type} (elem : Value → option V)
    (cur : gmap string V) (v : Value) : option (gmap string V) :=
  match v with
  | Null => Some ∅
  | Object members =>
    decodeMembers (λ m key val, (λ x, <[ key := x ]> m) <$> elem val)
      cur members
  | _ => None
  end.

(** Into a struct: [null] leaves the struct as it is; an object stores
    the members whose key selects a field and skips the others. *)
Definition decodeStruct {A F : Type} (fields : list (F * string))
    (store : F → A → Value → option A) (cur : A) (v : Value) : option A :=
  match v with
  | Null => Some cur
  | Object members =>
    decodeMembers (λ a key val,
      match matchField fields key with
      | Some f => store f a val
      | None => Some a
      end) cur members
  | _ => None
  end.

End json.

(** * net/http: requests and responses *)

Module http.

(** [http.Header]: canonical header name to the list of its values. *)
Definition Header := gmap string (list string).

(** [textproto.CanonicalMIMEHeaderKey] on names made of letters, digits
    and [-]: the first letter and every letter after a [-] in upper
    case, the others in lower case. *)
Definition upper (c : ascii) : ascii :=
  let n := N_of_ascii c in
  if ((97 <=? n) && (n <=? 122))%N then ascii_of_N (n - 32) else c.
Definition lower (c : ascii) : ascii :=
  let n := N_of_ascii c in
  if ((65 <=? n) && (n <=? 90))%N then ascii_of_N (n + 32) else c.
Fixpoint canonical (up : bool) (s : string) : string :=
  match s with
  | EmptyString => EmptyString
  | String c rest =>
    String (if up then upper c else lower c)
           (canonical (bool_decide (c = "-"%char)) rest)
  end.
Definition CanonicalHeaderKey (s : string) : string := canonical true s.

Definition Header_Set (h : Header) (key value : string) : Header :=
  <[ CanonicalHeaderKey key := [value] ]> h.
Definition Header_Get (h : Header) (key : string) : string :=
  match h !! CanonicalHeaderKey key with
  | Some (v :: _) => v
  | _ => EmptyString
  end.

Record Request := mkRequest {
  Method : string;
  URL : string;
  ReqHeader : Header;
}.

Record Response := mkResponse {
  StatusCode : Z;
  RespHeader : Header;
  Body : string;
}.

Definition MethodGet : string := "GET".
Definition StatusOK : Z := 200.
Definition StatusNotModified : Z := 304.

End http.

(** * Package fetcher: the data model *)

Definition Second : Z := 1000000000.
Definition Minute : Z := 60 * Second.
Definition Hour : Z := 60 * Minute.

Definition HTTPTimeout : Z := 30 * Second.
Definition UserAgent : string := "basar/1.0".

(** [type BannerData struct { Version int; Linux map[string][]string }] *)
Record BannerData := mkBannerData {
  Version : Z;
  Linux : gmap string (list string);
}.

Record SourceMeta := mkSourceMeta {
  ETag : string;
  LastModified : string;
  UpdatedAt : Z;
}.

Record MetaCache := mkMetaCache {
  Sources : gmap string SourceMeta;
}.

Record Result := mkResult {
  Source : string;
  Data : option BannerData;
  Meta : option SourceMeta;
  Modified : bool;
  Err : option error;
}.

#[global] Instance BannerData_eq_dec : EqDecision BannerData.
Proof. solve_decision. Defined.
#[global] Instance SourceMeta_eq_dec : EqDecision SourceMeta.
Proof. solve_decision. Defined.
#[global] Instance MetaCache_eq_dec : EqDecision MetaCache.
Proof. solve_decision. Defined.

(** ** [Merge] and [appendUnique] *)

(** [appendUnique]: the [seen] set is filled from [existing]; the loop
    over [new] carries [result] and [seen]. *)
Definition seen_insert (seen : gset string) (v : string) : gset string :=
  {[ v ]} ∪ seen.

Definition appendUnique_step (st : list string * gset string) (v : string)
  : list string * gset string :=
  let '(result, seen) := st in
  if decide (v ∈ seen) then (result, seen)
  else (result ++ [v], seen_insert seen v).

Definition appendUnique (existing new : list string) : list string :=
  let seen := foldl seen_insert ∅ existing in
  let result := existing in
  fst (foldl appendUnique_step (result, seen) new).

(** The body of the inner loop of [Merge]:
    [merged.Linux[banner] = appendUnique(merged.Linux[banner], urls)].
    Reading an absent key of a Go map gives the zero value, a nil slice. *)
Definition merge_banner (merged : gmap string (list string))
    (entry : string * list string) : gmap string (list string) :=
  let '(banner, urls) := entry in
  <[ banner := appendUnique (default [] (merged !! banner)) urls ]> merged.

(** [for banner, urls := range data.Linux]: Go visits the entries of a
    map in an unspecified order.  The loop is run here over an explicit
    enumeration of the entries; [merge_banners_order] below shows that
    the result is the same for every enumeration, so that [Merge] may use
    [map_to_list]. *)
Definition merge_banners (merged : gmap string (list string))
    (entries : list (string * list string)) : gmap string (list string) :=
  foldl merge_banner merged entries.

(** The body of the outer loop of [Merge]: a nil dataset is skipped. *)
Definition merge_dataset (merged : gmap string (list string))
    (data : option BannerData) : gmap string (list string) :=
  match data with
  | None => merged
  | Some d => merge_banners merged (map_to_list (Linux d))
  end.

Definition Merge (datasets : list (option BannerData)) : BannerData :=
  {| Version := 1; Linux := foldl merge_dataset ∅ datasets |}.

(** ** Specification vocabulary for [Merge] *)

(** Appending one URL unless it is already there. *)
Definition push_unique (existing : list string) (v : string) : list string :=
  if decide (v ∈ existing) then existing else existing ++ [v].

(** The URLs of a list in the order of their first occurrence. *)
Fixpoint first_seen (l : list string) : list string :=
  match l with
  | [] => []
  | x :: l' => x :: filter (λ y, y ≠ x) (first_seen l')
  end.

(** The URL lists that the inputs carry for [banner], in input order: nil
    inputs and inputs without that key contribute nothing. *)
Definition contributions (banner : string)
    (datasets : list (option BannerData)) : list (list string) :=
  omap (λ data : option BannerData, data ≫= λ d, Linux d !! banner) datasets.

(** ** Decoding the two JSON documents of the program *)

Inductive BannerField := FVersion | FLinux.

Definition BannerData_fields : list (BannerField * string) :=
  [(FVersion, "version"); (FLinux, "linux")].

Definition BannerData_zero : BannerData := {| Version := 0; Linux := ∅ |}.

(** [json.Unmarshal] of a JSON value into a zero [BannerData]. *)
Definition decodeBannerData (v : json.Value) : option BannerData :=
  json.decodeStruct BannerData_fields
    (λ f d val,
      match f with
      | FVersion =>
        (λ n, {| Version := n; Linux := Linux d |})
          <$> json.decodeInt (Version d) val
      | FLinux =>
        (λ m, {| Version := Version d; Linux := m |})
          <$> json.decodeMap json.decodeStrings (Linux d) val
      end)
    BannerData_zero v.

Inductive SourceMetaField := FETag | FLastModified | FUpdatedAt.

Definition SourceMeta_fields : list (SourceMetaField * string) :=
  [(FETag, "etag"); (FLastModified, "last_modified"); (FUpdatedAt, "updated_at")].

(** The zero [time.Time], January 1 of year 1, 00:00 UTC. *)
Definition time_zero : Z := -62135596800 * Second.

Definition SourceMeta_zero : SourceMeta :=
  {| ETag := EmptyString; LastModified := EmptyString; UpdatedAt := time_zero |}.

(** [time.Time.UnmarshalJSON]: [null] is a no-op, a string is parsed as
    RFC 3339 ([parse_time]), anything else is an error. *)
Definition decodeTime (parse_time : string → option Z) (cur : Z)
    (v : json.Value) : option Z :=
  match v with
  | json.Null => Some cur
  | json.Str s => parse_time s
  | _ => None
  end.

Definition decodeSourceMeta (parse_time : string → option Z)
    (v : json.Value) : option SourceMeta :=
  json.decodeStruct SourceMeta_fields
    (λ f m val,
      match f with
      | FETag =>
        (λ s, {| ETag := s; LastModified := LastModified m;
                 UpdatedAt := UpdatedAt m |})
          <$> json.decodeString (ETag m) val
      | FLastModified =>
        (λ s, {| ETag := ETag m; LastModified := s;
                 UpdatedAt := UpdatedAt m |})
          <$> json.decodeString (LastModified m) val
      | FUpdatedAt =>
        (λ t, {| ETag := ETag m; LastModified := LastModified m;
                 UpdatedAt := t |})
          <$> decodeTime parse_time (UpdatedAt m) val
      end)
    SourceMeta_zero v.

Inductive MetaCacheField := FSources.

Definition MetaCache_fields : list (MetaCacheField * string) :=
  [(FSources, "sources")].

Definition decodeMetaCache (parse_time : string → option Z)
    (v : json.Value) : option MetaCache :=
  json.decodeStruct MetaCache_fields
    (λ f m val,
      match f with
      | FSources =>
        mkMetaCache
          <$> json.decodeMap (decodeSourceMeta parse_time) (Sources m) val
      end)
    (mkMetaCache ∅) v.

(** * The environment of the process *)

(** What the program obtains from the standard library, the operating
    system and the network and cannot decide by itself.
    - [json_parse data] is the JSON value that [data] spells, when the
      whole of [data] is one valid JSON text ([json.Unmarshal] reports a
      syntax error otherwise); [json_parse_first] is the first JSON value
      of a stream ([json.Decoder.Decode]).
    - [json_Encode] is the text [json.Encoder.Encode] writes for a
      document with HTML escaping off; [json_MarshalIndent] is
      [json.MarshalIndent] of the sidecar with a two-space indent,
      which fails when a time cannot be printed.
    - [http_NewRequest url] tells whether [http.NewRequestWithContext]
      accepts [url]; [http_Do worker req] is the answer of
      [client.Do(req)] in the goroutine [worker] (a transport error, a
      timeout and a cancelled context are errors).
    - [worker_delay worker] is the time from the start of [FetchAll] to
      the moment the goroutine [worker] reads the clock; [join_delay] is
      the time [FetchAll] takes.
    - [io_fault op path] tells whether the operation [op] on [path] fails
      for a reason outside the program; [io_written path] tells how far
      a failing write to [path] got: [None] when nothing was done (for
      [os.WriteFile], the file could not be opened), [Some n] when the
      first [n] bytes of the data reached the file (for [os.WriteFile],
      after it was created or truncated). *)
Class Runtime := {
  json_parse : string → option json.Value;
  json_parse_first : string → option json.Value;
  json_Encode : BannerData → string;
  json_MarshalIndent : MetaCache → option string;
  time_UnmarshalJSON : string → option Z;
  http_NewRequest : string → bool;
  http_Do : nat → http.Request → error + http.Response;
  worker_delay : nat → Z;
  join_delay : Z;
  os_UserHomeDir : option string;
  os_Getpid : Z;
  filepath_Join : string → string → string;
  io_fault : IoOp → string → bool;
  io_written : string → option nat;
}.

(** [json.Unmarshal(data, &banners)] and [json.NewDecoder(r).Decode(&data)]
    on a zero [BannerData]; [json.Unmarshal(data, &meta)]. *)
Definition Unmarshal_BannerData `{Runtime} (data : string) : option BannerData :=
  json_parse data ≫= decodeBannerData.
Definition Decode_BannerData `{Runtime} (data : string) : option BannerData :=
  json_parse_first data ≫= decodeBannerData.
Definition Unmarshal_MetaCache `{Runtime} (data : string) : option MetaCache :=
  json_parse data ≫= decodeMetaCache time_UnmarshalJSON.

(** * Package os and package time: files and the clock *)

Record File := mkFile {
  contents : string;
  ModTime : Z;
  Mode : Z;
}.

(** The regular files by path, and the reading of the wall clock. *)
Record World := mkWorld {
  files : gmap string File;
  now : Z;
}.

Definition set_files (w : World) (fs : gmap string File) : World :=
  {| files := fs; now := now w |}.

Definition advance (w : World) (d : Z) : World :=
  {| files := files w; now := now w + d |}.

(** The [float64] of Go: IEEE 754 binary64, rounding to nearest even. *)
Module float64.

Definition prec : Z := 53.
Definition emax : Z := 1024.

(** [float64(n)] for an integer [n]. *)
Definition of_int (n : Z) : SpecFloat.spec_float :=
  SpecFloat.binary_normalize prec emax n 0 false.

Definition add (x y : SpecFloat.spec_float) : SpecFloat.spec_float :=
  SpecFloat.SFadd prec emax x y.

Definition div (x y : SpecFloat.spec_float) : SpecFloat.spec_float :=
  SpecFloat.SFdiv prec emax x y.

(** [int(x)] for a finite [x] within the range of a 64-bit [int]: the
    fraction is discarded (truncation towards zero). *)
Definition to_int (x : SpecFloat.spec_float) : Z :=
  match x with
  | SpecFloat.S754_finite s m e =>
    let magnitude :=
      if decide (0 ≤ e) then Z.pos m * 2 ^ e else Z.pos m / 2 ^ (- e) in
    if s then - magnitude else magnitude
  | _ => 0
  end.

End float64.

Module time.

Definition minDuration : Z := - 2 ^ 63.
Definition maxDuration : Z := 2 ^ 63 - 1.

(** [t.Sub(u)]: the difference, saturated to the range of a [Duration]. *)
Definition Sub (t u : Z) : Z := Z.max minDuration (Z.min maxDuration (t - u)).

(** [time.Since(t)] is [time.Now().Sub(t)]. *)
Definition Since (w : World) (t : Z) : Z := Sub (now w) t.

(** [d.Seconds()]: [float64(sec) + float64(nsec)/1e9] where
    [sec := d / Second] and [nsec := d % Second]; the integer division
    of Go truncates towards zero. *)
Definition Seconds (d : Z) : SpecFloat.spec_float :=
  let sec := Z.quot d 1000000000 in
  let nsec := Z.rem d 1000000000 in
  float64.add (float64.of_int sec)
    (float64.div (float64.of_int nsec) (float64.of_int 1000000000)).

End time.

Module os.
Section os.
Context `{Runtime}.

(** [os.Stat]: the [FileInfo] of a model file is the file itself. *)
Definition Stat (w : World) (name : string) : error + File :=
  match files w !! name with
  | Some f => inr f
  | None => inl (ErrNotExist name)
  end.

Definition Size (info : File) : Z := Z.of_nat (String.length (contents info)).

Definition MkdirAll (w : World) (path : string) (perm : Z) : option error :=
  if io_fault OpMkdirAll path then Some (PathError OpMkdirAll path) else None.

Definition ReadFile (w : World) (name : string) : error + string :=
  match files w !! name with
  | None => inl (ErrNotExist name)
  | Some f =>
    if io_fault OpReadFile name then inl (PathError OpReadFile name)
    else inr (contents f)
  end.

(** [os.Open] followed by reading the file to its end. *)
Definition Open (w : World) (name : string) : error + string :=
  match files w !! name with
  | None => inl (ErrNotExist name)
  | Some f =>
    if io_fault OpOpen name then inl (PathError OpOpen name)
    else inr (contents f)
  end.

(** Creating or truncating [name] and writing [data] to it.  [perm] is
    the mode of a file that is created; an existing file keeps its mode.
    [WriteFile] opens the file with [O_WRONLY|O_CREATE|O_TRUNC], writes
    and closes: when it fails after the open, the file is left with the
    part of [data] that was written. *)
Definition put (w : World) (name data : string) (perm : Z) : World :=
  set_files w
    (<[ name := {| contents := data; ModTime := now w;
                   Mode := match files w !! name with
                           | Some f => Mode f
                           | None => perm
                           end |} ]> (files w)).

Definition WriteFile (w : World) (name data : string) (perm : Z)
  : option error * World :=
  if io_fault OpWriteFile name then
    (Some (PathError OpWriteFile name),
     match io_written name with
     | None => w
     | Some n => put w name (String.substring 0 n data) perm
     end)
  else (None, put w name data perm).

Definition Remove (w : World) (name : string) : option error * World :=
  match files w !! name with
  | None => (Some (ErrNotExist name), w)
  | Some _ =>
    if io_fault OpRemove name then (Some (PathError OpRemove name), w)
    else (None, set_files w (delete name (files w)))
  end.

(** [os.Rename]: the file keeps its contents, modification time and mode. *)
Definition Rename (w : World) (oldpath newpath : string)
  : option error * World :=
  match files w !! oldpath with
  | None => (Some (ErrNotExist oldpath), w)
  | Some f =>
    if io_fault OpRename oldpath then (Some (PathError OpRename oldpath), w)
    else (None, set_files w (<[ newpath := f ]> (delete oldpath (files w))))
  end.

(** [os.OpenFile(name, O_WRONLY|O_CREATE|O_TRUNC, perm)]. *)
Definition OpenFile (w : World) (name : string) (perm : Z)
  : option error * World :=
  if io_fault OpOpenFile name then (Some (PathError OpOpenFile name), w)
  else (None, put w name EmptyString perm).

(** Writing [data] through the handle of the file [name] just opened
    (and truncated): a write that fails leaves the part of [data] that
    reached the file. *)
Definition Write (w : World) (name data : string) : option error * World :=
  if io_fault OpWrite name then
    (Some (PathError OpWrite name),
     match io_written name with
     | None => w
     | Some n => put w name (String.substring 0 n data) 0
     end)
  else (None, put w name data 0).

Definition Sync (w : World) (name : string) : option error :=
  if io_fault OpSync name then Some (PathError OpSync name) else None.

Definition Close (w : World) (name : string) : option error :=
  if io_fault OpClose name then Some (PathError OpClose name) else None.

(** [os.OpenFile(name, O_APPEND|O_WRONLY, perm)]: the file is not
    created when it is absent. *)
Definition OpenFileAppend (w : World) (name : string) : option error :=
  match files w !! name with
  | None => Some (ErrNotExist name)
  | Some _ =>
    if io_fault OpOpenFile name then Some (PathError OpOpenFile name) else None
  end.

(** The file [name] after [s] was appended to it. *)
Definition appended (w : World) (name s : string) : World :=
  match files w !! name with
  | Some f =>
    set_files w (<[ name := {| contents := contents f +:+ s;
                               ModTime := now w;
                               Mode := Mode f |} ]> (files w))
  | None => w
  end.

(** [f.WriteString(s)] on a handle opened for appending to [name]: a
    write that fails leaves the part of [s] that reached the file. *)
Definition WriteString (w : World) (name s : string) : option error * World :=
  if io_fault OpWrite name then
    (Some (PathError OpWrite name),
     match io_written name with
     | None => w
     | Some n => appended w name (String.substring 0 n s)
     end)
  else (None, appended w name s).

End os.
End os.

(** * Package strings *)

Module strings.

Definition HasPrefix (s prefix : string) : bool := String.prefix prefix s.

Fixpoint Contains (s substr : string) : bool :=
  String.prefix substr s ||
  match s with
  | EmptyString => false
  | String _ rest => Contains rest substr
  end.

Definition TrimPrefix (s prefix : string) : string :=
  if HasPrefix s prefix
  then String.substring (String.length prefix)
         (String.length s - String.length prefix) s
  else s.

End strings.

(** * Package fetcher: fetching *)

(** [isLocalPath] *)
Definition isLocalPath (source : string) : bool :=
  if strings.HasPrefix source "file://" then true
  else if strings.HasPrefix source "/" || strings.HasPrefix source "~" then true
  else if negb (strings.Contains source "://") then true
  else false.

(** The four results of the fetch functions: the document, the
    validators, the modified flag and the error. *)
Definition Fetched : Type :=
  option BannerData * option SourceMeta * bool * option error.

Module Fetcher.
Section Fetcher.
Context `{Runtime}.

(** [fetchLocal].  [path[1:]] drops the leading [~]. *)
Definition fetchLocal (w : World) (source : string) : error + BannerData :=
  let path := source in
  let path := strings.TrimPrefix path "file://" in
  let home_path :=
    if strings.HasPrefix path "~" then
      match os_UserHomeDir with
      | None => inl (fmt_Errorf "expanding home dir" (ExternalError "home"))
      | Some home =>
        inr (filepath_Join home
               (String.substring 1 (String.length path - 1) path))
      end
    else inr path in
  match home_path with
  | inl err => inl err
  | inr path =>
    match os.Open w path with
    | inl err => inl (fmt_Errorf "opening file" err)
    | inr text =>
      match Decode_BannerData text with
      | None => inl (fmt_Errorf "decoding JSON" (ExternalError "json"))
      | Some data => inr data
      end
    end
  end.

(** The request [fetchHTTPWithMeta] builds before it calls the client:
    the identification header, and the conditional headers of the prior
    validators that are not empty. *)
Definition conditionalRequest (url : string) (meta : option SourceMeta)
  : http.Request :=
  let header := http.Header_Set ∅ "User-Agent" UserAgent in
  let header :=
    match meta with
    | Some m =>
      let header :=
        if decide (ETag m ≠ EmptyString)
        then http.Header_Set header "If-None-Match" (ETag m) else header in
      if decide (LastModified m ≠ EmptyString)
      then http.Header_Set header "If-Modified-Since" (LastModified m)
      else header
    | None => header
    end in
  {| http.Method := http.MethodGet; http.URL := url; http.ReqHeader := header |}.

(** [fetchHTTPWithMeta], run by the goroutine [worker] in the world [w]. *)
Definition fetchHTTPWithMeta (w : World) (worker : nat) (url : string)
    (meta : option SourceMeta) : Fetched :=
  if negb (http_NewRequest url) then
    (None, None, false,
     Some (fmt_Errorf "creating request" (ExternalError "url")))
  else
    let req := conditionalRequest url meta in
    match http_Do worker req with
    | inl err => (None, None, false, Some (fmt_Errorf "executing request" err))
    | inr resp =>
      if decide (http.StatusCode resp = http.StatusNotModified) then
        (None, meta, false, None)
      else if decide (http.StatusCode resp ≠ http.StatusOK) then
        (None, None, false,
         Some (errors_New ("unexpected status: " +:+ pretty (http.StatusCode resp))))
      else
        match Decode_BannerData (http.Body resp) with
        | None =>
          (None, None, false,
           Some (fmt_Errorf "decoding response" (ExternalError "json")))
        | Some data =>
          let newMeta :=
            {| ETag := http.Header_Get (http.RespHeader resp) "ETag";
               LastModified := http.Header_Get (http.RespHeader resp) "Last-Modified";
               UpdatedAt := now w + worker_delay worker |} in
          (Some data, Some newMeta, true, None)
        end
    end.

(** [FetchWithMeta] *)
Definition FetchWithMeta (w : World) (worker : nat) (source : string)
    (meta : option SourceMeta) : Fetched :=
  if isLocalPath source then
    match fetchLocal w source with
    | inl err => (None, None, false, Some err)
    | inr data =>
      (Some data,
       Some {| ETag := EmptyString; LastModified := EmptyString;
               UpdatedAt := now w + worker_delay worker |},
       true, None)
    end
  else fetchHTTPWithMeta w worker source meta.

(** [Fetch] *)
Definition Fetch (w : World) (worker : nat) (source : string)
  : option BannerData * option error :=
  let '(data, _, _, err) := FetchWithMeta w worker source None in
  (data, err).

(** The body of a goroutine of [FetchAllWithMeta]: the result it stores
    in its slot [idx]. *)
Definition fetch_slot (w : World) (meta : option MetaCache)
    (idx : nat) (source : string) : Result :=
  let srcMeta := meta ≫= λ m, Sources m !! source in
  let '(data, newMeta, modified, err) := FetchWithMeta w idx source srcMeta in
  {| Source := source; Data := data; Meta := newMeta;
     Modified := modified; Err := err |}.

(** [FetchAllWithMeta]: one goroutine per source, each writing its own
    slot of [results]; the function returns when all of them are done.
    The goroutines only read the files, so the slots do not depend on how
    they interleave. *)
Definition FetchAllWithMeta (w : World) (sources : list string)
    (meta : option MetaCache) : list Result * World :=
  (imap (fetch_slot w meta) sources, advance w join_delay).

(** [FetchAll] *)
Definition FetchAll (w : World) (sources : list string) : list Result * World :=
  FetchAllWithMeta w sources None.

End Fetcher.
End Fetcher.

(** * Package config *)

(** [ConfigSources] is the field [Sources] of [config.Config]. *)
Record Config := mkConfig {
  CacheDir : string;
  ConfigDir : string;
  CacheFile : string;
  ConfigFile : string;
  LockFile : string;
  TTL : Z;
  ConfigSources : list string;
}.

(** [DefaultSources] and [DefaultTTL]. *)
Definition DefaultSources : list string :=
  ["https://raw.githubusercontent.com/Abyss-W4tcher/volatility3-symbols/master/banners/banners.json";
   "https://raw.githubusercontent.com/leludo84/vol3-linux-profiles/main/banners-isf.json"].

Definition DefaultTTL : Z := 24 * Hour.

(** A product of two [int64] values: Go keeps the low 64 bits. *)
Definition wrap64 (z : Z) : Z := (z + 2 ^ 63) mod 2 ^ 64 - 2 ^ 63.

Module config.
Section config.
Context `{Runtime}.

(** What package config takes from the standard library:
    - [Sscanf_d s] is the integer that [fmt.Sscanf(s, "%d", &secs)]
      stores in the [int64] [secs] when it returns no error;
    - [ScanLines text] is the sequence of tokens of a [bufio.Scanner]
      over [text] (the lines, without their end-of-line marker);
    - [TrimSpace] is [strings.TrimSpace]. *)
Variable Sscanf_d : string → option Z.
Variable ScanLines : string → list string.
Variable TrimSpace : string → string.

(** [parseTTL] *)
Definition parseTTL (s : string) (defaultVal : Z) : Z :=
  if decide (s = EmptyString) then defaultVal
  else
    match Sscanf_d s with
    | Some secs =>
      if decide (0 < secs) then wrap64 (secs * Second) else defaultVal
    | None => defaultVal
    end.

(** The body of the loop of [loadSources] for one token of the scanner. *)
Definition addSource (sources : list string) (text : string) : list string :=
  let line := TrimSpace text in
  if decide (line = EmptyString) then sources
  else if strings.HasPrefix line "#" then sources
  else sources ++ [line].

(** [loadSources] *)
Definition loadSources (w : World) (c : Config) : list string :=
  match os.Open w (ConfigFile c) with
  | inl _ => DefaultSources
  | inr text =>
    let sources := foldl addSource [] (ScanLines text) in
    if decide (length sources = 0%nat) then DefaultSources else sources
  end.

End config.
End config.

(** * Package cache *)

Definition LockTimeout : Z := 5 * Minute.
(** [FileMode = 0644] and [DirMode = 0755], octal. *)
Definition FileMode : Z := 6 * 64 + 4 * 8 + 4.
Definition DirMode : Z := 7 * 64 + 5 * 8 + 5.

(** [errors.New("all sources failed")], the error the specification
    calls AllSourcesFailed. *)
Definition ErrAllSourcesFailed : error := errors_New "all sources failed".

Record Stats := mkStats {
  Valid : bool;
  Path : string;
  Entries : Z;
  StatsSize : Z;
  AgeSeconds : Z;
  StatsUpdatedAt : Z;
}.

(** [Stats{Valid: false}]: every other field has its zero value. *)
Definition Stats_invalid : Stats :=
  {| Valid := false; Path := EmptyString; Entries := 0; StatsSize := 0;
     AgeSeconds := 0; StatsUpdatedAt := time_zero |}.

(** The state of the loop of [SmartUpdate] over the results. *)
Record Gathered := mkGathered {
  datasets : list (option BannerData);
  anyModified : bool;
  newMeta : MetaCache;
}.

(** [containsImpl]: the loop over [i] from 0 up to
    [len(s) - len(substr)], which runs [len(s) - len(substr) + 1] times
    when that number is positive and not at all otherwise. *)
Fixpoint containsImpl_loop (steps i : nat) (s substr : string) : bool :=
  match steps with
  | O => false
  | S steps' =>
    if String.eqb (String.substring i (String.length substr) s) substr
    then true
    else containsImpl_loop steps' (S i) s substr
  end.

Definition containsImpl (s substr : string) : bool :=
  containsImpl_loop
    (Z.to_nat (Z.of_nat (String.length s)
               - Z.of_nat (String.length substr) + 1))
    0 s substr.

(** [contains] *)
Definition contains (s substr : string) : bool :=
  bool_decide (String.length substr ≤ String.length s)%nat
  && (String.eqb s substr
      || (bool_decide (0 < String.length s)%nat && containsImpl s substr)).

(** The line feed, and the text [ConfigureVolatility3] adds to the
    configuration of volatility3 for the URI [uri]. *)
Definition LF : string := String (ascii_of_N 10) EmptyString.

Definition vol3_content (uri : string) : string :=
  "# Added by basar" +:+ LF +:+ "remote_isf_url: " +:+ uri +:+ LF.

Module Cache.
Section Cache.
Context `{Runtime}.
Variable cfg : Config.

(** [IsValid] *)
Definition IsValid (w : World) : bool :=
  match os.Stat w (CacheFile cfg) with
  | inl _ => false
  | inr info =>
    let age := time.Since w (ModTime info) in
    bool_decide (age < TTL cfg)
  end.

(** [Stats].  [AgeSeconds] is [int(age.Seconds())]: the age as a
    [float64] number of seconds, truncated. *)
Definition Stats (w : World) : Stats :=
  match os.Stat w (CacheFile cfg) with
  | inl _ => Stats_invalid
  | inr info =>
    match os.ReadFile w (CacheFile cfg) with
    | inl _ => Stats_invalid
    | inr data =>
      match Unmarshal_BannerData data with
      | None => Stats_invalid
      | Some banners =>
        {| Valid := true;
           Path := CacheFile cfg;
           Entries := Z.of_nat (size (Linux banners));
           StatsSize := os.Size info;
           AgeSeconds :=
             float64.to_int (time.Seconds (time.Since w (ModTime info)));
           StatsUpdatedAt := ModTime info |}
      end
    end
  end.

Definition metaFile : string := filepath_Join (CacheDir cfg) "meta.json".

(** [loadMeta] *)
Definition loadMeta (w : World) : MetaCache :=
  match os.ReadFile w metaFile with
  | inl _ => {| Sources := ∅ |}
  | inr data =>
    match Unmarshal_MetaCache data with
    | None => {| Sources := ∅ |}
    | Some meta => meta
    end
  end.

(** [saveMeta] *)
Definition saveMeta (w : World) (meta : MetaCache) : option error * World :=
  match json_MarshalIndent meta with
  | None => (Some (ExternalError "json"), w)
  | Some data => os.WriteFile w metaFile data FileMode
  end.

(** [loadExistingBanners] *)
Definition loadExistingBanners (w : World) : option BannerData :=
  match os.ReadFile w (CacheFile cfg) with
  | inl _ => None
  | inr data => Unmarshal_BannerData data
  end.

(** [acquireLock] *)
Definition acquireLock (w : World) : option error * World :=
  match os.MkdirAll w (CacheDir cfg) DirMode with
  | Some err => (Some (fmt_Errorf "creating cache dir" err), w)
  | None =>
    let locked_or_cleared :=
      match os.Stat w (LockFile cfg) with
      | inr info =>
        if decide (time.Since w (ModTime info) < LockTimeout)
        then inl ErrLocked
        else inr (os.Remove w (LockFile cfg)).2
      | inl _ => inr w
      end in
    match locked_or_cleared with
    | inl err => (Some err, w)
    | inr w =>
      let pid := pretty os_Getpid in
      match os.WriteFile w (LockFile cfg) pid FileMode with
      | (Some err, w) => (Some (fmt_Errorf "creating lock" err), w)
      | (None, w) => (None, w)
      end
    end
  end.

(** [releaseLock] *)
Definition releaseLock (w : World) : World :=
  (os.Remove w (LockFile cfg)).2.

(** [write] *)
Definition write (w : World) (data : BannerData) : option error * World :=
  match os.MkdirAll w (CacheDir cfg) DirMode with
  | Some err => (Some (fmt_Errorf "creating cache dir" err), w)
  | None =>
    let tmp := CacheFile cfg +:+ ".tmp" in
    match os.OpenFile w tmp FileMode with
    | (Some err, w) => (Some (fmt_Errorf "creating temp file" err), w)
    | (None, w) =>
      match os.Write w tmp (json_Encode data) with
      | (Some err, w) =>
        (Some (fmt_Errorf "encoding JSON" err), (os.Remove w tmp).2)
      | (None, w) =>
        match os.Sync w tmp with
        | Some err =>
          (Some (fmt_Errorf "syncing file" err), (os.Remove w tmp).2)
        | None =>
          match os.Close w tmp with
          | Some err =>
            (Some (fmt_Errorf "closing file" err), (os.Remove w tmp).2)
          | None =>
            match os.Rename w tmp (CacheFile cfg) with
            | (Some err, w) =>
              (Some (fmt_Errorf "renaming cache file" err),
               (os.Remove w tmp).2)
            | (None, w) => (None, w)
            end
          end
        end
      end
    end
  end.

(** The body of the loop of [SmartUpdate] for one result [r]; [meta] is
    the sidecar loaded before the fetch and [w] the world the loop runs
    in (it reads the primary artifact for the unmodified sources). *)
Definition gather (w : World) (meta : MetaCache) (g : Gathered) (r : Result)
  : Gathered :=
  match Err r with
  | Some _ =>
    match Sources meta !! Source r with
    | Some old =>
      {| datasets := datasets g; anyModified := anyModified g;
         newMeta := {| Sources := <[ Source r := old ]> (Sources (newMeta g)) |} |}
    | None => g
    end
  | None =>
    let newMeta' :=
      match Meta r with
      | Some m => {| Sources := <[ Source r := m ]> (Sources (newMeta g)) |}
      | None => newMeta g
      end in
    match Modified r, Data r with
    | true, Some d =>
      {| datasets := datasets g ++ [Some d]; anyModified := true;
         newMeta := newMeta' |}
    | true, None =>
      {| datasets := datasets g; anyModified := anyModified g;
         newMeta := newMeta' |}
    | false, _ =>
      match loadExistingBanners w with
      | Some existing =>
        {| datasets := datasets g ++ [Some existing];
           anyModified := anyModified g; newMeta := newMeta' |}
      | None =>
        {| datasets := datasets g; anyModified := anyModified g;
           newMeta := newMeta' |}
      end
    end
  end.

Definition gather_all (w : World) (meta : MetaCache) (results : list Result)
  : Gathered :=
  foldl (gather w meta)
    {| datasets := []; anyModified := false; newMeta := {| Sources := ∅ |} |}
    results.

(** [SmartUpdate].  The deferred [releaseLock] runs on every return
    after the lock was acquired. *)
Definition SmartUpdate (w : World) : bool * option error * World :=
  match acquireLock w with
  | (Some err, w) => (false, Some err, w)
  | (None, w) =>
    let meta := loadMeta w in
    let '(results, w) :=
      Fetcher.FetchAllWithMeta w (ConfigSources cfg) (Some meta) in
    let g := gather_all w meta results in
    let w := (saveMeta w (newMeta g)).2 in
    if negb (anyModified g) && IsValid w then
      (false, None, releaseLock w)
    else if decide (length (datasets g) = 0%nat) then
      (false, Some ErrAllSourcesFailed, releaseLock w)
    else
      let merged := Merge (datasets g) in
      match write w merged with
      | (Some err, w) => (false, Some err, releaseLock w)
      | (None, w) => (anyModified g, None, releaseLock w)
      end
  end.

(** The loop of [Update]: the documents of the results without error. *)
Definition collect (results : list Result) : list (option BannerData) :=
  foldl (λ datasets r,
           match Err r with
           | Some _ => datasets
           | None => datasets ++ [Data r]
           end) [] results.

(** [Update] *)
Definition Update (w : World) (force : bool) : option error * World :=
  if negb force && IsValid w then (None, w)
  else
    match acquireLock w with
    | (Some err, w) => (Some err, w)
    | (None, w) =>
      let '(results, w) := Fetcher.FetchAll w (ConfigSources cfg) in
      let datasets := collect results in
      if decide (length datasets = 0%nat) then
        (Some ErrAllSourcesFailed, releaseLock w)
      else
        let merged := Merge datasets in
        match write w merged with
        | (err, w) => (err, releaseLock w)
        end
    end.

(** [Ensure] *)
Definition Ensure (w : World) : option error * World :=
  if IsValid w then (None, w) else Update w false.

(** [Path] *)
Definition Path (w : World) : string * bool :=
  match os.Stat w (CacheFile cfg) with
  | inl _ => (EmptyString, false)
  | inr _ => (CacheFile cfg, true)
  end.

(** [URI] *)
Definition URI (w : World) : string * bool :=
  let '(path, ok) := Path w in
  if negb ok then (EmptyString, false)
  else ("file://" +:+ path, true).

(** [Clear].  [os.IsNotExist] recognises the error of a missing file. *)
Definition Clear (w : World) : option error * World :=
  match os.Remove w (CacheFile cfg) with
  | (Some (ErrNotExist _), w) => (None, w)
  | (Some err, w) => (Some (fmt_Errorf "removing cache" err), w)
  | (None, w) => (None, w)
  end.

(** [ConfigureVolatility3] *)
Definition ConfigureVolatility3 (w : World) : option error * World :=
  match os_UserHomeDir with
  | None => (Some (fmt_Errorf "getting home dir" (ExternalError "home")), w)
  | Some home =>
    let vol3Config := filepath_Join home ".volatility3.yaml" in
    let '(uri, ok) := URI w in
    let uri := if negb ok then "file://" +:+ CacheFile cfg else uri in
    let content := vol3_content uri in
    match os.Stat w vol3Config with
    | inr _ =>
      match os.ReadFile w vol3Config with
      | inl err => (Some (fmt_Errorf "reading volatility3 config" err), w)
      | inr existing =>
        if contains existing "remote_isf_url" then
          (Some (errors_New
                   ("volatility3 config already has remote_isf_url, please update manually: "
                    +:+ vol3Config)), w)
        else
          match os.OpenFileAppend w vol3Config with
          | Some err => (Some (fmt_Errorf "opening volatility3 config" err), w)
          | None =>
            match os.WriteString w vol3Config (LF +:+ content) with
            | (Some err, w) =>
              (Some (fmt_Errorf "writing volatility3 config" err), w)
            | (None, w) => (None, w)
            end
          end
      end
    | inl _ =>
      match os.WriteFile w vol3Config content FileMode with
      | (Some err, w) =>
        (Some (fmt_Errorf "creating volatility3 config" err), w)
      | (None, w) => (None, w)
      end
    end
  end.

End Cache.
End Cache.

(** ** Specification vocabulary for the cache controller *)

Section CacheVocabulary.
Context `{Runtime}.
Variable cfg : Config.

(** The sibling temporary path of [write]. *)
Definition tmpFile : string := CacheFile cfg +:+ ".tmp".

(** No file-system operation fails for a reason outside the program. *)
Definition no_faults : Prop := ∀ op path, io_fault op path = false.

(** The lock file exists and is younger than [LockTimeout]. *)
Definition lock_held (w : World) : Prop :=
  ∃ f, files w !! LockFile cfg = Some f ∧ now w - ModTime f < LockTimeout.

(** The lock file [acquireLock] creates in the world [w]. *)
Definition lock_file (w : World) : File :=
  {| contents := pretty os_Getpid; ModTime := now w; Mode := FileMode |}.

(** What the loop of [SmartUpdate] has gathered, and the world after the
    sidecar was saved, when the lock was taken in the world [w1]. *)
Definition gathered (w1 : World) : Gathered :=
  Cache.gather_all cfg (advance w1 join_delay) (Cache.loadMeta cfg w1)
    (Fetcher.FetchAllWithMeta w1 (ConfigSources cfg)
       (Some (Cache.loadMeta cfg w1))).1.

Definition saved (w1 : World) : World :=
  (Cache.saveMeta cfg (advance w1 join_delay) (newMeta (gathered w1))).2.

End CacheVocabulary.

(** What one fetch result adds to the documents that [SmartUpdate]
    merges, [existing] being the document read from the primary
    artifact: nothing for a failed fetch, its document for a modified
    source, the existing document for a source that was not modified. *)
Definition contribution (existing : option BannerData) (r : Result)
  : list (option BannerData) :=
  match Err r with
  | Some _ => []
  | None =>
    if Modified r then
      match Data r with
      | Some d => [Some d]
      | None => []
      end
    else
      match existing with
      | Some e => [Some e]
      | None => []
      end
  end.

(** A fetch result that sets [anyModified]. *)
Definition brings_document (r : Result) : Prop :=
  Err r = None ∧ Modified r = true ∧ is_Some (Data r).

(** A trimmed line that [loadSources] keeps: not empty, not a comment. *)
Definition is_source_line (line : string) : Prop :=
  line ≠ EmptyString ∧ strings.HasPrefix line "#" = false.

#[global] Instance is_source_line_dec (line : string)
  : Decision (is_source_line line).
Proof. unfold is_source_line. apply _. Defined.

(** * A concrete environment for the examples *)

(** The examples run the program in an environment that is fixed once:
    JSON texts are written by a small printer, the parser knows the
    texts of a finite list of values, no I/O operation fails, and one
    upstream server answers. *)
Module Demo.

Definition quote : string := String (ascii_of_N 34) EmptyString.

Definition join (sep : string) (parts : list string) : string :=
  match parts with
  | [] => EmptyString
  | p :: ps => foldl (λ acc q, acc +:+ sep +:+ q) p ps
  end.

Fixpoint print (v : json.Value) : string :=
  match v with
  | json.Null => "null"
  | json.Bool b => if b then "true" else "false"
  | json.Int n => pretty n
  | json.Float literal => literal
  | json.Str s => quote +:+ s +:+ quote
  | json.Array elements =>
    "[" +:+ join "," (map print elements) +:+ "]"
  | json.Object members =>
    "{" +:+ join ","
      (map (λ m : string * json.Value,
              quote +:+ m.1 +:+ quote +:+ ":" +:+ print m.2) members) +:+ "}"
  end.

Definition strings_value (urls : list string) : json.Value :=
  match urls with
  | [] => json.Null
  | _ => json.Array (json.Str <$> urls)
  end.

Definition BannerData_value (d : BannerData) : json.Value :=
  json.Object
    [("version", json.Int (Version d));
     ("linux", json.Object
        ((λ kv : string * list string, (kv.1, strings_value kv.2))
           <$> map_to_list (Linux d)))].

Definition SourceMeta_value (m : SourceMeta) : json.Value :=
  json.Object
    ((if decide (ETag m = EmptyString) then []
      else [("etag", json.Str (ETag m))]) ++
     (if decide (LastModified m = EmptyString) then []
      else [("last_modified", json.Str (LastModified m))]) ++
     [("updated_at", json.Str (pretty (UpdatedAt m)))]).

Definition MetaCache_value (m : MetaCache) : json.Value :=
  json.Object
    [("sources", json.Object
        ((λ kv : string * SourceMeta, (kv.1, SourceMeta_value kv.2))
           <$> map_to_list (Sources m)))].

(** The documents of the examples. *)
Definition docA : BannerData :=
  {| Version := 1; Linux := {[ "K" := ["u1"; "u2"] ]} |}.
Definition docB : BannerData :=
  {| Version := 1; Linux := {[ "K" := ["u2"; "u3"] ]} |}.
Definition docAB : BannerData :=
  {| Version := 1; Linux := {[ "K" := ["u1"; "u2"; "u3"] ]} |}.
Definition docV2 : BannerData :=
  {| Version := 2; Linux := {[ "K" := ["u1"] ]} |}.
Definition docV7 : BannerData := {| Version := 7; Linux := ∅ |}.

Definition urlA : string := "https://a.example/banners.json".
Definition urlB : string := "https://b.example/banners.json".
Definition urlBad : string := "https://bad.example/banners.json".
Definition urlFlaky : string := "https://flaky.example/banners.json".

Definition metaOld : SourceMeta :=
  {| ETag := "abc"; LastModified := EmptyString; UpdatedAt := 1000 |}.
Definition metaBoth : SourceMeta :=
  {| ETag := "abc"; LastModified := "Thu, 01 Jan 2026 00:00:00 GMT";
     UpdatedAt := 1000 |}.
Definition sidecarOld : MetaCache :=
  {| Sources := {[ urlA := metaOld; urlBad := metaOld ]} |}.

Definition known_values : list json.Value :=
  [json.Null; json.Object []; BannerData_value docA; BannerData_value docB;
   BannerData_value docAB; BannerData_value docV2; BannerData_value docV7;
   MetaCache_value sidecarOld].

Definition newline : string := String (ascii_of_N 10) EmptyString.

(** The parser accepts the text of a known value, also when a newline
    follows it. *)
Definition parse (text : string) : option json.Value :=
  snd <$> list_find (λ v, print v = text ∨ print v +:+ newline = text)
            known_values.

Definition known_times : list Z := [0; 1000; 2000].

Definition parse_time (text : string) : option Z :=
  snd <$> list_find (λ t : Z, pretty t = text) known_times.

(** The upstream servers.  [urlA] serves [docA] under the entity tag
    [abc] and answers 304 to a request that carries that tag; [urlB]
    serves [docB] without validators; [urlFlaky] fails for the first
    goroutine and serves [docB] to the others; every other host
    refuses the connection. *)
Definition serve (worker : nat) (req : http.Request) : error + http.Response :=
  if decide (http.URL req = urlA) then
    if decide (http.Header_Get (http.ReqHeader req) "If-None-Match" = "abc")
    then inr {| http.StatusCode := 304; http.RespHeader := ∅;
                http.Body := EmptyString |}
    else inr {| http.StatusCode := 200;
                http.RespHeader := http.Header_Set ∅ "ETag" "abc";
                http.Body := print (BannerData_value docA) |}
  else if decide (http.URL req = urlB) then
    inr {| http.StatusCode := 200; http.RespHeader := ∅;
           http.Body := print (BannerData_value docB) |}
  else if decide (http.URL req = urlFlaky) then
    match worker with
    | O => inl (ExternalError "timeout")
    | _ => inr {| http.StatusCode := 200;
                  http.RespHeader := http.Header_Set ∅ "ETag" "new";
                  http.Body := print (BannerData_value docB) |}
    end
  else inl (ExternalError "connection refused").

#[local] Instance runtime : Runtime := {|
  json_parse := parse;
  json_parse_first := parse;
  json_Encode := λ d, print (BannerData_value d) +:+ newline;
  json_MarshalIndent := λ m, Some (print (MetaCache_value m));
  time_UnmarshalJSON := parse_time;
  http_NewRequest := λ _, true;
  http_Do := serve;
  worker_delay := λ _, 1 * Second;
  join_delay := 2 * Second;
  os_UserHomeDir := Some "/home/user";
  os_Getpid := 4242;
  filepath_Join := λ dir name, dir +:+ "/" +:+ name;
  io_fault := λ _ _, false;
  io_written := λ _, None;
|}.

Definition config (sources : list string) : Config :=
  {| CacheDir := "/cache";
     ConfigDir := "/config";
     CacheFile := "/cache/banners.json";
     ConfigFile := "/config/sources.conf";
     LockFile := "/cache/.lock";
     TTL := 24 * Hour;
     ConfigSources := sources |}.

Definition file_at (text : string) (mtime : Z) : File :=
  {| contents := text; ModTime := mtime; Mode := FileMode |}.

Definition cache_path : string := "/cache/banners.json".
Definition meta_path : string := "/cache/meta.json".
Definition lock_path : string := "/cache/.lock".

(** A primary artifact written long ago, with the sidecar of that time. *)
Definition world_stale : World :=
  {| files := {[ cache_path := file_at (print (BannerData_value docA)) 0;
                 meta_path := file_at (print (MetaCache_value sidecarOld)) 0 ]};
     now := 100 * Hour |}.

(** The same files one hour after they were written. *)
Definition world_fresh : World :=
  {| files := files world_stale; now := 1 * Hour |}.

(** The sidecar alone: the primary artifact was cleared. *)
Definition world_cleared : World :=
  {| files := {[ meta_path := file_at (print (MetaCache_value sidecarOld)) 0 ]};
     now := 100 * Hour |}.

(** A primary artifact that is not JSON, written five seconds ago. *)
Definition world_garbage : World :=
  {| files := {[ cache_path := file_at "invalid json" (100 * Hour) ]};
     now := 100 * Hour + 5 * Second |}.

(** A primary artifact that holds a given text, written an hour ago. *)
Definition world_with (text : string) : World :=
  {| files := {[ cache_path := file_at text 0 ]}; now := 1 * Hour |}.

(** The first run: no file at all. *)
Definition world_first_run : World := {| files := ∅; now := 100 * Hour |}.

(** The validators that the upstream [urlA] sends with a full answer
    to a fetch started at the hundredth hour. *)
Definition fresh_validators : SourceMeta :=
  {| ETag := "abc"; LastModified := EmptyString;
     UpdatedAt := 100 * Hour + 1 * Second |}.

(** A lock taken thirty seconds ago, and one taken ten minutes ago. *)
Definition world_locked : World :=
  {| files := {[ lock_path := file_at "12345" (100 * Hour - 30 * Second) ]};
     now := 100 * Hour |}.
Definition world_stale_lock : World :=
  {| files := {[ lock_path := file_at "12345" (100 * Hour - 10 * Minute) ]};
     now := 100 * Hour |}.

End Demo.

(** * Further scenarios: local sources, failing operations, the
      configuration files *)

Module Scenario.

(** The runtime of [Demo] in which the operation [op] fails on the file
    [path], and nothing else fails; a [WriteFile] that fails does so
    after three bytes. *)
Definition faulty (op : IoOp) (path : string) : Runtime := {|
  json_parse := Demo.parse;
  json_parse_first := Demo.parse;
  json_Encode := λ d, Demo.print (Demo.BannerData_value d) +:+ Demo.newline;
  json_MarshalIndent := λ m, Some (Demo.print (Demo.MetaCache_value m));
  time_UnmarshalJSON := Demo.parse_time;
  http_NewRequest := λ _, true;
  http_Do := Demo.serve;
  worker_delay := λ _, 1 * Second;
  join_delay := 2 * Second;
  os_UserHomeDir := Some "/home/user";
  os_Getpid := 4242;
  filepath_Join := λ dir name, dir +:+ "/" +:+ name;
  io_fault := λ op' path', bool_decide (op' = op ∧ path' = path);
  io_written := λ _, Some 3%nat;
|}.

(** A decimal reader for [Sscanf_d]: the digits at the start of the
    text, when there is one. *)
Definition digit (c : ascii) : option Z :=
  let n := Z.of_N (N_of_ascii c) in
  if decide (48 ≤ n ≤ 57) then Some (n - 48) else None.

Fixpoint scan_digits (s : string) (acc : Z) : Z :=
  match s with
  | EmptyString => acc
  | String c rest =>
    match digit c with
    | Some d => scan_digits rest (10 * acc + d)
    | None => acc
    end
  end.

Definition Sscanf_d (s : string) : option Z :=
  match s with
  | EmptyString => None
  | String c _ =>
    match digit c with
    | Some _ => Some (scan_digits s 0)
    | None => None
    end
  end.

(** The lines of a text for [ScanLines], cut at the line feeds. *)
Fixpoint lines_from (cur : string) (s : string) : list string :=
  match s with
  | EmptyString => if decide (cur = EmptyString) then [] else [cur]
  | String c rest =>
    if decide (c = ascii_of_N 10) then cur :: lines_from EmptyString rest
    else lines_from (cur +:+ String c EmptyString) rest
  end.

Definition ScanLines (text : string) : list string :=
  lines_from EmptyString text.

(** [TrimSpace] on blanks. *)
Fixpoint trim_left (s : string) : string :=
  match s with
  | EmptyString => EmptyString
  | String c rest => if Ascii.is_space c then trim_left rest else s
  end.

Definition TrimSpace (s : string) : string :=
  String.rev (trim_left (String.rev (trim_left s))).

(** A document in a local file, and another one in the home directory. *)
Definition local_path : string := "/data/banners.json".
Definition home_path : string := "/home/user/banners.json".

Definition world_local : World :=
  {| files :=
       {[ local_path := Demo.file_at (Demo.print (Demo.BannerData_value Demo.docA)) 0;
          home_path := Demo.file_at (Demo.print (Demo.BannerData_value Demo.docB)) 0 ]};
     now := 100 * Hour |}.

(** The configuration of volatility3: absent, without the key, and with
    the key. *)
Definition vol3_path : string := "/home/user/.volatility3.yaml".

Definition world_vol3 (text : string) : World :=
  {| files := {[ vol3_path := Demo.file_at text 0 ]}; now := 100 * Hour |}.

(** A [sources.conf] with a comment, a blank line, a padded URL and a
    local path; and one that holds comments only. *)
Definition sources_text : string :=
  "# upstream" +:+ LF +:+ LF +:+ "  " +:+ Demo.urlA +:+ "  " +:+ LF
  +:+ local_path +:+ LF.

Definition world_sources (text : string) : World :=
  {| files := {[ "/config/sources.conf" := Demo.file_at text 0 ]};
     now := 100 * Hour |}.

(** Fetch results for the loop of [SmartUpdate]: a source that failed,
    then one that answered with a document and validators. *)
Definition result_failed : Result :=
  {| Source := Demo.urlBad; Data := None; Meta := None; Modified := false;
     Err := Some (ExternalError "connection refused") |}.

Definition result_fresh : Result :=
  {| Source := Demo.urlA; Data := Some Demo.docA;
     Meta := Some Demo.fresh_validators; Modified := true; Err := None |}.

End Scenario.

(** * Properties of [Merge] *)

Section MergeProperties.

Lemma seen_of_list (existing : list string) (seen : gset string) :
  foldl seen_insert seen existing = list_to_set existing ∪ seen.
Proof.
  revert seen. induction existing as [|v l IH]; intros seen; simpl.
  - by rewrite (left_id_L ∅ (∪)).
  - rewrite IH. unfold seen_insert. by rewrite (assoc_L (∪)), (comm_L (∪) _ {[v]}).
Qed.

Lemma appendUnique_loop (result : list string) (new : list string) :
  foldl appendUnique_step (result, list_to_set result) new
  = (foldl push_unique result new, list_to_set (foldl push_unique result new)).
Proof.
  revert result. induction new as [|v new IH]; intros result; simpl; [done|].
  unfold push_unique at 2 4.
  rewrite (decide_ext (v ∈ (list_to_set result : gset string)) (v ∈ result))
    by apply elem_of_list_to_set.
  destruct (decide (v ∈ result)) as [Hin|Hin]; [apply IH|].
  replace (seen_insert (list_to_set result) v)
    with (list_to_set (result ++ [v]) : gset string); [apply IH|].
  unfold seen_insert. rewrite list_to_set_app_L. simpl.
  rewrite (right_id_L ∅ (∪)). apply (comm_L (∪)).
Qed.

Lemma appendUnique_foldl existing new :
  appendUnique existing new = foldl push_unique existing new.
Proof.
  unfold appendUnique. rewrite seen_of_list.
  rewrite (right_id_L ∅ (∪)).
  by rewrite appendUnique_loop.
Qed.

Lemma appendUnique_nil existing : appendUnique existing [] = existing.
Proof. by rewrite appendUnique_foldl. Qed.

Lemma appendUnique_cons existing v new :
  appendUnique existing (v :: new) = appendUnique (push_unique existing v) new.
Proof. by rewrite !appendUnique_foldl. Qed.

Lemma appendUnique_app existing new1 new2 :
  appendUnique existing (new1 ++ new2)
  = appendUnique (appendUnique existing new1) new2.
Proof. by rewrite !appendUnique_foldl, foldl_app. Qed.

Lemma first_seen_elem_of l x : x ∈ first_seen l ↔ x ∈ l.
Proof.
  induction l as [|y l IH]; simpl; [done|].
  rewrite !elem_of_cons, list_elem_of_filter, IH.
  destruct (decide (x = y)); naive_solver.
Qed.

Lemma first_seen_sublist l : first_seen l `sublist_of` l.
Proof.
  induction l as [|y l IH]; simpl; [done|].
  apply sublist_skip. etrans; [apply sublist_filter|done].
Qed.

Lemma first_seen_NoDup l : NoDup (first_seen l).
Proof.
  induction l as [|y l IH]; simpl; [constructor|].
  constructor.
  - rewrite list_elem_of_filter. naive_solver.
  - by apply NoDup_filter.
Qed.

Lemma appendUnique_first_seen existing new :
  appendUnique existing new
  = existing ++ filter (λ y, y ∉ existing) (first_seen new).
Proof.
  revert existing. induction new as [|v new IH]; intros existing.
  - rewrite appendUnique_nil. simpl. by rewrite app_nil_r.
  - rewrite appendUnique_cons, IH. unfold push_unique. simpl.
    rewrite filter_cons.
    destruct (decide (v ∈ existing)) as [Hin|Hin].
    + rewrite decide_False by naive_solver. f_equal.
      rewrite list_filter_filter. apply list_filter_iff.
      intros y. split; [|naive_solver]. intros Hy. split; [done|].
      intros ->. done.
    + rewrite decide_True by done. rewrite <- app_assoc. simpl. do 2 f_equal.
      rewrite list_filter_filter. apply list_filter_iff.
      intros y. rewrite elem_of_app, list_elem_of_singleton. naive_solver.
Qed.

Lemma filter_keeps_all (P : string → Prop) `{∀ x, Decision (P x)} (l : list string) :
  (∀ x, x ∈ l → P x) → filter P l = l.
Proof.
  induction l as [|x l IH]; intros HP; [done|].
  rewrite filter_cons, decide_True by (apply HP; left).
  f_equal. apply IH. intros y Hy. apply HP. by right.
Qed.

Lemma appendUnique_empty new : appendUnique [] new = first_seen new.
Proof.
  rewrite appendUnique_first_seen. simpl.
  apply filter_keeps_all. intros x _. apply not_elem_of_nil.
Qed.

Lemma merge_banners_lookup merged (entries : list (string * list string)) k :
  NoDup entries.*1 →
  merge_banners merged entries !! k
  = match (list_to_map entries : gmap string (list string)) !! k with
    | Some urls => Some (appendUnique (default [] (merged !! k)) urls)
    | None => merged !! k
    end.
Proof.
  revert merged. induction entries as [|[b u] es IH]; intros merged Hnd; [done|].
  simpl in Hnd. apply NoDup_cons in Hnd as [Hb Hnd].
  unfold merge_banners in *. simpl. rewrite IH by done.
  destruct (decide (k = b)) as [->|Hne].
  - rewrite (not_elem_of_list_to_map_1 _ _ Hb), !lookup_insert_eq. done.
  - rewrite !lookup_insert_ne by done. done.
Qed.

Lemma merge_banners_order merged (entries entries' : list (string * list string)) :
  NoDup entries.*1 → entries ≡ₚ entries' →
  merge_banners merged entries = merge_banners merged entries'.
Proof.
  intros Hnd Hp. apply map_eq. intros k.
  rewrite !merge_banners_lookup; [|by rewrite <- Hp|done].
  by rewrite (list_to_map_proper entries entries').
Qed.

Lemma merge_dataset_lookup merged data k :
  merge_dataset merged data !! k
  = match data ≫= (λ d, Linux d !! k) with
    | Some urls => Some (appendUnique (default [] (merged !! k)) urls)
    | None => merged !! k
    end.
Proof.
  destruct data as [d|]; simpl; [|done].
  rewrite merge_banners_lookup by apply NoDup_fst_map_to_list.
  by rewrite list_to_map_to_list.
Qed.

Lemma merge_datasets_lookup merged datasets k :
  foldl merge_dataset merged datasets !! k
  = match contributions k datasets with
    | [] => merged !! k
    | ls => Some (appendUnique (default [] (merged !! k)) (concat ls))
    end.
Proof.
  revert merged. induction datasets as [|data ds IH]; intros merged; [done|].
  simpl. rewrite IH, merge_dataset_lookup. unfold contributions. simpl.
  destruct (data ≫= _) as [urls|]; [|done]. simpl.
  destruct (omap _ ds) as [|l ls].
  - simpl. by rewrite app_nil_r.
  - by rewrite <- appendUnique_app.
Qed.

Lemma Merge_lookup datasets k :
  Linux (Merge datasets) !! k
  = match contributions k datasets with
    | [] => None
    | ls => Some (first_seen (concat ls))
    end.
Proof.
  unfold Merge, Linux. rewrite merge_datasets_lookup, lookup_empty.
  destruct (contributions k datasets); [done|].
  change (default [] None) with (@nil string). by rewrite appendUnique_empty.
Qed.


Lemma first_seen_app l1 l2 :
  first_seen (l1 ++ l2) = first_seen l1 ++ filter (λ y, y ∉ l1) (first_seen l2).
Proof.
  rewrite <- !appendUnique_empty, appendUnique_app, appendUnique_first_seen.
  rewrite !appendUnique_empty. f_equal. apply list_filter_iff.
  intros y. by rewrite first_seen_elem_of.
Qed.

Lemma first_seen_NoDup_id l : NoDup l → first_seen l = l.
Proof.
  induction 1 as [|x l Hx Hnd IH]; [done|]. simpl. rewrite IH. f_equal.
  apply filter_keeps_all. intros y Hy ->. done.
Qed.

Lemma first_seen_app_l l1 l2 :
  first_seen (first_seen l1 ++ l2) = first_seen (l1 ++ l2).
Proof.
  rewrite !first_seen_app.
  rewrite (first_seen_NoDup_id (first_seen l1)) by apply first_seen_NoDup.
  f_equal. apply list_filter_iff. intros y. by rewrite first_seen_elem_of.
Qed.

Lemma first_seen_app_r l1 l2 :
  first_seen (l1 ++ first_seen l2) = first_seen (l1 ++ l2).
Proof.
  rewrite !first_seen_app.
  by rewrite (first_seen_NoDup_id (first_seen l2)) by apply first_seen_NoDup.
Qed.

Lemma contributions_cons k data datasets :
  contributions k (data :: datasets)
  = match data ≫= (λ d, Linux d !! k) with
    | Some urls => urls :: contributions k datasets
    | None => contributions k datasets
    end.
Proof. unfold contributions. simpl. by destruct (data ≫= _). Qed.

Lemma contributions_is_Some k datasets :
  contributions k (filter is_Some datasets) = contributions k datasets.
Proof.
  induction datasets as [|data ds IH]; [done|].
  rewrite filter_cons. destruct data as [d|].
  - rewrite decide_True by done. by rewrite !contributions_cons, IH.
  - rewrite decide_False by (by intros [? ?]). by rewrite contributions_cons.
Qed.

Lemma BannerData_eq (x y : BannerData) :
  Version x = Version y → Linux x = Linux y → x = y.
Proof. destruct x, y; simpl; congruence. Qed.

(** The worked example of the specification: two sources that share the
    URL [u2] under the banner [K]. *)
Example Merge_two_sources :
  Merge [Some Demo.docA; Some Demo.docB] = Demo.docAB.
Proof.
  apply BannerData_eq; [done|]. apply map_eq. intros k.
  rewrite Merge_lookup. unfold contributions. simpl.
  destruct (decide (k = "K")) as [->|Hne].
  - reflexivity.
  - unfold Demo.docA, Demo.docB, Demo.docAB. simpl.
    by rewrite !lookup_singleton_ne.
Qed.

Example first_seen_example :
  first_seen ["u1"; "u2"; "u2"; "u1"; "u3"] = ["u1"; "u2"; "u3"].
Proof. reflexivity. Qed.

(** C1.  [Merge] fixes the version of its output at 1 and skips the nil
    inputs.  [appendUnique] takes the new URLs one by one and appends a
    URL exactly when it is not yet in the list, strings being compared
    byte for byte.  Hence, for every banner, the output has that key
    exactly when some input carries it, and its URL list is the URLs of
    the inputs for that banner, taken in input order, each kept at its
    first occurrence only: the list has no duplicate, holds exactly the
    URLs of the inputs, and the URLs of earlier inputs stay in front of
    those that later inputs add. *)
Theorem Merge_unique_first_seen (datasets : list (option BannerData)) :
  Version (Merge datasets) = 1
  ∧ Merge datasets = Merge (filter is_Some datasets)
  ∧ (∀ existing : list string, appendUnique existing [] = existing)
  ∧ (∀ (existing : list string) v new,
       appendUnique existing (v :: new)
       = appendUnique
           (if decide (v ∈ existing) then existing else existing ++ [v]) new)
  ∧ (∀ banner,
       Linux (Merge datasets) !! banner
       = match contributions banner datasets with
         | [] => None
         | ls => Some (first_seen (concat ls))
         end)
  ∧ (∀ banner,
       let urls := default [] (Linux (Merge datasets) !! banner) in
       NoDup urls
       ∧ (∀ u, u ∈ urls ↔ u ∈ concat (contributions banner datasets))
       ∧ urls `sublist_of` concat (contributions banner datasets))
  ∧ (∀ datasets' banner,
       default [] (Linux (Merge (datasets ++ datasets')) !! banner)
       = default [] (Linux (Merge datasets) !! banner)
         ++ filter (λ u, u ∉ concat (contributions banner datasets))
              (default [] (Linux (Merge datasets') !! banner))).
Proof.
  assert (Hurls : ∀ ds banner,
    default [] (Linux (Merge ds) !! banner)
    = first_seen (concat (contributions banner ds))).
  { intros ds banner. rewrite Merge_lookup.
    by destruct (contributions banner ds). }
  split_and!.
  - done.
  - apply BannerData_eq; [done|]. apply map_eq. intros k.
    by rewrite !Merge_lookup, contributions_is_Some.
  - apply appendUnique_nil.
  - apply appendUnique_cons.
  - apply Merge_lookup.
  - intros banner. cbv zeta. rewrite Hurls. split_and!.
    + apply first_seen_NoDup.
    + intros u. apply first_seen_elem_of.
    + apply first_seen_sublist.
  - intros datasets' banner. rewrite !Hurls.
    unfold contributions. rewrite omap_app, concat_app.
    apply first_seen_app.
Qed.

(** C8.  Merging [a] with the merge of [b] and [c] gives the same
    document, version and banner map, as merging [a], [b] and [c]
    directly; each of the three inputs may be nil. *)
Theorem Merge_assoc (a b c : option BannerData) :
  Merge [a; Some (Merge [b; c])] = Merge [a; b; c].
Proof.
  apply BannerData_eq; [done|]. apply map_eq. intros k.
  rewrite !Merge_lookup, !contributions_cons.
  change (contributions k []) with (@nil (list string)).
  change (Some (Merge [b; c]) ≫= (λ d, Linux d !! k))
    with (Linux (Merge [b; c]) !! k).
  rewrite Merge_lookup, !contributions_cons.
  change (contributions k []) with (@nil (list string)).
  destruct (a ≫= _) as [ua|], (b ≫= _) as [ub|], (c ≫= _) as [uc|];
    simpl; rewrite ?app_nil_r; try done; f_equal;
    rewrite ?first_seen_app_r; try done;
    apply first_seen_NoDup_id, first_seen_NoDup.
Qed.

End MergeProperties.

(** * Properties of the cache controller *)

Section CacheProperties.
Context `{Runtime}.
Variable cfg : Config.

(** ** The lock *)

Lemma time_Sub_lt (t u c : Z) :
  time.minDuration < c ≤ time.maxDuration →
  time.Sub t u < c ↔ t - u < c.
Proof. unfold time.Sub, time.minDuration, time.maxDuration. lia. Qed.

Lemma LockTimeout_range : time.minDuration < LockTimeout ≤ time.maxDuration.
Proof. by vm_compute. Qed.

Lemma releaseLock_files w :
  io_fault OpRemove (LockFile cfg) = false →
  files (Cache.releaseLock cfg w) = delete (LockFile cfg) (files w).
Proof.
  intros Hrm. unfold Cache.releaseLock, os.Remove.
  destruct (files w !! LockFile cfg) eqn:Hl; simpl.
  - by rewrite Hrm.
  - symmetry. by apply delete_id.
Qed.

Lemma releaseLock_now w : now (Cache.releaseLock cfg w) = now w.
Proof.
  unfold Cache.releaseLock, os.Remove.
  destruct (files w !! LockFile cfg); [|done].
  by destruct (io_fault OpRemove (LockFile cfg)).
Qed.

Lemma releaseLock_lookup w path :
  path ≠ LockFile cfg →
  files (Cache.releaseLock cfg w) !! path = files w !! path.
Proof.
  intros Hne. unfold Cache.releaseLock, os.Remove.
  destruct (files w !! LockFile cfg); [|done].
  destruct (io_fault OpRemove (LockFile cfg)); [done|].
  simpl. by rewrite lookup_delete_ne.
Qed.

Lemma releaseLock_idemp w :
  Cache.releaseLock cfg (Cache.releaseLock cfg w) = Cache.releaseLock cfg w.
Proof.
  unfold Cache.releaseLock at 2 3. unfold os.Remove.
  destruct (files w !! LockFile cfg) eqn:Hl; simpl.
  - destruct (io_fault OpRemove (LockFile cfg)) eqn:Hrm; simpl.
    + unfold Cache.releaseLock, os.Remove. by rewrite Hl, Hrm.
    + unfold Cache.releaseLock, os.Remove. simpl. by rewrite lookup_delete_eq.
  - unfold Cache.releaseLock, os.Remove. by rewrite Hl.
Qed.

Lemma acquireLock_held w :
  io_fault OpMkdirAll (CacheDir cfg) = false →
  lock_held cfg w → Cache.acquireLock cfg w = (Some ErrLocked, w).
Proof.
  intros Hmk (f & Hf & Hage). unfold Cache.acquireLock, os.MkdirAll, os.Stat.
  rewrite Hmk, Hf. rewrite decide_True; [done|].
  unfold time.Since. by apply time_Sub_lt; [apply LockTimeout_range|].
Qed.

Lemma acquireLock_free w :
  io_fault OpMkdirAll (CacheDir cfg) = false →
  io_fault OpRemove (LockFile cfg) = false →
  io_fault OpWriteFile (LockFile cfg) = false →
  ¬ lock_held cfg w →
  Cache.acquireLock cfg w
  = (None, set_files w (<[ LockFile cfg := lock_file w ]>
                          (delete (LockFile cfg) (files w)))).
Proof.
  intros Hmk Hrm Hwr Hfree.
  unfold Cache.acquireLock, os.MkdirAll, os.Stat. rewrite Hmk.
  destruct (files w !! LockFile cfg) as [f|] eqn:Hf.
  - rewrite decide_False.
    2:{ intros Hage. apply Hfree. exists f. split; [done|].
        unfold time.Since in Hage.
        by apply time_Sub_lt in Hage; [|apply LockTimeout_range]. }
    unfold os.Remove. rewrite Hf, Hrm. simpl.
    unfold os.WriteFile. rewrite Hwr. unfold os.put. simpl.
    by rewrite lookup_delete_eq.
  - unfold os.WriteFile. rewrite Hwr. unfold os.put. rewrite Hf.
    by rewrite (delete_id _ _ Hf).
Qed.

Lemma acquireLock_error w e :
  (Cache.acquireLock cfg w).1 = Some e →
  e = ErrLocked ∧ lock_held cfg w ∨ ∃ msg cause, e = fmt_Errorf msg cause.
Proof.
  unfold Cache.acquireLock, os.MkdirAll, os.Stat.
  destruct (io_fault OpMkdirAll (CacheDir cfg)); [intros [= <-]; eauto|].
  destruct (files w !! LockFile cfg) as [f|] eqn:Hf.
  - destruct (decide _) as [Hage|Hage].
    + intros [= <-]. left. split; [done|]. exists f. split; [done|].
      unfold time.Since in Hage.
      by apply time_Sub_lt in Hage; [|apply LockTimeout_range].
    + destruct (os.WriteFile _ _ _ _) as [[e'|] w']; intros [= <-]; eauto.
  - destruct (os.WriteFile _ _ _ _) as [[e'|] w']; intros [= <-]; eauto.
Qed.

(** C5.  With a cache directory that can be created and a lock file that
    can be removed and written: [acquireLock] returns [ErrLocked] exactly
    when the lock file exists and its modification time is less than
    five minutes old, and then changes nothing; otherwise (the lock file
    is absent, or five minutes old or older) it succeeds and leaves, in
    place of any stale lock, a lock file that holds the decimal process
    identifier, with mode 0644 and the current time.  [releaseLock]
    removes the lock file whether or not it exists, and releasing twice
    is the same as releasing once. *)
Theorem lock_acquire_release (w : World) :
  io_fault OpMkdirAll (CacheDir cfg) = false →
  io_fault OpRemove (LockFile cfg) = false →
  io_fault OpWriteFile (LockFile cfg) = false →
  ((Cache.acquireLock cfg w).1 = Some ErrLocked ↔ lock_held cfg w)
  ∧ (lock_held cfg w → Cache.acquireLock cfg w = (Some ErrLocked, w))
  ∧ (¬ lock_held cfg w →
       Cache.acquireLock cfg w
       = (None, set_files w (<[ LockFile cfg := lock_file w ]>
                               (delete (LockFile cfg) (files w)))))
  ∧ files (Cache.releaseLock cfg w) = delete (LockFile cfg) (files w)
  ∧ now (Cache.releaseLock cfg w) = now w
  ∧ Cache.releaseLock cfg (Cache.releaseLock cfg w) = Cache.releaseLock cfg w.
Proof.
  intros Hmk Hrm Hwr. split_and!.
  - split.
    + intros He. apply acquireLock_error in He as [[_ ?]|(? & ? & ?)]; done.
    + intros Hheld. by rewrite acquireLock_held.
  - by apply acquireLock_held.
  - by apply acquireLock_free.
  - by apply releaseLock_files.
  - apply releaseLock_now.
  - apply releaseLock_idemp.
Qed.


(** ** [write] and [Update] *)

Lemma string_length_app (s t : string) :
  String.length (s +:+ t) = (String.length s + String.length t)%nat.
Proof. induction s as [|c s IH]; simpl; [done|]. by rewrite IH. Qed.

Lemma tmpFile_ne : tmpFile cfg ≠ CacheFile cfg.
Proof.
  unfold tmpFile. intros Heq.
  apply (f_equal String.length) in Heq.
  rewrite string_length_app in Heq. simpl in Heq. lia.
Qed.

Ltac case_fault :=
  match goal with
  | |- context [io_fault ?op ?p] => destruct (io_fault op p) eqn:?
  end; cbn [fst snd].

Ltac case_written :=
  match goal with
  | |- context [io_written ?p] => destruct (io_written p) eqn:?
  end; cbn [fst snd].

Lemma put_lookup_eq w name data perm :
  files (os.put w name data perm) !! name
  = Some {| contents := data; ModTime := now w;
            Mode := match files w !! name with
                    | Some f => Mode f
                    | None => perm
                    end |}.
Proof. unfold os.put. simpl. by rewrite lookup_insert_eq. Qed.

Lemma put_lookup_ne w name data perm path :
  path ≠ name → files (os.put w name data perm) !! path = files w !! path.
Proof. intros Hne. unfold os.put. simpl. by rewrite lookup_insert_ne. Qed.

Lemma put_now w name data perm : now (os.put w name data perm) = now w.
Proof. done. Qed.

Lemma Remove_lookup w name path :
  path ≠ name → files (os.Remove w name).2 !! path = files w !! path.
Proof.
  intros Hne. unfold os.Remove. destruct (files w !! name); [|done].
  case_fault; [done|]. simpl. by rewrite lookup_delete_ne.
Qed.

Lemma Remove_now w name : now (os.Remove w name).2 = now w.
Proof.
  unfold os.Remove. destruct (files w !! name); [|done]. by case_fault.
Qed.

Ltac unfold_write :=
  unfold Cache.write, os.MkdirAll, os.OpenFile, os.Write, os.Sync, os.Close,
    os.Rename;
  fold (tmpFile cfg); cbn [fst snd].

Ltac frame_simpl :=
  cbn [fst snd files now set_files];
  repeat first
    [ rewrite Remove_lookup by done
    | rewrite Remove_now
    | rewrite put_now
    | rewrite put_lookup_ne by done
    | rewrite lookup_insert_ne by done
    | rewrite lookup_delete_ne by done ].

Lemma write_frame w d path :
  path ≠ tmpFile cfg → path ≠ CacheFile cfg →
  files (Cache.write cfg w d).2 !! path = files w !! path.
Proof.
  intros Htmp Hcache. unfold_write.
  destruct (io_written (tmpFile cfg));
    (do 5 (case_fault; frame_simpl; try done);
     rewrite put_lookup_eq; case_fault; frame_simpl; done).
Qed.

Lemma write_now w d : now (Cache.write cfg w d).2 = now w.
Proof.
  unfold_write.
  destruct (io_written (tmpFile cfg));
    (do 5 (case_fault; frame_simpl; try done);
     rewrite put_lookup_eq; case_fault; frame_simpl; done).
Qed.

Lemma write_error w d e :
  (Cache.write cfg w d).1 = Some e → ∃ msg cause, e = fmt_Errorf msg cause.
Proof.
  unfold_write.
  do 5 (case_fault; try (intros [= <-]; eauto)).
  rewrite put_lookup_eq. case_fault; intros [= <-]; eauto.
Qed.

Lemma write_ok w d :
  no_faults →
  (Cache.write cfg w d).1 = None
  ∧ ∃ mode, files (Cache.write cfg w d).2 !! CacheFile cfg
      = Some {| contents := json_Encode d; ModTime := now w; Mode := mode |}.
Proof.
  intros Hnf. unfold_write.
  rewrite !Hnf. cbn [fst snd]. rewrite put_lookup_eq. cbn [fst snd].
  split; [done|]. simpl. rewrite lookup_insert_eq. eauto.
Qed.

Lemma acquireLock_frame w path :
  path ≠ LockFile cfg →
  files (Cache.acquireLock cfg w).2 !! path = files w !! path.
Proof.
  intros Hne. unfold Cache.acquireLock, os.MkdirAll, os.Stat, os.WriteFile.
  case_fault; [done|].
  destruct (files w !! LockFile cfg) as [f|] eqn:Hf.
  - destruct (decide _) as [Hage|Hage].
    + done.
    + case_fault; try case_written; frame_simpl; done.
  - case_fault; try case_written; frame_simpl; done.
Qed.

Lemma acquireLock_now w : now (Cache.acquireLock cfg w).2 = now w.
Proof.
  unfold Cache.acquireLock, os.MkdirAll, os.Stat, os.WriteFile.
  case_fault; [done|].
  destruct (files w !! LockFile cfg) as [f|] eqn:Hf.
  - destruct (decide _) as [Hage|Hage].
    + done.
    + case_fault; try case_written; frame_simpl; done.
  - case_fault; try case_written; frame_simpl; done.
Qed.

Lemma collect_filter results :
  Cache.collect results = Data <$> filter (λ r, Err r = None) results.
Proof.
  unfold Cache.collect.
  assert (Hgen : ∀ acc,
    foldl (λ datasets r, match Err r with
                         | Some _ => datasets
                         | None => datasets ++ [Data r]
                         end) acc results
    = acc ++ (Data <$> filter (λ r, Err r = None) results)).
  { induction results as [|r rs IH]; intros acc; simpl.
    - by rewrite app_nil_r.
    - rewrite IH, filter_cons. destruct (Err r) as [e|].
      + by rewrite decide_False.
      + rewrite decide_True by done. by rewrite <- app_assoc. }
  apply (Hgen []).
Qed.

Lemma collect_nil results :
  Cache.collect results = [] ↔ Forall (λ r, Err r ≠ None) results.
Proof.
  rewrite collect_filter. induction results as [|r rs IH]; [done|].
  rewrite filter_cons, Forall_cons. destruct (decide (Err r = None)) as [He|He].
  - simpl. split; [done|]. by intros [? _].
  - rewrite IH. tauto.
Qed.

(** C4.  Once the lock is acquired, [Update] with [force = true]
    returns the error [all sources failed] exactly when every fetch
    result carries an error, which is the case for an empty source list;
    the primary artifact is then left as it was.  When some result
    carries no error and no file-system operation fails, the call
    succeeds and the primary artifact holds the encoding of the merge of
    the documents of the results without error, in source order. *)
Theorem Update_force_all_sources_failed (w w1 : World) :
  Cache.acquireLock cfg w = (None, w1) →
  CacheFile cfg ≠ LockFile cfg →
  let results := (Fetcher.FetchAll w1 (ConfigSources cfg)).1 in
  let survivors := Data <$> filter (λ r, Err r = None) results in
  ((Cache.Update cfg w true).1 = Some ErrAllSourcesFailed
   ↔ Forall (λ r, Err r ≠ None) results)
  ∧ (ConfigSources cfg = [] →
     (Cache.Update cfg w true).1 = Some ErrAllSourcesFailed)
  ∧ (Forall (λ r, Err r ≠ None) results →
     files (Cache.Update cfg w true).2 !! CacheFile cfg
     = files w !! CacheFile cfg)
  ∧ (Exists (λ r, Err r = None) results → no_faults →
     (Cache.Update cfg w true).1 = None
     ∧ ∃ mode,
         files (Cache.Update cfg w true).2 !! CacheFile cfg
         = Some {| contents := json_Encode (Merge survivors);
                   ModTime := now w + join_delay; Mode := mode |}).
Proof.
  intros Hacq Hne results survivors.
  assert (Hw1 : files w1 !! CacheFile cfg = files w !! CacheFile cfg).
  { replace w1 with (Cache.acquireLock cfg w).2 by by rewrite Hacq.
    by apply acquireLock_frame. }
  assert (Hnow : now w1 = now w).
  { replace w1 with (Cache.acquireLock cfg w).2 by by rewrite Hacq.
    apply acquireLock_now. }
  assert (Hupd : Cache.Update cfg w true
    = if decide (length (Cache.collect results) = 0%nat)
      then (Some ErrAllSourcesFailed,
            Cache.releaseLock cfg (advance w1 join_delay))
      else ((Cache.write cfg (advance w1 join_delay)
               (Merge (Cache.collect results))).1,
            Cache.releaseLock cfg
              (Cache.write cfg (advance w1 join_delay)
                 (Merge (Cache.collect results))).2)).
  { unfold Cache.Update. simpl. rewrite Hacq.
    unfold Fetcher.FetchAll, Fetcher.FetchAllWithMeta. cbn [fst snd].
    destruct (decide _); [done|]. by destruct (Cache.write _ _ _). }
  assert (Hall : Forall (λ r, Err r ≠ None) results →
    Cache.Update cfg w true
    = (Some ErrAllSourcesFailed, Cache.releaseLock cfg (advance w1 join_delay))).
  { intros Hf. rewrite Hupd. apply collect_nil in Hf. rewrite Hf.
    by rewrite decide_True. }
  split_and!.
  - split; [|by intros Hf; rewrite Hall].
    rewrite Hupd. destruct (decide _) as [Hlen|Hlen].
    + intros _. apply collect_nil. by apply nil_length_inv.
    + cbn [fst]. intros He. apply write_error in He as (? & ? & ?). done.
  - intros Hsrc. rewrite Hall; [done|]. subst results.
    unfold Fetcher.FetchAll, Fetcher.FetchAllWithMeta. rewrite Hsrc. simpl.
    constructor.
  - intros Hf. rewrite (Hall Hf). cbn [snd].
    by rewrite releaseLock_lookup.
  - intros Hex Hnf. rewrite Hupd. rewrite decide_False.
    2:{ intros Hlen. apply nil_length_inv, collect_nil in Hlen.
        apply Exists_exists in Hex as (r & Hr & He).
        by eapply Forall_forall in Hlen. }
    cbn [fst snd]. rewrite releaseLock_lookup by done.
    destruct (write_ok (advance w1 join_delay) (Merge (Cache.collect results)) Hnf)
      as (Hok & mode & Hfile).
    split; [done|]. exists mode. rewrite Hfile. simpl.
    by rewrite collect_filter, Hnow.
Qed.

Lemma Update_frame w force path :
  path ≠ LockFile cfg → path ≠ CacheFile cfg → path ≠ tmpFile cfg →
  files (Cache.Update cfg w force).2 !! path = files w !! path.
Proof.
  intros Hlock Hcache Htmp. unfold Cache.Update.
  destruct (negb force && Cache.IsValid cfg w); [done|].
  pose proof (acquireLock_frame w path Hlock) as Hacq.
  destruct (Cache.acquireLock cfg w) as [[err|] w1]; [done|].
  unfold Fetcher.FetchAll, Fetcher.FetchAllWithMeta. cbn [fst snd] in *.
  destruct (decide _).
  - cbn [snd]. by rewrite releaseLock_lookup.
  - pose proof (write_frame (advance w1 join_delay)
      (Merge (Cache.collect (imap (Fetcher.fetch_slot w1 None) (ConfigSources cfg))))
      path Htmp Hcache) as Hwr.
    destruct (Cache.write _ _ _) as [err w2]. cbn [snd] in *.
    by rewrite releaseLock_lookup, Hwr.
Qed.

Lemma loadMeta_ext w w' :
  files w' !! Cache.metaFile cfg = files w !! Cache.metaFile cfg →
  Cache.loadMeta cfg w' = Cache.loadMeta cfg w.
Proof. intros Heq. unfold Cache.loadMeta, os.ReadFile. by rewrite Heq. Qed.

(** C9, as the code has it.  [Update] never writes the metadata sidecar:
    after the call, forced or not, successful or not, the sidecar file is
    the one that was there before, and [loadMeta] reads the same
    validators from it. *)
Theorem Update_leaves_sidecar (w : World) (force : bool) :
  Cache.metaFile cfg ≠ LockFile cfg →
  Cache.metaFile cfg ≠ CacheFile cfg →
  Cache.metaFile cfg ≠ tmpFile cfg →
  files (Cache.Update cfg w force).2 !! Cache.metaFile cfg
  = files w !! Cache.metaFile cfg
  ∧ Cache.loadMeta cfg (Cache.Update cfg w force).2 = Cache.loadMeta cfg w.
Proof.
  intros Hlock Hcache Htmp.
  pose proof (Update_frame w force _ Hlock Hcache Htmp) as Hfr.
  split; [done|]. by apply loadMeta_ext.
Qed.

(** ** [Stats] and [IsValid] *)

Lemma decodeMembers_skip {A : Type} (step : A → string → json.Value → option A)
    (cur : A) (members : list (string * json.Value)) :
  Forall (λ m, step cur m.1 m.2 = Some cur) members →
  json.decodeMembers step cur members = Some cur.
Proof.
  unfold json.decodeMembers. induction 1 as [|m ms Hm _ IH]; [done|].
  simpl. by rewrite Hm.
Qed.

Lemma decodeBannerData_no_field members :
  Forall (λ m : string * json.Value,
            json.matchField BannerData_fields m.1 = None) members →
  decodeBannerData (json.Object members) = Some BannerData_zero.
Proof.
  intros Hm. unfold decodeBannerData, json.decodeStruct.
  apply decodeMembers_skip. eapply Forall_impl; [done|].
  intros m Hnone. simpl in *. by rewrite Hnone.
Qed.

Lemma Stats_decoded w f banners :
  files w !! CacheFile cfg = Some f →
  io_fault OpReadFile (CacheFile cfg) = false →
  Unmarshal_BannerData (contents f) = Some banners →
  Cache.Stats cfg w
  = {| Valid := true;
       Path := CacheFile cfg;
       Entries := Z.of_nat (size (Linux banners));
       StatsSize := os.Size f;
       AgeSeconds :=
         float64.to_int (time.Seconds (time.Since w (ModTime f)));
       StatsUpdatedAt := ModTime f |}.
Proof.
  intros Hf Hrd Hdec. unfold Cache.Stats, os.Stat, os.ReadFile.
  by rewrite Hf, Hrd, Hdec.
Qed.

(** The conversion of an age to whole seconds goes through [float64]:
    an age of 16777216.999999999 s is reported as 16777217 s, whole
    hours and short ages are exact, and a negative age is truncated
    towards zero. *)
Lemma AgeSeconds_rounding :
  float64.to_int (time.Seconds (16777216 * Second + 999999999)) = 16777217
  ∧ float64.to_int (time.Seconds (16777215 * Second + 999999999)) = 16777215
  ∧ float64.to_int (time.Seconds (1 * Hour)) = 3600
  ∧ float64.to_int (time.Seconds (1 * Hour - 1)) = 3599
  ∧ float64.to_int (time.Seconds (- 1500000000)) = -1
  ∧ float64.to_int (time.Seconds time.maxDuration) = 9223372036.
Proof. split_and!; by vm_compute. Qed.

(** C10.  When the primary artifact exists and can be read, [Stats]
    reports [valid = true] for every text that [json.Unmarshal] decodes
    into a [BannerData] without error, with [entries] the number of keys
    of the decoded map, the size and the modification time of the file,
    and the age in seconds as [int(age.Seconds())]; the decoded version
    plays no part.  In particular the JSON literal [null], an object
    none of whose keys names a field, and a document of any version [n]
    are valid, the first two with zero entries. *)
Theorem Stats_valid_when_unmarshals (w : World) (f : File) :
  files w !! CacheFile cfg = Some f →
  io_fault OpReadFile (CacheFile cfg) = false →
  (∀ banners,
     Unmarshal_BannerData (contents f) = Some banners →
     Cache.Stats cfg w
     = {| Valid := true;
          Path := CacheFile cfg;
          Entries := Z.of_nat (size (Linux banners));
          StatsSize := os.Size f;
          AgeSeconds :=
         float64.to_int (time.Seconds (time.Since w (ModTime f)));
          StatsUpdatedAt := ModTime f |})
  ∧ (json_parse (contents f) = Some json.Null →
     Valid (Cache.Stats cfg w) = true ∧ Entries (Cache.Stats cfg w) = 0)
  ∧ (∀ members,
       json_parse (contents f) = Some (json.Object members) →
       Forall (λ m : string * json.Value,
                 json.matchField BannerData_fields m.1 = None) members →
       Valid (Cache.Stats cfg w) = true ∧ Entries (Cache.Stats cfg w) = 0)
  ∧ (∀ n,
       - 2 ^ 63 ≤ n < 2 ^ 63 →
       json_parse (contents f)
       = Some (json.Object [("version", json.Int n);
                            ("linux", json.Object [])]) →
       Valid (Cache.Stats cfg w) = true ∧ Entries (Cache.Stats cfg w) = 0).
Proof.
  intros Hf Hrd. split_and!.
  - intros banners. by apply Stats_decoded.
  - intros Hp. rewrite (Stats_decoded w f BannerData_zero); [done..|].
    unfold Unmarshal_BannerData. by rewrite Hp.
  - intros members Hp Hm.
    rewrite (Stats_decoded w f BannerData_zero); [done..|].
    unfold Unmarshal_BannerData. rewrite Hp. simpl.
    by apply decodeBannerData_no_field.
  - intros n Hn Hp.
    rewrite (Stats_decoded w f {| Version := n; Linux := ∅ |}); [done..|].
    unfold Unmarshal_BannerData. rewrite Hp. simpl.
    unfold decodeBannerData, json.decodeStruct, json.decodeMembers. simpl.
    unfold json.matchField. simpl.
    case_decide; [done|lia].
Qed.

(** C3, as the code has it.  When the primary artifact exists and its
    contents do not decode, [Stats] returns the result whose only
    information is [valid = false].  [IsValid] does not read the
    contents: it returns whether the age of the file is below the TTL.
    Both are total functions: nothing but a result comes back. *)
Theorem undecodable_artifact (w : World) (f : File) :
  files w !! CacheFile cfg = Some f →
  Unmarshal_BannerData (contents f) = None →
  Cache.Stats cfg w = Stats_invalid
  ∧ Valid (Cache.Stats cfg w) = false
  ∧ Cache.IsValid cfg w = bool_decide (time.Since w (ModTime f) < TTL cfg).
Proof.
  intros Hf Hdec.
  assert (Hs : Cache.Stats cfg w = Stats_invalid).
  { unfold Cache.Stats, os.Stat, os.ReadFile. rewrite Hf.
    case_fault; [done|]. by rewrite Hdec. }
  split_and!; [done|by rewrite Hs|].
  unfold Cache.IsValid, os.Stat. by rewrite Hf.
Qed.

(** ** [fetchHTTPWithMeta] *)

Lemma Header_Set_lookup (h : http.Header) key value k :
  http.CanonicalHeaderKey key = k →
  http.Header_Set h key value !! k = Some [value].
Proof. intros <-. unfold http.Header_Set. apply lookup_insert_eq. Qed.

Lemma Header_Set_lookup_ne (h : http.Header) key value k :
  http.CanonicalHeaderKey key ≠ k →
  http.Header_Set h key value !! k = h !! k.
Proof. intros Hne. unfold http.Header_Set. by apply lookup_insert_ne. Qed.

(** C7.  The request that [fetchHTTPWithMeta] hands to the HTTP client
    for prior validators [prior] carries a non-empty entity tag as
    [If-None-Match] and a non-empty last-modified string as
    [If-Modified-Since].  That request is the one the client is asked:
    the answer of the client to it decides the result of the fetch.  An
    error of the client comes back wrapped; an answer 200 with a body
    that decodes gives the document and the validators of the answer;
    and the fetch returns no document, the validators it was given,
    [modified = false] and no error exactly when the answer to that
    request has status 304; so does [FetchWithMeta] for a source that
    is not a local path. *)
Theorem conditional_request_not_modified (w : World) (worker : nat)
    (url : string) (prior : SourceMeta) :
  (ETag prior ≠ EmptyString →
   http.ReqHeader (Fetcher.conditionalRequest url (Some prior))
     !! "If-None-Match" = Some [ETag prior])
  ∧ (LastModified prior ≠ EmptyString →
     http.ReqHeader (Fetcher.conditionalRequest url (Some prior))
       !! "If-Modified-Since" = Some [LastModified prior])
  ∧ (∀ meta resp,
       http_NewRequest url = true →
       http_Do worker (Fetcher.conditionalRequest url meta) = inr resp →
       http.StatusCode resp = 304 →
       Fetcher.fetchHTTPWithMeta w worker url meta = (None, meta, false, None)
       ∧ (isLocalPath url = false →
          Fetcher.FetchWithMeta w worker url meta = (None, meta, false, None)))
  ∧ (∀ meta,
       http_NewRequest url = true →
       (∀ err,
          http_Do worker (Fetcher.conditionalRequest url meta) = inl err →
          Fetcher.fetchHTTPWithMeta w worker url meta
          = (None, None, false, Some (fmt_Errorf "executing request" err)))
       ∧ (Fetcher.fetchHTTPWithMeta w worker url meta
          = (None, meta, false, None)
          ↔ ∃ resp,
              http_Do worker (Fetcher.conditionalRequest url meta) = inr resp
              ∧ http.StatusCode resp = http.StatusNotModified)
       ∧ (∀ resp data,
            http_Do worker (Fetcher.conditionalRequest url meta) = inr resp →
            http.StatusCode resp = http.StatusOK →
            Decode_BannerData (http.Body resp) = Some data →
            Fetcher.fetchHTTPWithMeta w worker url meta
            = (Some data,
               Some {| ETag := http.Header_Get (http.RespHeader resp) "ETag";
                       LastModified :=
                         http.Header_Get (http.RespHeader resp) "Last-Modified";
                       UpdatedAt := now w + worker_delay worker |},
               true, None))).
Proof.
  split_and!.
  - intros Hetag. unfold Fetcher.conditionalRequest. cbn [http.ReqHeader].
    rewrite (decide_True _ _ Hetag).
    destruct (decide (LastModified prior ≠ EmptyString)).
    + rewrite Header_Set_lookup_ne by (by vm_compute).
      by apply Header_Set_lookup.
    + by apply Header_Set_lookup.
  - intros Hlm. unfold Fetcher.conditionalRequest. cbn [http.ReqHeader].
    rewrite (decide_True _ _ Hlm). by apply Header_Set_lookup.
  - intros meta resp Hreq Hdo Hst.
    assert (H304 : Fetcher.fetchHTTPWithMeta w worker url meta
                   = (None, meta, false, None)).
    { unfold Fetcher.fetchHTTPWithMeta. rewrite Hreq.
      cbn [negb]. rewrite Hdo. by rewrite decide_True. }
    split; [done|]. intros Hloc. unfold Fetcher.FetchWithMeta. by rewrite Hloc.
  - intros meta Hreq. unfold Fetcher.fetchHTTPWithMeta. rewrite Hreq.
    cbn [negb]. split_and!.
    + by intros err ->.
    + destruct (http_Do worker (Fetcher.conditionalRequest url meta))
        as [err|resp].
      { split; [done|]. by intros (resp & ? & _). }
      destruct (decide (http.StatusCode resp = http.StatusNotModified))
        as [H304|Hother].
      { split; [|done]. intros _. by exists resp. }
      split.
      * destruct (decide (http.StatusCode resp ≠ http.StatusOK)); [done|].
        by destruct (Decode_BannerData (http.Body resp)).
      * intros (resp' & [= <-] & Hst). done.
    + intros resp data -> Hst Hdec.
      rewrite decide_False by (rewrite Hst; done).
      rewrite decide_False by (intros Hne; by apply Hne).
      by rewrite Hdec.
Qed.

(** ** [SmartUpdate] *)

Lemma saveMeta_frame w meta path :
  path ≠ Cache.metaFile cfg →
  files (Cache.saveMeta cfg w meta).2 !! path = files w !! path.
Proof.
  intros Hne. unfold Cache.saveMeta, os.WriteFile.
  destruct (json_MarshalIndent meta); [|done].
  case_fault; try case_written; frame_simpl; done.
Qed.

Lemma saveMeta_now w meta : now (Cache.saveMeta cfg w meta).2 = now w.
Proof.
  unfold Cache.saveMeta, os.WriteFile.
  destruct (json_MarshalIndent meta); [|done].
  case_fault; try case_written; frame_simpl; done.
Qed.


Lemma IsValid_ext w w' :
  files w' !! CacheFile cfg = files w !! CacheFile cfg → now w' = now w →
  Cache.IsValid cfg w' = Cache.IsValid cfg w.
Proof.
  intros Hf Hn. unfold Cache.IsValid, os.Stat, time.Since. by rewrite Hf, Hn.
Qed.

Lemma SmartUpdate_unfold w w1 :
  Cache.acquireLock cfg w = (None, w1) →
  Cache.SmartUpdate cfg w
  = if negb (anyModified (gathered cfg w1)) && Cache.IsValid cfg (saved cfg w1)
    then (false, None, Cache.releaseLock cfg (saved cfg w1))
    else if decide (length (datasets (gathered cfg w1)) = 0%nat)
    then (false, Some ErrAllSourcesFailed, Cache.releaseLock cfg (saved cfg w1))
    else
      match Cache.write cfg (saved cfg w1) (Merge (datasets (gathered cfg w1))) with
      | (Some err, w') => (false, Some err, Cache.releaseLock cfg w')
      | (None, w') =>
        (anyModified (gathered cfg w1), None, Cache.releaseLock cfg w')
      end.
Proof. intros Hacq. unfold Cache.SmartUpdate. by rewrite Hacq. Qed.

Lemma gather_anyModified w meta g r :
  Modified r = false → anyModified (Cache.gather cfg w meta g r) = anyModified g.
Proof.
  intros Hm. unfold Cache.gather. rewrite Hm.
  destruct (Err r); [by destruct (Sources meta !! Source r)|].
  by destruct (Cache.loadExistingBanners cfg w).
Qed.

Lemma gather_all_unmodified w meta results :
  Forall (λ r, Modified r = false) results →
  anyModified (Cache.gather_all cfg w meta results) = false.
Proof.
  intros Hall. unfold Cache.gather_all.
  assert (Hgen : ∀ g,
    anyModified (foldl (Cache.gather cfg w meta) g results) = anyModified g).
  { induction Hall as [|r rs Hr _ IH]; intros g; simpl; [done|].
    by rewrite IH, gather_anyModified. }
  by rewrite Hgen.
Qed.

(** The early return of [SmartUpdate]: nothing modified and a primary
    artifact that is fresh at the check that follows the fetch. *)
Lemma SmartUpdate_fresh_unchanged (w w1 : World) (f : File) :
  Cache.acquireLock cfg w = (None, w1) →
  CacheFile cfg ≠ LockFile cfg →
  CacheFile cfg ≠ Cache.metaFile cfg →
  Forall (λ r, Modified r = false)
    (Fetcher.FetchAllWithMeta w1 (ConfigSources cfg)
       (Some (Cache.loadMeta cfg w1))).1 →
  files w !! CacheFile cfg = Some f →
  time.Sub (now w + join_delay) (ModTime f) < TTL cfg →
  (Cache.SmartUpdate cfg w).1 = (false, None)
  ∧ files (Cache.SmartUpdate cfg w).2 !! CacheFile cfg = Some f.
Proof.
  intros Hacq Hlock Hmeta Hall Hf Hfresh.
  assert (Hw1 : files w1 !! CacheFile cfg = Some f ∧ now w1 = now w).
  { replace w1 with (Cache.acquireLock cfg w).2 by by rewrite Hacq.
    by rewrite acquireLock_frame, acquireLock_now. }
  destruct Hw1 as [Hf1 Hn1].
  assert (Hsaved : files (saved cfg w1) !! CacheFile cfg = Some f
                   ∧ now (saved cfg w1) = now w + join_delay).
  { unfold saved. rewrite saveMeta_frame, saveMeta_now by done.
    simpl. by rewrite Hf1, Hn1. }
  destruct Hsaved as [Hfs Hns].
  rewrite (SmartUpdate_unfold w w1 Hacq).
  assert (Hany : anyModified (gathered cfg w1) = false)
    by by apply gather_all_unmodified.
  rewrite Hany.
  assert (Hvalid : Cache.IsValid cfg (saved cfg w1) = true).
  { unfold Cache.IsValid, os.Stat, time.Since. rewrite Hfs, Hns.
    by apply bool_decide_eq_true. }
  rewrite Hvalid. cbn [negb andb fst snd].
  split; [done|]. by rewrite releaseLock_lookup.
Qed.

Lemma fetch_slot_Source w meta idx source :
  Source (Fetcher.fetch_slot w meta idx source) = source.
Proof.
  unfold Fetcher.fetch_slot.
  by destruct (Fetcher.FetchWithMeta _ _ _ _) as [[[? ?] ?] ?].
Qed.


Lemma gather_newMeta_other w meta g r source :
  Source r ≠ source →
  Sources (newMeta (Cache.gather cfg w meta g r)) !! source
  = Sources (newMeta g) !! source.
Proof.
  intros Hne. unfold Cache.gather.
  destruct (Err r).
  - destruct (Sources meta !! Source r); [|done].
    simpl. by rewrite lookup_insert_ne.
  - assert (Hm : Sources (match Meta r with
                          | Some m =>
                            {| Sources := <[ Source r := m ]> (Sources (newMeta g)) |}
                          | None => newMeta g
                          end) !! source = Sources (newMeta g) !! source).
    { destruct (Meta r); [|done]. simpl. by rewrite lookup_insert_ne. }
    destruct (Modified r), (Data r), (Cache.loadExistingBanners cfg w); done.
Qed.




Section failed_source.
Variables (w : World) (meta : MetaCache) (source : string) (old : SourceMeta).
Hypothesis Hold : Sources meta !! source = Some old.




End failed_source.


End CacheProperties.

(** * The program on concrete inputs *)

Section Examples.
#[local] Existing Instance Demo.runtime.

Lemma pair_eta {A B : Type} (p : A * B) (a : A) : p.1 = a → p = (a, p.2).
Proof. destruct p. simpl. by intros ->. Qed.

Lemma demo_no_faults : no_faults.
Proof. intros op path. reflexivity. Qed.

(** C5 on a lock taken thirty seconds ago, which is refused, and on a
    lock taken ten minutes ago, which is replaced. *)
Lemma lock_acquire_release_witness :
  let cfg := Demo.config [] in
  io_fault OpMkdirAll (CacheDir cfg) = false
  ∧ io_fault OpRemove (LockFile cfg) = false
  ∧ io_fault OpWriteFile (LockFile cfg) = false
  ∧ Cache.acquireLock cfg Demo.world_locked = (Some ErrLocked, Demo.world_locked)
  ∧ (Cache.acquireLock cfg Demo.world_stale_lock).1 = None
  ∧ files (Cache.acquireLock cfg Demo.world_stale_lock).2 !! LockFile cfg
    = Some {| contents := "4242"; ModTime := 100 * Hour; Mode := 420 |}
  ∧ files (Cache.releaseLock cfg Demo.world_locked) = ∅.
Proof.
  intros cfg. split_and!; [reflexivity..| | | |].
  - apply (lock_acquire_release cfg Demo.world_locked); [reflexivity..|].
    eexists. split; [reflexivity|]. by vm_compute.
  - assert (Hfree : ¬ lock_held cfg Demo.world_stale_lock).
    { intros (f & Hf & Hage). vm_compute in Hf. injection Hf as <-.
      by vm_compute in Hage. }
    destruct (lock_acquire_release cfg Demo.world_stale_lock
                (demo_no_faults _ _) (demo_no_faults _ _) (demo_no_faults _ _)) as (_ & _ & Hacq & _).
    by rewrite (Hacq Hfree).
  - assert (Hfree : ¬ lock_held cfg Demo.world_stale_lock).
    { intros (f & Hf & Hage). vm_compute in Hf. injection Hf as <-.
      by vm_compute in Hage. }
    destruct (lock_acquire_release cfg Demo.world_stale_lock
                (demo_no_faults _ _) (demo_no_faults _ _) (demo_no_faults _ _)) as (_ & _ & Hacq & _).
    rewrite (Hacq Hfree). cbn [snd set_files files].
    by rewrite lookup_insert_eq.
  - destruct (lock_acquire_release cfg Demo.world_locked
                (demo_no_faults _ _) (demo_no_faults _ _) (demo_no_faults _ _)) as (_ & _ & _ & Hrel & _).
    rewrite Hrel. apply delete_singleton_eq.
Defined.

(** C4 on the first run: with one source that answers and one that
    fails the call succeeds; with the failing source alone it returns
    the error and writes no primary artifact. *)
Lemma Update_force_all_sources_failed_witness :
  let ok := Demo.config [Demo.urlA; Demo.urlBad] in
  let bad := Demo.config [Demo.urlBad] in
  let w := Demo.world_first_run in
  (Cache.acquireLock ok w).1 = None
  ∧ CacheFile ok ≠ LockFile ok
  ∧ no_faults
  ∧ (Cache.Update ok w true).1 = None
  ∧ (Cache.Update bad w true).1 = Some ErrAllSourcesFailed
  ∧ files (Cache.Update bad w true).2 !! CacheFile bad = None.
Proof.
  intros ok bad w.
  assert (Hacq : ∀ cfg, CacheDir cfg = "/cache" → LockFile cfg = "/cache/.lock" →
    Cache.acquireLock cfg w = (None, (Cache.acquireLock cfg w).2)).
  { intros cfg Hd Hl. apply pair_eta. unfold Cache.acquireLock.
    rewrite Hd, Hl. by vm_compute. }
  split_and!; [by vm_compute|by vm_compute|apply demo_no_faults| | |].
  - destruct (Update_force_all_sources_failed ok w _ (Hacq ok eq_refl eq_refl))
      as (_ & _ & _ & Hok); [by vm_compute|].
    apply Hok; [|apply demo_no_faults].
    vm_compute. by left.
  - destruct (Update_force_all_sources_failed bad w _ (Hacq bad eq_refl eq_refl))
      as (Hiff & _); [by vm_compute|].
    apply Hiff. vm_compute. repeat constructor. done.
  - destruct (Update_force_all_sources_failed bad w _ (Hacq bad eq_refl eq_refl))
      as (_ & _ & Hkeep & _); [by vm_compute|].
    rewrite Hkeep; [done|]. vm_compute. repeat constructor. done.
Defined.

(** C9 fails on the code.  A forced update of a stale cache succeeds and
    its one source answers 200 with fresh validators, yet the sidecar
    file is the old one and still holds the old records; on a first run
    a forced update succeeds and leaves no sidecar at all. *)
Lemma Update_force_sidecar_counterexample :
  let cfg := Demo.config [Demo.urlA] in
  let w := Demo.world_stale in
  (Cache.Update cfg w true).1 = None
  ∧ Meta <$> (Fetcher.FetchAll (Cache.acquireLock cfg w).2 (ConfigSources cfg)).1
    = [Some Demo.fresh_validators]
  ∧ files (Cache.Update cfg w true).2 !! Cache.metaFile cfg
    = Some (Demo.file_at (Demo.print (Demo.MetaCache_value Demo.sidecarOld)) 0)
  ∧ Cache.loadMeta cfg (Cache.Update cfg w true).2 = Demo.sidecarOld
  ∧ Sources Demo.sidecarOld !! Demo.urlA ≠ Some Demo.fresh_validators
  ∧ (Cache.Update cfg Demo.world_first_run true).1 = None
  ∧ files (Cache.Update cfg Demo.world_first_run true).2 !! Cache.metaFile cfg
    = None.
Proof. intros cfg w. split_and!; by vm_compute. Qed.

(** C9, as the code has it, on the same forced update. *)
Lemma Update_leaves_sidecar_witness :
  let cfg := Demo.config [Demo.urlA] in
  let w := Demo.world_stale in
  Cache.metaFile cfg ≠ LockFile cfg
  ∧ Cache.metaFile cfg ≠ CacheFile cfg
  ∧ Cache.metaFile cfg ≠ tmpFile cfg
  ∧ files (Cache.Update cfg w true).2 !! Cache.metaFile cfg
    = files w !! Cache.metaFile cfg
  ∧ Cache.loadMeta cfg (Cache.Update cfg w true).2 = Cache.loadMeta cfg w.
Proof.
  intros cfg w.
  assert (H1 : Cache.metaFile cfg ≠ LockFile cfg) by by vm_compute.
  assert (H2 : Cache.metaFile cfg ≠ CacheFile cfg) by by vm_compute.
  assert (H3 : Cache.metaFile cfg ≠ tmpFile cfg) by by vm_compute.
  split_and!; [done..| |]; by apply (Update_leaves_sidecar cfg w true).
Defined.

(** C2 fails on the code.  The one source answers 304, the primary
    artifact is older than the TTL: the call returns [(false, nil)] but
    rewrites the primary artifact, whose modification time changes.
    When the primary artifact is absent, the same answer makes the call
    fail. *)
Lemma SmartUpdate_not_modified_counterexample :
  let cfg := Demo.config [Demo.urlA] in
  let w := Demo.world_stale in
  (Cache.acquireLock cfg w).1 = None
  ∧ (Fetcher.FetchAllWithMeta (Cache.acquireLock cfg w).2 (ConfigSources cfg)
       (Some (Cache.loadMeta cfg (Cache.acquireLock cfg w).2))).1
    = [ {| Source := Demo.urlA; Data := None; Meta := Some Demo.metaOld;
           Modified := false; Err := None |} ]
  ∧ (Cache.SmartUpdate cfg w).1 = (false, None)
  ∧ ModTime <$> files w !! CacheFile cfg = Some 0
  ∧ ModTime <$> files (Cache.SmartUpdate cfg w).2 !! CacheFile cfg
    = Some (100 * Hour + 2 * Second)
  ∧ (Fetcher.FetchAllWithMeta (Cache.acquireLock cfg Demo.world_cleared).2
       (ConfigSources cfg)
       (Some (Cache.loadMeta cfg (Cache.acquireLock cfg Demo.world_cleared).2))).1
    = [ {| Source := Demo.urlA; Data := None; Meta := Some Demo.metaOld;
           Modified := false; Err := None |} ]
  ∧ (Cache.SmartUpdate cfg Demo.world_cleared).1
    = (false, Some ErrAllSourcesFailed).
Proof. intros cfg w. split_and!; by vm_compute. Qed.

(** C3 fails on the code.  The primary artifact is not JSON and was
    written five seconds ago: [Stats] reports it invalid, [IsValid]
    returns true. *)
Lemma IsValid_undecodable_counterexample :
  let cfg := Demo.config [] in
  let w := Demo.world_garbage in
  (contents <$> files w !! CacheFile cfg) = Some "invalid json"
  ∧ Unmarshal_BannerData "invalid json" = None
  ∧ Valid (Cache.Stats cfg w) = false
  ∧ Cache.IsValid cfg w = true.
Proof. intros cfg w. split_and!; by vm_compute. Qed.

(** C3, as the code has it, on the same artifact. *)
Lemma undecodable_artifact_witness :
  let cfg := Demo.config [] in
  let w := Demo.world_garbage in
  let f := Demo.file_at "invalid json" (100 * Hour) in
  files w !! CacheFile cfg = Some f
  ∧ Unmarshal_BannerData (contents f) = None
  ∧ Cache.Stats cfg w = Stats_invalid
  ∧ Cache.IsValid cfg w = bool_decide (time.Since w (ModTime f) < TTL cfg).
Proof.
  intros cfg w f.
  assert (H1 : files w !! CacheFile cfg = Some f) by by vm_compute.
  assert (H2 : Unmarshal_BannerData (contents f) = None) by by vm_compute.
  split_and!; [done..| |]; by apply (undecodable_artifact cfg w f H1 H2).
Defined.


(** C7 on the upstream [urlA], which knows the entity tag [abc] and
    answers 304 to the request that carries it, and the document to the
    request without validators; and on an upstream that refuses the
    connection. *)
Lemma conditional_request_not_modified_witness :
  let req := Fetcher.conditionalRequest Demo.urlA (Some Demo.metaBoth) in
  let plain := Fetcher.conditionalRequest Demo.urlA None in
  let bad := Fetcher.conditionalRequest Demo.urlBad (Some Demo.metaBoth) in
  let answer :=
    {| http.StatusCode := 200;
       http.RespHeader := http.Header_Set ∅ "ETag" "abc";
       http.Body := Demo.print (Demo.BannerData_value Demo.docA) |} in
  ETag Demo.metaBoth ≠ EmptyString
  ∧ LastModified Demo.metaBoth ≠ EmptyString
  ∧ http_NewRequest Demo.urlA = true
  ∧ isLocalPath Demo.urlA = false
  ∧ http_Do 0 req
    = inr {| http.StatusCode := 304; http.RespHeader := ∅;
             http.Body := EmptyString |}
  ∧ http.ReqHeader req !! "If-None-Match" = Some ["abc"]
  ∧ http.ReqHeader req !! "If-Modified-Since"
    = Some ["Thu, 01 Jan 2026 00:00:00 GMT"]
  ∧ Fetcher.fetchHTTPWithMeta Demo.world_stale 0 Demo.urlA (Some Demo.metaBoth)
    = (None, Some Demo.metaBoth, false, None)
  ∧ Fetcher.FetchWithMeta Demo.world_stale 0 Demo.urlA (Some Demo.metaBoth)
    = (None, Some Demo.metaBoth, false, None)
  ∧ http_Do 0 plain = inr answer
  ∧ Decode_BannerData (http.Body answer) = Some Demo.docA
  ∧ Fetcher.fetchHTTPWithMeta Demo.world_stale 0 Demo.urlA None
    = (Some Demo.docA, Some Demo.fresh_validators, true, None)
  ∧ http_Do 0 bad = inl (ExternalError "connection refused")
  ∧ Fetcher.fetchHTTPWithMeta Demo.world_stale 0 Demo.urlBad
      (Some Demo.metaBoth)
    = (None, None, false,
       Some (fmt_Errorf "executing request"
               (ExternalError "connection refused"))).
Proof.
  intros req plain bad answer.
  assert (H1 : ETag Demo.metaBoth ≠ EmptyString) by done.
  assert (H2 : LastModified Demo.metaBoth ≠ EmptyString) by done.
  assert (H3 : isLocalPath Demo.urlA = false) by by vm_compute.
  assert (H4 : http_Do 0 req
               = inr {| http.StatusCode := 304; http.RespHeader := ∅;
                        http.Body := EmptyString |}) by by vm_compute.
  assert (H5 : http_Do 0 plain = inr answer) by by vm_compute.
  assert (H6 : Decode_BannerData (http.Body answer) = Some Demo.docA)
    by by vm_compute.
  assert (H7 : http_Do 0 bad = inl (ExternalError "connection refused"))
    by by vm_compute.
  destruct (conditional_request_not_modified Demo.world_stale 0 Demo.urlA
              Demo.metaBoth) as (Hetag & Hlm & H304 & Hsent).
  destruct (H304 (Some Demo.metaBoth) _ eq_refl H4 eq_refl) as [Hhttp Hfetch].
  destruct (Hsent None eq_refl) as (_ & _ & Hok).
  destruct (conditional_request_not_modified Demo.world_stale 0 Demo.urlBad
              Demo.metaBoth) as (_ & _ & _ & Hbad).
  destruct (Hbad (Some Demo.metaBoth) eq_refl) as (Herr & _).
  split_and!; [exact H1|exact H2|reflexivity|exact H3|exact H4| | | | |exact H5
              |exact H6| |exact H7|].
  - exact (Hetag H1).
  - exact (Hlm H2).
  - exact Hhttp.
  - exact (Hfetch H3).
  - exact (Hok answer Demo.docA H5 eq_refl H6).
  - exact (Herr _ H7).
Defined.

(** C10 on a document of version 2, on the literal [null], on the empty
    object and on a document of version 7 without banners. *)
Lemma Stats_valid_when_unmarshals_witness :
  let cfg := Demo.config [] in
  let text2 := Demo.print (Demo.BannerData_value Demo.docV2) in
  let text7 := Demo.print (Demo.BannerData_value Demo.docV7) in
  io_fault OpReadFile (CacheFile cfg) = false
  ∧ Unmarshal_BannerData text2 = Some Demo.docV2
  ∧ Version Demo.docV2 = 2
  ∧ Valid (Cache.Stats cfg (Demo.world_with text2)) = true
  ∧ Entries (Cache.Stats cfg (Demo.world_with text2)) = 1
  ∧ AgeSeconds (Cache.Stats cfg (Demo.world_with text2)) = 3600
  ∧ json_parse "null" = Some json.Null
  ∧ Valid (Cache.Stats cfg (Demo.world_with "null")) = true
  ∧ Entries (Cache.Stats cfg (Demo.world_with "null")) = 0
  ∧ json_parse "{}" = Some (json.Object [])
  ∧ Valid (Cache.Stats cfg (Demo.world_with "{}")) = true
  ∧ Entries (Cache.Stats cfg (Demo.world_with "{}")) = 0
  ∧ Valid (Cache.Stats cfg (Demo.world_with text7)) = true.
Proof.
  intros cfg text2 text7.
  assert (Hfile : ∀ text,
    files (Demo.world_with text) !! CacheFile cfg = Some (Demo.file_at text 0)).
  { intros text. apply lookup_singleton_eq. }
  assert (Hrd : io_fault OpReadFile (CacheFile cfg) = false) by reflexivity.
  assert (H2 : Unmarshal_BannerData text2 = Some Demo.docV2) by by vm_compute.
  assert (Hnull : json_parse "null" = Some json.Null) by by vm_compute.
  assert (Hobj : json_parse "{}" = Some (json.Object [])) by by vm_compute.
  assert (H7 : json_parse text7
               = Some (json.Object [("version", json.Int 7);
                                    ("linux", json.Object [])]))
    by by vm_compute.
  destruct (Stats_valid_when_unmarshals cfg _ _ (Hfile text2) Hrd)
    as (Hany & _).
  destruct (Stats_valid_when_unmarshals cfg _ _ (Hfile "null") Hrd)
    as (_ & Hn & _).
  destruct (Stats_valid_when_unmarshals cfg _ _ (Hfile "{}") Hrd)
    as (_ & _ & Ho & _).
  destruct (Stats_valid_when_unmarshals cfg _ _ (Hfile text7) Hrd)
    as (_ & _ & _ & Hv).
  split_and!; [exact Hrd|exact H2|reflexivity| | | |exact Hnull| | |exact Hobj| | |].
  - by rewrite (Hany _ H2).
  - rewrite (Hany _ H2). by vm_compute.
  - rewrite (Hany _ H2). by vm_compute.
  - exact (proj1 (Hn Hnull)).
  - exact (proj2 (Hn Hnull)).
  - exact (proj1 (Ho _ Hobj (Forall_nil_2 _))).
  - exact (proj2 (Ho _ Hobj (Forall_nil_2 _))).
  - assert (Hrange : - 2 ^ 63 ≤ 7 < 2 ^ 63) by (by vm_compute).
    exact (proj1 (Hv 7 Hrange H7)).
Defined.

End Examples.

(** * Further properties of the merge *)

Section MoreMergeProperties.

Lemma contributions_app k ds1 ds2 :
  contributions k (ds1 ++ ds2) = contributions k ds1 ++ contributions k ds2.
Proof. unfold contributions. apply omap_app. Qed.

Lemma first_seen_concat_cons_l (l : list string) (ls : list (list string)) :
  first_seen (concat (first_seen l :: ls)) = first_seen (concat (l :: ls)).
Proof. simpl. apply first_seen_app_l. Qed.

(** X1.  A merged document can be merged again in place of the inputs
    it came from: merging the merge of [datasets1] followed by
    [datasets2] gives the same document as merging all the inputs at
    once, and merging a merged document alone gives it back ([Merge] is
    idempotent on its own outputs). *)
Theorem Merge_flatten (datasets1 datasets2 : list (option BannerData)) :
  Merge (Some (Merge datasets1) :: datasets2) = Merge (datasets1 ++ datasets2)
  ∧ Merge [Some (Merge datasets1)] = Merge datasets1.
Proof.
  assert (Hgen : ∀ ds2, Merge (Some (Merge datasets1) :: ds2)
                        = Merge (datasets1 ++ ds2)).
  { intros ds2. apply BannerData_eq; [done|]. apply map_eq. intros k.
    rewrite !Merge_lookup, contributions_cons, contributions_app.
    change (Some (Merge datasets1) ≫= (λ d, Linux d !! k))
      with (Linux (Merge datasets1) !! k).
    rewrite Merge_lookup.
    destruct (contributions k datasets1) as [|l ls]; [done|].
    transitivity (Some (first_seen (concat ((l :: ls) ++ contributions k ds2))));
      [|done].
    f_equal. rewrite concat_app, concat_cons. apply first_seen_app_l. }
  split; [apply Hgen|]. rewrite Hgen. by rewrite app_nil_r.
Qed.

Lemma filter_drops_all (P : string → Prop) `{∀ x, Decision (P x)}
    (l : list string) :
  (∀ x, x ∈ l → ¬ P x) → filter P l = [].
Proof.
  induction l as [|x l IH]; intros HP; [done|].
  rewrite filter_cons, decide_False by (apply HP; left).
  apply IH. intros y Hy. apply HP. by right.
Qed.

Lemma first_seen_absorb (l1 u l2 : list string) :
  (∀ x, x ∈ u → x ∈ l1) →
  first_seen (l1 ++ u ++ l2) = first_seen (l1 ++ l2).
Proof.
  intros Hsub. rewrite !first_seen_app. f_equal.
  rewrite filter_app, filter_drops_all.
  - simpl. apply list_filter_filter_l. intros x Hx Hu. by apply Hx, Hsub.
  - intros x Hx Hn. apply Hn, Hsub. by apply first_seen_elem_of.
Qed.

Lemma elem_of_concat (x : string) (ls : list (list string)) :
  x ∈ concat ls ↔ ∃ l, x ∈ l ∧ l ∈ ls.
Proof.
  induction ls as [|l ls IH]; simpl.
  - split; [by intros ?%elem_of_nil|]. by intros (l & _ & ?%elem_of_nil).
  - rewrite elem_of_app, IH. split.
    + intros [Hx|(l' & Hx & Hl')]; [exists l; split; [done|by left]|].
      exists l'. split; [done|by right].
    + intros (l' & Hx & [->|Hl']%elem_of_cons); [by left|]. right. eauto.
Qed.

Lemma Merge_absorb (datasets1 datasets2 : list (option BannerData))
    (data : option BannerData) :
  data ∈ datasets1 →
  Merge (datasets1 ++ data :: datasets2) = Merge (datasets1 ++ datasets2).
Proof.
  intros Hin. apply BannerData_eq; [done|]. apply map_eq. intros k.
  rewrite !Merge_lookup, !contributions_app, contributions_cons.
  destruct (data ≫= _) as [u|] eqn:Hu; [|done].
  assert (Hc : u ∈ contributions k datasets1).
  { apply list_elem_of_omap. eauto. }
  destruct (contributions k datasets1) as [|l ls] eqn:Hc1;
    [by apply elem_of_nil in Hc|].
  transitivity (Some (first_seen
    (concat ((l :: ls) ++ u :: contributions k datasets2)))); [done|].
  transitivity (Some (first_seen
    (concat ((l :: ls) ++ contributions k datasets2)))); [|done].
  f_equal. rewrite !concat_app, concat_cons.
  apply first_seen_absorb. intros x Hx.
  apply (elem_of_concat x (l :: ls)). eauto.
Qed.

Lemma Merge_replicate (n : nat) (data : option BannerData) :
  Merge (replicate (S n) data) = Merge [data].
Proof.
  induction n as [|n IH]; [done|]. rewrite <- IH.
  apply (Merge_absorb [data] (replicate n data)). by left.
Qed.

(** X2.  An input that already occurs earlier in the list adds
    nothing: [appendUnique] skips every URL it brings.  In particular
    merging any number of copies of one input is merging it once. *)
Theorem Merge_repeated_input (datasets1 datasets2 : list (option BannerData))
    (data : option BannerData) (n : nat) :
  data ∈ datasets1 →
  Merge (datasets1 ++ data :: datasets2) = Merge (datasets1 ++ datasets2)
  ∧ Merge (replicate (S n) data) = Merge [data].
Proof. intros Hin. split; [by apply Merge_absorb|apply Merge_replicate]. Qed.

Lemma first_seen_fmap_id (m : gmap string (list string)) :
  map_Forall (λ _ urls, NoDup urls) m → first_seen <$> m = m.
Proof.
  intros Hnd. apply map_eq. intros k. rewrite lookup_fmap.
  destruct (m !! k) as [urls|] eqn:Hk; [|done]. simpl. f_equal.
  apply first_seen_NoDup_id. by eapply Hnd.
Qed.

(** X3.  Merging a single document removes the repeated URLs inside
    each of its lists, keeps the first occurrences, and sets the version
    to 1 whatever the version of the input was; a document whose lists
    have no repetition comes back with the same banner map.  Merging no
    document, or a nil one, gives the empty map. *)
Theorem Merge_single (d : BannerData) :
  Linux (Merge [Some d]) = first_seen <$> Linux d
  ∧ Version (Merge [Some d]) = 1
  ∧ (map_Forall (λ _ urls, NoDup urls) (Linux d) →
     Linux (Merge [Some d]) = Linux d)
  ∧ Linux (Merge []) = ∅
  ∧ Linux (Merge [None]) = ∅.
Proof.
  assert (H1 : Linux (Merge [Some d]) = first_seen <$> Linux d).
  { apply map_eq. intros k. rewrite Merge_lookup, lookup_fmap.
    unfold contributions. simpl.
    destruct (Linux d !! k); simpl; [|done]. by rewrite app_nil_r. }
  split_and!; [done|done| |done|done].
  intros Hnd. rewrite H1. by apply first_seen_fmap_id.
Qed.

End MoreMergeProperties.

(** * Texts: prefixes, substrings and the substring test of package cache *)

Section StringProperties.

Lemma string_app_cons (x : ascii) (a b : string) :
  String x a +:+ b = String x (a +:+ b).
Proof. reflexivity. Qed.

Lemma string_app_assoc (a b c : string) : (a +:+ b) +:+ c = a +:+ (b +:+ c).
Proof.
  induction a as [|x a IH]; [done|]. by rewrite !string_app_cons, IH.
Qed.

Lemma string_app_nil_r (a : string) : a +:+ EmptyString = a.
Proof. induction a as [|x a IH]; [done|]. by rewrite string_app_cons, IH. Qed.

Lemma substring_0_app (sub post : string) :
  String.substring 0 (String.length sub) (sub +:+ post) = sub.
Proof.
  induction sub as [|c sub IH]; simpl; [by destruct post|]. by rewrite IH.
Qed.

Lemma substring_at (pre sub post : string) :
  String.substring (String.length pre) (String.length sub)
    (pre +:+ sub +:+ post) = sub.
Proof.
  induction pre as [|c pre IH]; [apply (substring_0_app sub post)|].
  rewrite string_app_cons. simpl. apply IH.
Qed.

Lemma substring_0_inv (n : nat) (s sub : string) :
  String.substring 0 n s = sub → String.length sub = n →
  ∃ post, s = sub +:+ post.
Proof.
  revert s sub. induction n as [|n IH]; intros s sub Hs Hl.
  - destruct sub; [|done]. by exists s.
  - destruct s as [|c s]; simpl in Hs.
    + subst sub. done.
    + destruct sub as [|c' sub]; [done|]. injection Hs as -> Hs.
      simpl in Hl. injection Hl as Hl.
      destruct (IH s sub Hs Hl) as [post ->]. by exists post.
Qed.

Lemma substring_inv (i n : nat) (s sub : string) :
  String.substring i n s = sub → String.length sub = n →
  (i + n ≤ String.length s)%nat →
  ∃ pre post, s = pre +:+ sub +:+ post ∧ String.length pre = i.
Proof.
  revert s. induction i as [|i IH]; intros s Hs Hl Hlen.
  - destruct (substring_0_inv n s sub) as [post ->]; [by destruct n, s|done|].
    by exists EmptyString, post.
  - destruct s as [|c s]; [simpl in Hlen; lia|].
    simpl in Hs, Hlen.
    destruct (IH s) as (pre & post & -> & Hp); [done|done|lia|].
    exists (String c pre), post. simpl. by rewrite Hp.
Qed.

Lemma containsImpl_loop_spec (steps i : nat) (s substr : string) :
  containsImpl_loop steps i s substr = true
  ↔ ∃ j, (i ≤ j < i + steps)%nat
         ∧ String.substring j (String.length substr) s = substr.
Proof.
  revert i. induction steps as [|steps IH]; intros i; simpl.
  - split; [done|]. intros (j & ? & _). lia.
  - destruct (String.eqb _ substr) eqn:Heq.
    + apply String.eqb_eq in Heq. split; [|done]. intros _. exists i.
      split; [lia|done].
    + apply String.eqb_neq in Heq. rewrite IH. split.
      * intros (j & ? & ?). exists j. split; [lia|done].
      * intros (j & ? & Hj). exists j. split; [|done].
        destruct (decide (j = i)) as [->|]; [done|lia].
Qed.

Lemma prefix_app (p s : string) :
  String.prefix p s = true ↔ ∃ post, s = p +:+ post.
Proof.
  revert p. induction s as [|c' s IH]; intros [|c p]; simpl.
  - split; [by exists EmptyString|done].
  - split; [done|by intros [? ?]].
  - split; [|done]. intros _. by eexists.
  - destruct (Ascii.ascii_dec c c') as [->|Hne].
    + rewrite IH. split; intros [post Hp]; exists post; [by rewrite Hp|].
      by injection Hp.
    + split; [done|]. intros [post Hp]. by injection Hp as -> _.
Qed.

Lemma Contains_app (s substr : string) :
  strings.Contains s substr = true
  ↔ ∃ pre post, s = pre +:+ substr +:+ post.
Proof.
  induction s as [|c s IH].
  - change (strings.Contains EmptyString substr)
      with (String.prefix substr EmptyString || false).
    rewrite orb_false_r, prefix_app. split.
    + intros [post ->]. by exists EmptyString, post.
    + intros ([|? pre] & post & Hs); [eauto|done].
  - change (strings.Contains (String c s) substr)
      with (String.prefix substr (String c s) || strings.Contains s substr).
    rewrite orb_true_iff, IH, prefix_app. split.
    + intros [[post Hs]|(pre & post & ->)].
      * by exists EmptyString, post.
      * by exists (String c pre), post.
    + intros ([|c' pre] & post & Hs).
      * left. eauto.
      * right. injection Hs as -> ->. eauto.
Qed.

Lemma substring_whole (s : string) :
  String.substring 0 (String.length s) s = s.
Proof.
  rewrite <- (string_app_nil_r s) at 2. apply substring_0_app.
Qed.

Lemma substring_drop (p s : string) :
  String.substring (String.length p)
    (String.length (p +:+ s) - String.length p) (p +:+ s) = s.
Proof.
  induction p as [|c p IH].
  - change (EmptyString +:+ s) with s. simpl. rewrite Nat.sub_0_r.
    apply substring_whole.
  - rewrite string_app_cons. simpl. apply IH.
Qed.

Lemma TrimPrefix_app (p s : string) : strings.TrimPrefix (p +:+ s) p = s.
Proof.
  unfold strings.TrimPrefix, strings.HasPrefix.
  replace (String.prefix p (p +:+ s)) with true.
  - apply substring_drop.
  - symmetry. apply prefix_app. by exists s.
Qed.

Lemma TrimPrefix_none (s p : string) :
  strings.HasPrefix s p = false → strings.TrimPrefix s p = s.
Proof. intros Hp. unfold strings.TrimPrefix. by rewrite Hp. Qed.

Lemma HasPrefix_app (p s : string) : strings.HasPrefix (p +:+ s) p = true.
Proof. apply prefix_app. by exists s. Qed.

Lemma contains_spec (s substr : string) :
  contains s substr = true ↔ ∃ pre post, s = pre +:+ substr +:+ post.
Proof.
  unfold contains, containsImpl. split.
  - intros [Hlen Hfound]%andb_true_iff. apply bool_decide_eq_true in Hlen.
    apply orb_true_iff in Hfound as [Heq|[_ Hloop]%andb_true_iff].
    + apply String.eqb_eq in Heq as ->. exists EmptyString, EmptyString.
      simpl. by rewrite string_app_nil_r.
    + apply containsImpl_loop_spec in Hloop as (j & Hj & Hsub).
      destruct (substring_inv j _ s substr Hsub eq_refl) as (pre & post & ? & _);
        [lia|eauto].
  - intros (pre & post & ->).
    assert (Hlen : String.length (pre +:+ substr +:+ post)
                   = (String.length pre + (String.length substr
                                           + String.length post))%nat)
      by by rewrite !string_length_app.
    apply andb_true_iff. split; [apply bool_decide_eq_true; lia|].
    destruct (String.eqb (pre +:+ substr +:+ post) substr) eqn:Heq; [done|].
    simpl. apply andb_true_iff. split.
    + apply bool_decide_eq_true. apply String.eqb_neq in Heq.
      destruct pre, substr, post; simpl in *; try lia; done.
    + apply containsImpl_loop_spec. exists (String.length pre).
      split; [lia|]. apply substring_at.
Qed.

(** X4.  The hand-written substring test of package cache is exact:
    [contains s substr] holds precisely when [substr] occurs in [s],
    that is when [s] is some text, then [substr], then some text. *)
Theorem contains_correct (s substr : string) :
  contains s substr = true ↔ ∃ pre post, s = pre +:+ substr +:+ post.
Proof. apply contains_spec. Qed.

(** X5.  [isLocalPath] sends a source to the HTTP client exactly when it
    has a scheme separator and starts neither with the file scheme, nor
    with a slash, nor with a tilde.  So every text that starts with the
    file scheme, a slash or a tilde is read as a local file, a text
    without scheme separator (the empty text too) is a local file, and
    the http and https URLs are remote. *)
Theorem isLocalPath_dispatch (source rest : string) :
  (isLocalPath source = false
   ↔ strings.HasPrefix source "file://" = false
     ∧ strings.HasPrefix source "/" = false
     ∧ strings.HasPrefix source "~" = false
     ∧ ∃ pre post, source = pre +:+ "://" +:+ post)
  ∧ isLocalPath ("file://" +:+ rest) = true
  ∧ isLocalPath ("/" +:+ rest) = true
  ∧ isLocalPath ("~" +:+ rest) = true
  ∧ isLocalPath ("http://" +:+ rest) = false
  ∧ isLocalPath ("https://" +:+ rest) = false
  ∧ isLocalPath EmptyString = true.
Proof.
  assert (Hremote : ∀ scheme,
    strings.HasPrefix (scheme +:+ "://" +:+ rest) "file://" = false →
    strings.HasPrefix (scheme +:+ "://" +:+ rest) "/" = false →
    strings.HasPrefix (scheme +:+ "://" +:+ rest) "~" = false →
    isLocalPath (scheme +:+ "://" +:+ rest) = false).
  { intros scheme H1 H2 H3. unfold isLocalPath. rewrite H1, H2, H3.
    replace (strings.Contains (scheme +:+ "://" +:+ rest) "://") with true;
      [done|].
    symmetry. apply Contains_app. by exists scheme, rest. }
  split_and!.
  - unfold isLocalPath. rewrite <- Contains_app.
    destruct (strings.HasPrefix source "file://"),
      (strings.HasPrefix source "/"), (strings.HasPrefix source "~"),
      (strings.Contains source "://"); naive_solver.
  - unfold isLocalPath. by rewrite HasPrefix_app.
  - unfold isLocalPath. rewrite (HasPrefix_app "/" rest).
    by destruct (strings.HasPrefix ("/" +:+ rest) "file://").
  - unfold isLocalPath. rewrite (HasPrefix_app "~" rest).
    by destruct (strings.HasPrefix ("~" +:+ rest) "file://"),
      (strings.HasPrefix ("~" +:+ rest) "/").
  - apply (Hremote "http"); reflexivity.
  - apply (Hremote "https"); reflexivity.
  - reflexivity.
Qed.
End StringProperties.

(** * Further properties of the fetcher *)

Section FetcherProperties.
Context `{Runtime}.

Lemma imap_fetch_slot_Source w meta (sources : list string) n :
  Source <$> imap (λ i, Fetcher.fetch_slot w meta (n + i)) sources = sources.
Proof.
  revert n. induction sources as [|s ss IH]; intros n; [done|].
  simpl. rewrite fetch_slot_Source. f_equal.
  rewrite <- (IH (S n)) at 2. f_equal. apply imap_ext. intros i x _. simpl.
  by rewrite Nat.add_succ_r.
Qed.

(** X6.  [FetchAllWithMeta] returns one result per source, in the order
    of the sources: the result in slot [i] is the one the goroutine of
    the source in position [i] computed, and carries that source as its
    name.  The fetch leaves every file as it was, and no source gives no
    result. *)
Theorem FetchAllWithMeta_in_order (w : World) (sources : list string)
    (meta : option MetaCache) :
  Source <$> (Fetcher.FetchAllWithMeta w sources meta).1 = sources
  ∧ length (Fetcher.FetchAllWithMeta w sources meta).1 = length sources
  ∧ (∀ i, (Fetcher.FetchAllWithMeta w sources meta).1 !! i
          = Fetcher.fetch_slot w meta i <$> sources !! i)
  ∧ files (Fetcher.FetchAllWithMeta w sources meta).2 = files w
  ∧ (Fetcher.FetchAllWithMeta w [] meta).1 = [].
Proof.
  unfold Fetcher.FetchAllWithMeta. cbn [fst snd]. split_and!.
  - apply (imap_fetch_slot_Source w meta sources 0).
  - apply length_imap.
  - intros i. apply list_lookup_imap.
  - done.
  - done.
Qed.

(** X7.  A fetch ends in one of three ways, and in no other: an error,
    with no document, no validators and the modified flag down; a
    document together with validators and the modified flag up; or, for
    a remote source only, no document, the validators of the caller and
    the modified flag down (the 304 answer).  A document never comes
    with an error, and the modified flag is up exactly when a document
    is returned. *)
Theorem FetchWithMeta_shape (w : World) (worker : nat) (source : string)
    (meta : option SourceMeta) :
  (∃ err, Fetcher.FetchWithMeta w worker source meta
          = (None, None, false, Some err))
  ∨ (∃ data newMeta,
       Fetcher.FetchWithMeta w worker source meta
       = (Some data, Some newMeta, true, None))
  ∨ (Fetcher.FetchWithMeta w worker source meta = (None, meta, false, None)
     ∧ isLocalPath source = false).
Proof.
  unfold Fetcher.FetchWithMeta.
  destruct (isLocalPath source) eqn:Hloc.
  - destruct (Fetcher.fetchLocal w source); eauto.
  - unfold Fetcher.fetchHTTPWithMeta.
    destruct (http_NewRequest source); cbn [negb]; [|eauto].
    destruct (http_Do worker _) as [err|resp]; [eauto|].
    destruct (decide _); [eauto|].
    destruct (decide _); [eauto|].
    destruct (Decode_BannerData _); eauto.
Qed.

(** X8.  For a local source the prior validators are ignored: the
    fetch gives the same result with or without them, and it is either
    an error or the document of the file, reported as modified, with
    validators that hold no entity tag and no last-modified text.  A
    local source is thus never reported as not modified. *)
Theorem FetchWithMeta_local (w : World) (worker : nat) (source : string)
    (meta : option SourceMeta) :
  isLocalPath source = true →
  Fetcher.FetchWithMeta w worker source meta
  = Fetcher.FetchWithMeta w worker source None
  ∧ ((∃ err, Fetcher.FetchWithMeta w worker source meta
             = (None, None, false, Some err))
     ∨ (∃ data,
          Fetcher.FetchWithMeta w worker source meta
          = (Some data,
             Some {| ETag := EmptyString; LastModified := EmptyString;
                     UpdatedAt := now w + worker_delay worker |},
             true, None))).
Proof.
  intros Hloc. unfold Fetcher.FetchWithMeta. rewrite Hloc.
  split; [done|]. destruct (Fetcher.fetchLocal w source); eauto.
Qed.



(** X9.  [fetchLocal] reads the same file for a bare path and for
    that path behind the file scheme, and it expands a leading tilde to
    the home directory, behind the file scheme too. *)
Theorem fetchLocal_path_forms (w : World) (path home rest : string) :
  strings.HasPrefix path "file://" = false →
  os_UserHomeDir = Some home →
  strings.HasPrefix (filepath_Join home rest) "file://" = false →
  strings.HasPrefix (filepath_Join home rest) "~" = false →
  Fetcher.fetchLocal w ("file://" +:+ path) = Fetcher.fetchLocal w path
  ∧ Fetcher.fetchLocal w ("~" +:+ rest)
    = Fetcher.fetchLocal w (filepath_Join home rest)
  ∧ Fetcher.fetchLocal w ("file://~" +:+ rest)
    = Fetcher.fetchLocal w (filepath_Join home rest).
Proof.
  intros Hp Hhome Hj1 Hj2.
  assert (Htilde : Fetcher.fetchLocal w ("~" +:+ rest)
                   = Fetcher.fetchLocal w (filepath_Join home rest)).
  { unfold Fetcher.fetchLocal.
    rewrite (TrimPrefix_none (filepath_Join home rest)) by done.
    rewrite (TrimPrefix_none ("~" +:+ rest)) by done.
    rewrite Hj2, HasPrefix_app, Hhome.
    pose proof (substring_drop "~" rest) as Hd.
    change (String.length "~") with 1%nat in Hd. by rewrite Hd. }
  split_and!; [|done|].
  - unfold Fetcher.fetchLocal. rewrite TrimPrefix_app.
    by rewrite (TrimPrefix_none path).
  - rewrite <- Htilde. unfold Fetcher.fetchLocal.
    change ("file://~" +:+ rest) with ("file://" +:+ ("~" +:+ rest)).
    rewrite TrimPrefix_app.
    by rewrite (TrimPrefix_none ("~" +:+ rest)).
Qed.
End FetcherProperties.

(** * Further properties of the cache controller *)

Section MoreCacheProperties.
Context `{Runtime}.
Variable cfg : Config.

Ltac fault_cases :=
  match goal with
  | |- context [io_fault ?op ?p] => destruct (io_fault op p) eqn:?
  end; cbn [fst snd].

Ltac frame :=
  cbn [fst snd files now set_files];
  repeat first
    [ rewrite Remove_lookup by done
    | rewrite Remove_now
    | rewrite put_now
    | rewrite put_lookup_ne by done
    | rewrite lookup_insert_ne by done
    | rewrite lookup_delete_ne by done ].

Ltac open_write :=
  unfold Cache.write, os.MkdirAll, os.OpenFile, os.Write, os.Sync, os.Close,
    os.Rename;
  fold (tmpFile cfg); cbn [fst snd].

(** X10.  [Stats] reports a valid cache exactly when the primary
    artifact exists, can be read, and its bytes unmarshal into a
    document; in every other case it returns the zero statistics with
    [Valid] false, never an error. *)
Theorem Stats_valid_iff (w : World) :
  (Valid (Cache.Stats cfg w) = true
   ↔ ∃ f banners,
       files w !! CacheFile cfg = Some f
       ∧ io_fault OpReadFile (CacheFile cfg) = false
       ∧ Unmarshal_BannerData (contents f) = Some banners)
  ∧ (Valid (Cache.Stats cfg w) = true ∨ Cache.Stats cfg w = Stats_invalid).
Proof.
  unfold Cache.Stats, os.Stat, os.ReadFile.
  destruct (files w !! CacheFile cfg) as [f|] eqn:Hf.
  - destruct (io_fault OpReadFile (CacheFile cfg)) eqn:Hrd.
    + split; [|by right]. split; [done|]. by intros (? & ? & _ & ? & _).
    + destruct (Unmarshal_BannerData (contents f)) as [b|] eqn:Hd.
      * split; [|by left]. split; [|done]. intros _. by exists f, b.
      * split; [|by right]. split; [done|].
        intros (f' & b & [= <-] & _ & Hb). by rewrite Hd in Hb.
  - split; [|by right]. split; [done|]. by intros (? & ? & ? & _).
Qed.

(** X11.  [Path] and [URI] succeed exactly when the primary artifact
    exists, whatever it holds and however old it is; they then give the
    configured path, and that path behind the file scheme.  When the
    artifact is absent both give the empty text and false.  A valid
    cache always has a URI. *)
Theorem Path_URI_exists (w : World) :
  ((Cache.Path cfg w).2 = true ↔ is_Some (files w !! CacheFile cfg))
  ∧ Cache.Path cfg w
    = (if (Cache.Path cfg w).2 then CacheFile cfg else EmptyString,
       (Cache.Path cfg w).2)
  ∧ Cache.URI cfg w
    = (if (Cache.Path cfg w).2 then "file://" +:+ CacheFile cfg
       else EmptyString,
       (Cache.Path cfg w).2)
  ∧ (Cache.IsValid cfg w = true → (Cache.URI cfg w).2 = true).
Proof.
  unfold Cache.URI, Cache.Path, Cache.IsValid, os.Stat.
  destruct (files w !! CacheFile cfg) as [f|]; cbn [fst snd negb];
    split_and!; try done.
Qed.

Lemma Clear_cases w :
  Cache.Clear cfg w
  = match files w !! CacheFile cfg with
    | None => (None, w)
    | Some _ =>
      if io_fault OpRemove (CacheFile cfg)
      then (Some (fmt_Errorf "removing cache"
                    (PathError OpRemove (CacheFile cfg))), w)
      else (None, set_files w (delete (CacheFile cfg) (files w)))
    end.
Proof.
  unfold Cache.Clear, os.Remove.
  destruct (files w !! CacheFile cfg); [|done].
  by destruct (io_fault OpRemove (CacheFile cfg)).
Qed.

(** X12.  When removing the primary artifact does not fail, [Clear]
    returns no error and afterwards the artifact is absent, every other
    file and the clock being as before; a second [Clear] is then a
    no-op without error, and the cache is invalid, has the zero
    statistics and has no URI. *)
Theorem Clear_removes_primary (w : World) :
  io_fault OpRemove (CacheFile cfg) = false →
  (Cache.Clear cfg w).1 = None
  ∧ files (Cache.Clear cfg w).2 = delete (CacheFile cfg) (files w)
  ∧ now (Cache.Clear cfg w).2 = now w
  ∧ Cache.Clear cfg (Cache.Clear cfg w).2 = (None, (Cache.Clear cfg w).2)
  ∧ Cache.IsValid cfg (Cache.Clear cfg w).2 = false
  ∧ Cache.Stats cfg (Cache.Clear cfg w).2 = Stats_invalid
  ∧ Cache.URI cfg (Cache.Clear cfg w).2 = (EmptyString, false).
Proof.
  intros Hrm.
  assert (Hfiles : files (Cache.Clear cfg w).2 = delete (CacheFile cfg) (files w)).
  { rewrite Clear_cases, Hrm.
    destruct (files w !! CacheFile cfg) eqn:Hf; [done|].
    simpl. symmetry. by apply delete_id. }
  assert (Hgone : files (Cache.Clear cfg w).2 !! CacheFile cfg = None).
  { rewrite Hfiles. apply lookup_delete_eq. }
  split_and!.
  - rewrite Clear_cases, Hrm. by destruct (files w !! CacheFile cfg).
  - done.
  - rewrite Clear_cases, Hrm. by destruct (files w !! CacheFile cfg).
  - rewrite (Clear_cases (Cache.Clear cfg w).2). by rewrite Hgone.
  - unfold Cache.IsValid, os.Stat. by rewrite Hgone.
  - unfold Cache.Stats, os.Stat. by rewrite Hgone.
  - unfold Cache.URI, Cache.Path, os.Stat. by rewrite Hgone.
Qed.

(** X13.  [Clear] on an absent primary artifact is a no-op that
    returns no error; [Clear] never touches a file other than the
    primary artifact (the sidecar and the lock stay); and a [Clear] that
    returns an error has changed nothing. *)
Theorem Clear_frame (w : World) :
  (files w !! CacheFile cfg = None → Cache.Clear cfg w = (None, w))
  ∧ (∀ path, path ≠ CacheFile cfg →
       files (Cache.Clear cfg w).2 !! path = files w !! path)
  ∧ ((Cache.Clear cfg w).1 ≠ None → (Cache.Clear cfg w).2 = w).
Proof.
  rewrite Clear_cases. split_and!.
  - by intros ->.
  - intros path Hne. destruct (files w !! CacheFile cfg); [|done].
    destruct (io_fault _ _); [done|]. simpl. by rewrite lookup_delete_ne.
  - destruct (files w !! CacheFile cfg); [|done].
    by destruct (io_fault _ _).
Qed.

(** X14.  [Ensure] is [Update] without force; on a valid cache both
    return at once, with no error, having fetched and changed
    nothing. *)
Theorem Ensure_is_Update (w : World) :
  Cache.Ensure cfg w = Cache.Update cfg w false
  ∧ (Cache.IsValid cfg w = true → Cache.Ensure cfg w = (None, w))
  ∧ (Cache.IsValid cfg w = true → Cache.Update cfg w false = (None, w)).
Proof.
  unfold Cache.Ensure, Cache.Update. cbn [negb andb].
  destruct (Cache.IsValid cfg w); by split_and!.
Qed.

Lemma write_success w d :
  (Cache.write cfg w d).1 = None →
  files (Cache.write cfg w d).2 !! tmpFile cfg = None
  ∧ ∃ mode, files (Cache.write cfg w d).2 !! CacheFile cfg
      = Some {| contents := json_Encode d; ModTime := now w; Mode := mode |}.
Proof.
  pose proof tmpFile_ne cfg as Hne. open_write.
  do 5 (fault_cases; try done).
  rewrite put_lookup_eq. fault_cases; [done|]. intros _.
  cbn [files set_files]. split.
  - rewrite lookup_insert_ne, lookup_delete_eq by done. done.
  - rewrite lookup_insert_eq. eauto.
Qed.

Lemma write_failure w d :
  (Cache.write cfg w d).1 ≠ None →
  files (Cache.write cfg w d).2 !! CacheFile cfg = files w !! CacheFile cfg.
Proof.
  pose proof tmpFile_ne cfg as Hne.
  assert (Hne' : CacheFile cfg ≠ tmpFile cfg) by done.
  open_write.
  destruct (io_written (tmpFile cfg));
    (do 5 (fault_cases; frame; try done);
     rewrite put_lookup_eq; fault_cases; frame; done).
Qed.

Lemma write_failure_tmp w d :
  io_fault OpMkdirAll (CacheDir cfg) = false →
  io_fault OpOpenFile (tmpFile cfg) = false →
  io_fault OpRemove (tmpFile cfg) = false →
  (Cache.write cfg w d).1 ≠ None →
  files (Cache.write cfg w d).2 !! tmpFile cfg = None.
Proof.
  intros Hmk Hop Hrm. open_write. rewrite Hmk, Hop. cbn [fst snd].
  assert (Hgone : ∀ w', is_Some (files w' !! tmpFile cfg) →
    files (os.Remove w' (tmpFile cfg)).2 !! tmpFile cfg = None).
  { intros w' [f Hf]. unfold os.Remove. rewrite Hf, Hrm. simpl.
    apply lookup_delete_eq. }
  destruct (io_written (tmpFile cfg));
    (do 3 (fault_cases;
           [intros _; apply Hgone; rewrite ?put_lookup_eq; by eexists|]);
     rewrite put_lookup_eq; fault_cases; [|done];
     intros _; apply Hgone; rewrite put_lookup_eq; by eexists).
Qed.

(** X15.  [write] publishes all or nothing.  When it succeeds, the
    primary artifact holds the encoding of the document, its
    modification time is the time of the call, and the temporary file
    is gone.  When it fails, the primary artifact is what it was before
    the call, and the temporary file is removed provided the directory
    and the temporary file could be opened and the removal itself does
    not fail.  No other file changes and the clock does not move. *)
Theorem write_atomic (w : World) (d : BannerData) :
  ((Cache.write cfg w d).1 = None →
   files (Cache.write cfg w d).2 !! tmpFile cfg = None
   ∧ ∃ mode, files (Cache.write cfg w d).2 !! CacheFile cfg
       = Some {| contents := json_Encode d; ModTime := now w; Mode := mode |})
  ∧ ((Cache.write cfg w d).1 ≠ None →
     files (Cache.write cfg w d).2 !! CacheFile cfg = files w !! CacheFile cfg)
  ∧ ((Cache.write cfg w d).1 ≠ None →
     io_fault OpMkdirAll (CacheDir cfg) = false →
     io_fault OpOpenFile (tmpFile cfg) = false →
     io_fault OpRemove (tmpFile cfg) = false →
     files (Cache.write cfg w d).2 !! tmpFile cfg = None)
  ∧ (∀ path, path ≠ tmpFile cfg → path ≠ CacheFile cfg →
       files (Cache.write cfg w d).2 !! path = files w !! path)
  ∧ now (Cache.write cfg w d).2 = now w.
Proof.
  split_and!.
  - apply write_success.
  - apply write_failure.
  - intros. by apply write_failure_tmp.
  - intros. by apply write_frame.
  - apply write_now.
Qed.

(** X16.  After a successful [write] the cache reads back what was
    published: [loadExistingBanners] returns the decoding of the
    encoded document, [Stats] is valid exactly when that decoding
    succeeds, and, for a positive TTL, [IsValid] holds. *)
Theorem write_read_back (w : World) (d : BannerData) :
  (Cache.write cfg w d).1 = None →
  io_fault OpReadFile (CacheFile cfg) = false →
  Cache.loadExistingBanners cfg (Cache.write cfg w d).2
  = Unmarshal_BannerData (json_Encode d)
  ∧ (Valid (Cache.Stats cfg (Cache.write cfg w d).2) = true
     ↔ is_Some (Unmarshal_BannerData (json_Encode d)))
  ∧ (0 < TTL cfg → Cache.IsValid cfg (Cache.write cfg w d).2 = true).
Proof.
  intros Hok Hrd. destruct (write_success w d Hok) as (_ & mode & Hf).
  split_and!.
  - unfold Cache.loadExistingBanners, os.ReadFile. by rewrite Hf, Hrd.
  - unfold Cache.Stats, os.Stat, os.ReadFile. rewrite Hf, Hrd. simpl.
    destruct (Unmarshal_BannerData (json_Encode d)); simpl.
    + split; [by eexists|done].
    + split; [done|by intros [? ?]].
  - intros Httl. unfold Cache.IsValid, os.Stat, time.Since. rewrite Hf.
    rewrite write_now. simpl. apply bool_decide_eq_true.
    unfold time.Sub, time.minDuration, time.maxDuration. lia.
Qed.

Lemma Update_run w w1 (force : bool) :
  negb force && Cache.IsValid cfg w = false →
  Cache.acquireLock cfg w = (None, w1) →
  Cache.Update cfg w force
  = let results := (Fetcher.FetchAll w1 (ConfigSources cfg)).1 in
    if decide (length (Cache.collect results) = 0%nat)
    then (Some ErrAllSourcesFailed,
          Cache.releaseLock cfg (advance w1 join_delay))
    else ((Cache.write cfg (advance w1 join_delay)
             (Merge (Cache.collect results))).1,
          Cache.releaseLock cfg
            (Cache.write cfg (advance w1 join_delay)
               (Merge (Cache.collect results))).2).
Proof.
  intros Hskip Hacq. unfold Cache.Update. rewrite Hskip, Hacq.
  unfold Fetcher.FetchAll, Fetcher.FetchAllWithMeta. cbn [fst snd].
  destruct (decide _); [done|]. by destruct (Cache.write _ _ _).
Qed.

Lemma Sub_same t : time.Sub t t = 0.
Proof. unfold time.Sub, time.minDuration, time.maxDuration. lia. Qed.

Lemma IsValid_just_written w f :
  files w !! CacheFile cfg = Some f → ModTime f = now w → 0 < TTL cfg →
  Cache.IsValid cfg w = true.
Proof.
  intros Hf Hm Httl. unfold Cache.IsValid, os.Stat, time.Since.
  rewrite Hf, Hm, Sub_same. by apply bool_decide_eq_true.
Qed.

(** X17.  After an [Update] that returned no error, forced or not, the
    cache is valid (for a positive TTL): an [Update] without force or an
    [Ensure] that follows returns at once and changes nothing. *)
Theorem Update_success_valid (w : World) (force : bool) :
  (Cache.Update cfg w force).1 = None →
  CacheFile cfg ≠ LockFile cfg →
  0 < TTL cfg →
  Cache.IsValid cfg (Cache.Update cfg w force).2 = true
  ∧ Cache.Update cfg (Cache.Update cfg w force).2 false
    = (None, (Cache.Update cfg w force).2)
  ∧ Cache.Ensure cfg (Cache.Update cfg w force).2
    = (None, (Cache.Update cfg w force).2).
Proof.
  intros Hok Hne Httl.
  assert (Hvalid : Cache.IsValid cfg (Cache.Update cfg w force).2 = true).
  { destruct (negb force && Cache.IsValid cfg w) eqn:Hskip.
    - unfold Cache.Update in *. rewrite Hskip in *. cbn [snd].
      by apply andb_true_iff in Hskip as [_ ?].
    - destruct (Cache.acquireLock cfg w) as [[err|] w1] eqn:Hacq.
      { unfold Cache.Update in Hok. by rewrite Hskip, Hacq in Hok. }
      rewrite (Update_run w w1 force Hskip Hacq) in *. cbv zeta in *.
      destruct (decide _); [done|]. cbn [fst snd] in *.
      destruct (write_success _ _ Hok) as (_ & mode & Hf).
      eapply IsValid_just_written; [|..|done].
      + by rewrite releaseLock_lookup.
      + simpl. by rewrite releaseLock_now, write_now. }
  split_and!; [done| |].
  - revert Hvalid. generalize (Cache.Update cfg w force).2. intros w' Hv.
    unfold Cache.Update. by rewrite Hv.
  - unfold Cache.Ensure. by rewrite Hvalid.
Qed.

(** X18.  After a [SmartUpdate] that returned no error the cache is
    valid (for a positive TTL), whether the call rewrote the primary
    artifact or returned early. *)
Theorem SmartUpdate_success_valid (w : World) :
  (Cache.SmartUpdate cfg w).1.2 = None →
  CacheFile cfg ≠ LockFile cfg →
  0 < TTL cfg →
  Cache.IsValid cfg (Cache.SmartUpdate cfg w).2 = true.
Proof.
  intros Hok Hne Httl.
  destruct (Cache.acquireLock cfg w) as [[err|] w1] eqn:Hacq.
  { unfold Cache.SmartUpdate in Hok. by rewrite Hacq in Hok. }
  rewrite (SmartUpdate_unfold cfg w w1 Hacq) in *.
  destruct (negb _ && _) eqn:Hskip.
  - cbn [fst snd] in *. apply andb_true_iff in Hskip as [_ Hv].
    rewrite <- Hv. apply IsValid_ext.
    + by apply releaseLock_lookup.
    + apply releaseLock_now.
  - destruct (decide _); [done|].
    destruct (Cache.write cfg (saved cfg w1) _) as [[err|] w'] eqn:Hwr; [done|].
    cbn [fst snd] in *.
    assert (Hw : (Cache.write cfg (saved cfg w1)
                    (Merge (datasets (gathered cfg w1)))).1 = None)
      by by rewrite Hwr.
    destruct (write_success _ _ Hw) as (_ & mode & Hf).
    pose proof (write_now cfg (saved cfg w1)
                  (Merge (datasets (gathered cfg w1)))) as Hn.
    rewrite Hwr in Hf, Hn. cbn [snd] in *.
    eapply IsValid_just_written; [|..|done].
    + by rewrite releaseLock_lookup.
    + simpl. by rewrite releaseLock_now, Hn.
Qed.

(** X19.  Once [Update] with force or [SmartUpdate] has taken the
    lock, the lock file is absent when the call returns, on success and
    on every failure alike.  When the lock is held by another process,
    both calls return [ErrLocked] and change nothing. *)
Theorem lock_released_on_return (w : World) :
  (io_fault OpRemove (LockFile cfg) = false →
   (Cache.acquireLock cfg w).1 = None →
   files (Cache.Update cfg w true).2 !! LockFile cfg = None
   ∧ files (Cache.SmartUpdate cfg w).2 !! LockFile cfg = None)
  ∧ (io_fault OpMkdirAll (CacheDir cfg) = false →
     lock_held cfg w →
     Cache.Update cfg w true = (Some ErrLocked, w)
     ∧ Cache.SmartUpdate cfg w = (false, Some ErrLocked, w)).
Proof.
  split.
  - intros Hrm Hacq.
    assert (Hrel : ∀ w', files (Cache.releaseLock cfg w') !! LockFile cfg = None).
    { intros w'. rewrite releaseLock_files by done. apply lookup_delete_eq. }
    destruct (Cache.acquireLock cfg w) as [[err|] w1] eqn:Ha; [done|].
    split.
    + rewrite (Update_run w w1 true eq_refl Ha). cbv zeta.
      destruct (decide _); apply Hrel.
    + rewrite (SmartUpdate_unfold cfg w w1 Ha).
      destruct (negb _ && _); [apply Hrel|].
      destruct (decide _); [apply Hrel|].
      destruct (Cache.write _ _ _) as [[?|] ?]; apply Hrel.
  - intros Hmk Hheld.
    pose proof (acquireLock_held cfg w Hmk Hheld) as Ha.
    unfold Cache.Update, Cache.SmartUpdate. cbn [negb andb]. by rewrite Ha.
Qed.

(** X20.  [loadMeta] answers the empty sidecar when the sidecar file
    is missing or does not decode.  [saveMeta] never touches a file
    other than the sidecar; when it fails, the sidecar is either what it
    was or holds an initial part of the marshalled text ([os.WriteFile]
    does not write atomically).  After a [saveMeta] that succeeds
    [loadMeta] returns the saved records, provided the text that was
    marshalled unmarshals to them. *)
Theorem loadMeta_saveMeta (w : World) (meta : MetaCache) :
  (files w !! Cache.metaFile cfg = None →
   Cache.loadMeta cfg w = {| Sources := ∅ |})
  ∧ (∀ f, files w !! Cache.metaFile cfg = Some f →
          Unmarshal_MetaCache (contents f) = None →
          Cache.loadMeta cfg w = {| Sources := ∅ |})
  ∧ (∀ path, path ≠ Cache.metaFile cfg →
       files (Cache.saveMeta cfg w meta).2 !! path = files w !! path)
  ∧ ((Cache.saveMeta cfg w meta).1 ≠ None →
     files (Cache.saveMeta cfg w meta).2 !! Cache.metaFile cfg
     = files w !! Cache.metaFile cfg
     ∨ ∃ text n,
         json_MarshalIndent meta = Some text
         ∧ (contents <$> files (Cache.saveMeta cfg w meta).2
                           !! Cache.metaFile cfg)
           = Some (String.substring 0 n text))
  ∧ (∀ text,
       (Cache.saveMeta cfg w meta).1 = None →
       json_MarshalIndent meta = Some text →
       io_fault OpReadFile (Cache.metaFile cfg) = false →
       Unmarshal_MetaCache text = Some meta →
       Cache.loadMeta cfg (Cache.saveMeta cfg w meta).2 = meta).
Proof.
  split_and!.
  - intros Hf. unfold Cache.loadMeta, os.ReadFile. by rewrite Hf.
  - intros f Hf Hd. unfold Cache.loadMeta, os.ReadFile. rewrite Hf.
    destruct (io_fault _ _); [done|]. by rewrite Hd.
  - intros path Hne. by apply saveMeta_frame.
  - unfold Cache.saveMeta, os.WriteFile.
    destruct (json_MarshalIndent meta) as [text|]; [|by left].
    destruct (io_fault _ _); [|done]. intros _. cbn [snd].
    destruct (io_written _) as [n|]; [|by left].
    right. exists text, n. split; [done|]. by rewrite put_lookup_eq.
  - intros text Hok Hm Hrd Hd. unfold Cache.saveMeta, os.WriteFile in *.
    rewrite Hm in *. destruct (io_fault OpWriteFile _); [done|].
    cbn [snd]. unfold Cache.loadMeta, os.ReadFile.
    rewrite put_lookup_eq, Hrd. simpl. by rewrite Hd.
Qed.

Lemma gather_newMeta_success w meta g r m :
  Err r = None → Meta r = Some m →
  Sources (newMeta (Cache.gather cfg w meta g r)) !! Source r = Some m.
Proof.
  intros He Hm. unfold Cache.gather. rewrite He, Hm.
  destruct (Modified r), (Data r), (Cache.loadExistingBanners cfg w);
    simpl; by rewrite lookup_insert_eq.
Qed.

(** X21.  In the loop of [SmartUpdate], the validators recorded for a
    source are those of its last successful result: a result without
    error that carries validators decides the record of its source,
    whatever came before it, as long as no later result names the same
    source. *)
Theorem gather_records_validators (w : World) (meta : MetaCache)
    (before after : list Result) (r : Result) (m : SourceMeta) :
  Err r = None →
  Meta r = Some m →
  (∀ r', r' ∈ after → Source r' ≠ Source r) →
  Sources (newMeta (Cache.gather_all cfg w meta (before ++ r :: after)))
    !! Source r = Some m.
Proof.
  intros He Hm Hafter. unfold Cache.gather_all.
  rewrite foldl_app. simpl.
  generalize (foldl (Cache.gather cfg w meta)
    {| datasets := []; anyModified := false; newMeta := {| Sources := ∅ |} |}
    before). intros g.
  assert (Hstart : Sources (newMeta (Cache.gather cfg w meta g r)) !! Source r
                   = Some m) by by apply gather_newMeta_success.
  revert Hstart. generalize (Cache.gather cfg w meta g r). clear g.
  induction after as [|r' rs IH]; intros g Hg; [done|].
  simpl. apply IH.
  - intros r'' Hr''. apply Hafter. by right.
  - rewrite gather_newMeta_other; [done|]. apply Hafter. by left.
Qed.

Lemma gather_datasets w meta g r :
  datasets (Cache.gather cfg w meta g r)
  = datasets g ++ contribution (Cache.loadExistingBanners cfg w) r.
Proof.
  unfold Cache.gather, contribution.
  destruct (Err r).
  - destruct (Sources meta !! Source r); simpl; by rewrite app_nil_r.
  - destruct (Modified r), (Data r), (Cache.loadExistingBanners cfg w);
      simpl; by rewrite ?app_nil_r.
Qed.

Lemma gather_all_datasets w meta results :
  datasets (Cache.gather_all cfg w meta results)
  = concat (contribution (Cache.loadExistingBanners cfg w) <$> results).
Proof.
  unfold Cache.gather_all.
  assert (Hgen : ∀ g,
    datasets (foldl (Cache.gather cfg w meta) g results)
    = datasets g
      ++ concat (contribution (Cache.loadExistingBanners cfg w) <$> results)).
  { induction results as [|r rs IH]; intros g; simpl.
    - by rewrite app_nil_r.
    - by rewrite IH, gather_datasets, <- app_assoc. }
  by rewrite Hgen.
Qed.

Lemma gather_anyModified_step w meta g r :
  anyModified (Cache.gather cfg w meta g r) = true
  ↔ anyModified g = true ∨ brings_document r.
Proof.
  unfold Cache.gather, brings_document.
  destruct (Err r).
  - destruct (Sources meta !! Source r); simpl; naive_solver.
  - destruct (Modified r), (Data r), (Cache.loadExistingBanners cfg w);
      simpl; split; try naive_solver.
    all: intros [?|(_ & _ & [? ?])]; done.
Qed.

Lemma gather_all_anyModified w meta results :
  anyModified (Cache.gather_all cfg w meta results) = true
  ↔ Exists brings_document results.
Proof.
  unfold Cache.gather_all.
  assert (Hgen : ∀ g,
    anyModified (foldl (Cache.gather cfg w meta) g results) = true
    ↔ anyModified g = true ∨ Exists brings_document results).
  { induction results as [|r rs IH]; intros g; simpl.
    - rewrite Exists_nil. naive_solver.
    - rewrite IH, gather_anyModified_step, Exists_cons. naive_solver. }
  rewrite Hgen. simpl. naive_solver.
Qed.

Lemma loadExistingBanners_ext w w' :
  files w' !! CacheFile cfg = files w !! CacheFile cfg →
  Cache.loadExistingBanners cfg w' = Cache.loadExistingBanners cfg w.
Proof.
  intros Hf. unfold Cache.loadExistingBanners, os.ReadFile. by rewrite Hf.
Qed.

Lemma acquired_frame w w1 path :
  Cache.acquireLock cfg w = (None, w1) → path ≠ LockFile cfg →
  files w1 !! path = files w !! path.
Proof.
  intros Hacq Hne.
  replace w1 with (Cache.acquireLock cfg w).2 by by rewrite Hacq.
  by apply acquireLock_frame.
Qed.

Lemma acquired_now w w1 :
  Cache.acquireLock cfg w = (None, w1) → now w1 = now w.
Proof.
  intros Hacq.
  replace w1 with (Cache.acquireLock cfg w).2 by by rewrite Hacq.
  apply acquireLock_now.
Qed.

(** X22.  [SmartUpdate] returns true only if some source brought a new
    document.  Conversely, when some source did and no file operation
    fails, it returns true without error and the primary artifact holds
    the merge, in source order, of the documents of the modified sources
    and of the existing document for each source that answered 304,
    written at the time the fetches ended. *)
Theorem SmartUpdate_modified (w w1 : World) :
  Cache.acquireLock cfg w = (None, w1) →
  CacheFile cfg ≠ LockFile cfg →
  let results :=
    (Fetcher.FetchAllWithMeta w1 (ConfigSources cfg)
       (Some (Cache.loadMeta cfg w1))).1 in
  let merged :=
    Merge (concat (contribution (Cache.loadExistingBanners cfg w) <$> results)) in
  ((Cache.SmartUpdate cfg w).1.1 = true → Exists brings_document results)
  ∧ (Exists brings_document results → no_faults →
     (Cache.SmartUpdate cfg w).1 = (true, None)
     ∧ ∃ mode,
         files (Cache.SmartUpdate cfg w).2 !! CacheFile cfg
         = Some {| contents := json_Encode merged;
                   ModTime := now w + join_delay; Mode := mode |}).
Proof.
  intros Hacq Hne results merged.
  assert (Hany : anyModified (gathered cfg w1) = true
                 ↔ Exists brings_document results)
    by apply gather_all_anyModified.
  assert (Hdata : datasets (gathered cfg w1)
    = concat (contribution (Cache.loadExistingBanners cfg w) <$> results)).
  { unfold gathered. rewrite gather_all_datasets.
    rewrite (loadExistingBanners_ext w (advance w1 join_delay)); [done|].
    simpl. by eapply acquired_frame. }
  rewrite (SmartUpdate_unfold cfg w w1 Hacq). split.
  - destruct (negb _ && _); [done|]. destruct (decide _); [done|].
    destruct (Cache.write _ _ _) as [[?|] ?]; [done|].
    cbn [fst]. apply Hany.
  - intros Hex Hnf. apply Hany in Hex as Hmod. rewrite Hmod. cbn [negb andb].
    rewrite decide_False.
    2:{ intros Hlen. apply nil_length_inv in Hlen.
        rewrite Hdata in Hlen.
        apply Exists_exists in Hex as (r & Hr & He & Hm & [d Hd]).
        assert (Hin : Some d ∈ concat
          (contribution (Cache.loadExistingBanners cfg w) <$> results)).
        { apply list_elem_of_In, in_concat.
          exists (contribution (Cache.loadExistingBanners cfg w) r). split.
          - apply list_elem_of_In, list_elem_of_fmap. eauto.
          - unfold contribution. rewrite He, Hm, Hd. by left. }
        rewrite Hlen in Hin. by apply elem_of_nil in Hin. }
    destruct (write_ok cfg (saved cfg w1) (Merge (datasets (gathered cfg w1))) Hnf)
      as (Hok & mode & Hf).
    destruct (Cache.write _ _ _) as [[?|] w'] eqn:Hwr; [done|].
    cbn [fst snd] in *. split; [done|]. exists mode.
    rewrite releaseLock_lookup by done. rewrite Hf, Hdata.
    unfold saved. rewrite saveMeta_now. simpl.
    by rewrite (acquired_now w w1 Hacq).
Qed.

Lemma contribution_unmodified existing r :
  Modified r = false →
  contribution (Some existing) r
  = if decide (Err r = None) then [Some existing] else [].
Proof.
  intros Hm. unfold contribution. rewrite Hm. by destruct (Err r).
Qed.

Lemma concat_unmodified existing results :
  Forall (λ r, Modified r = false) results →
  concat (contribution (Some existing) <$> results)
  = replicate (length (filter (λ r, Err r = None) results)) (Some existing).
Proof.
  induction 1 as [|r rs Hr _ IH]; [done|].
  rewrite fmap_cons, concat_cons, IH, contribution_unmodified, filter_cons by done.
  by destruct (decide (Err r = None)).
Qed.

(** The rewrite of a stale primary artifact that no source modified. *)
Lemma SmartUpdate_stale_rewrite (w w1 : World) (f : File)
    (existing : BannerData) :
  Cache.acquireLock cfg w = (None, w1) →
  CacheFile cfg ≠ LockFile cfg →
  CacheFile cfg ≠ Cache.metaFile cfg →
  no_faults →
  let results :=
    (Fetcher.FetchAllWithMeta w1 (ConfigSources cfg)
       (Some (Cache.loadMeta cfg w1))).1 in
  Forall (λ r, Modified r = false) results →
  Exists (λ r, Err r = None) results →
  files w !! CacheFile cfg = Some f →
  Unmarshal_BannerData (contents f) = Some existing →
  ¬ time.Sub (now w + join_delay) (ModTime f) < TTL cfg →
  (Cache.SmartUpdate cfg w).1 = (false, None)
  ∧ ∃ mode,
      files (Cache.SmartUpdate cfg w).2 !! CacheFile cfg
      = Some {| contents := json_Encode (Merge [Some existing]);
                ModTime := now w + join_delay; Mode := mode |}.
Proof.
  intros Hacq Hlock Hmeta Hnf results Hall Hex Hf Hdec Hstale.
  assert (Hf1 : files w1 !! CacheFile cfg = Some f)
    by by rewrite (acquired_frame w w1 _ Hacq).
  assert (Hn1 : now w1 = now w) by by apply acquired_now.
  assert (Hload : Cache.loadExistingBanners cfg (advance w1 join_delay)
                  = Some existing).
  { unfold Cache.loadExistingBanners, os.ReadFile. simpl.
    by rewrite Hf1, Hnf. }
  assert (Hany : anyModified (gathered cfg w1) = false)
    by by apply gather_all_unmodified.
  assert (Hdata : ∃ n, datasets (gathered cfg w1)
                       = replicate (S n) (Some existing)).
  { unfold gathered. rewrite gather_all_datasets, Hload.
    rewrite concat_unmodified by done.
    destruct (filter _ _) as [|r rs] eqn:Hfil; [|by exists (length rs)].
    apply Exists_exists in Hex as (r & Hr & He).
    assert (Hin : r ∈ filter (λ r, Err r = None)
      (Fetcher.FetchAllWithMeta w1 (ConfigSources cfg)
         (Some (Cache.loadMeta cfg w1))).1)
      by by apply list_elem_of_filter.
    rewrite Hfil in Hin. by apply elem_of_nil in Hin. }
  destruct Hdata as [n Hdata].
  assert (Hsaved : files (saved cfg w1) !! CacheFile cfg = Some f
                   ∧ now (saved cfg w1) = now w + join_delay).
  { unfold saved. rewrite saveMeta_frame, saveMeta_now by done.
    simpl. by rewrite Hf1, Hn1. }
  destruct Hsaved as [Hfs Hns].
  assert (Hinvalid : Cache.IsValid cfg (saved cfg w1) = false).
  { unfold Cache.IsValid, os.Stat, time.Since. rewrite Hfs, Hns.
    by apply bool_decide_eq_false. }
  rewrite (SmartUpdate_unfold cfg w w1 Hacq), Hany, Hinvalid. cbn [negb andb].
  rewrite Hdata, decide_False by (by rewrite length_replicate).
  rewrite Merge_replicate.
  destruct (write_ok cfg (saved cfg w1) (Merge [Some existing]) Hnf)
    as (Hok & mode & Hfile).
  destruct (Cache.write _ _ _) as [[?|] w'] eqn:Hwr; [done|].
  cbn [fst snd] in *. split; [done|]. exists mode.
  rewrite releaseLock_lookup by done. by rewrite Hfile, Hns.
Qed.

(** X23.  When the cache is older than the TTL, no source reports a
    modification and at least one answers without error, [SmartUpdate]
    returns false without error but does rewrite the primary artifact:
    it publishes the merge of the existing document alone, however many
    sources answered, with a fresh modification time. *)
Theorem SmartUpdate_stale_refresh (w w1 : World) (f : File)
    (existing : BannerData) :
  Cache.acquireLock cfg w = (None, w1) →
  CacheFile cfg ≠ LockFile cfg →
  CacheFile cfg ≠ Cache.metaFile cfg →
  no_faults →
  let results :=
    (Fetcher.FetchAllWithMeta w1 (ConfigSources cfg)
       (Some (Cache.loadMeta cfg w1))).1 in
  Forall (λ r, Modified r = false) results →
  Exists (λ r, Err r = None) results →
  files w !! CacheFile cfg = Some f →
  Unmarshal_BannerData (contents f) = Some existing →
  ¬ time.Sub (now w + join_delay) (ModTime f) < TTL cfg →
  (Cache.SmartUpdate cfg w).1 = (false, None)
  ∧ ∃ mode,
      files (Cache.SmartUpdate cfg w).2 !! CacheFile cfg
      = Some {| contents := json_Encode (Merge [Some existing]);
                ModTime := now w + join_delay; Mode := mode |}.
Proof. apply SmartUpdate_stale_rewrite. Qed.

Lemma contribution_nothing existing r :
  Modified r = false →
  Err r ≠ None ∨ existing = None →
  contribution existing r = [].
Proof.
  intros Hm Hnone. unfold contribution. rewrite Hm.
  destruct (Err r); [done|]. destruct Hnone as [?| ->]; done.
Qed.

Lemma concat_nothing existing results :
  Forall (λ r, Modified r = false) results →
  Forall (λ r, Err r ≠ None) results ∨ existing = None →
  concat (contribution existing <$> results) = [].
Proof.
  intros Hall Hnone. induction Hall as [|r rs Hr _ IH]; [done|].
  rewrite fmap_cons, concat_cons, contribution_nothing, IH; [done| |done|].
  - destruct Hnone as [Herr|?]; [|by right]. left.
    by apply Forall_cons in Herr as [_ ?].
  - destruct Hnone as [Herr|?]; [|by right]. left.
    by apply Forall_cons in Herr as [? _].
Qed.

(** The failure of [SmartUpdate] when nothing was modified, the primary
    artifact is not fresh and there is no document to merge. *)
Lemma SmartUpdate_nothing_to_merge (w w1 : World) :
  Cache.acquireLock cfg w = (None, w1) →
  CacheFile cfg ≠ LockFile cfg →
  CacheFile cfg ≠ Cache.metaFile cfg →
  let results :=
    (Fetcher.FetchAllWithMeta w1 (ConfigSources cfg)
       (Some (Cache.loadMeta cfg w1))).1 in
  Forall (λ r, Modified r = false) results →
  (∀ f, files w !! CacheFile cfg = Some f →
        ¬ time.Sub (now w + join_delay) (ModTime f) < TTL cfg) →
  Forall (λ r, Err r ≠ None) results
  ∨ Cache.loadExistingBanners cfg w = None →
  (Cache.SmartUpdate cfg w).1 = (false, Some ErrAllSourcesFailed)
  ∧ files (Cache.SmartUpdate cfg w).2 !! CacheFile cfg
    = files w !! CacheFile cfg.
Proof.
  intros Hacq Hlock Hmeta results Hall Hstale Hnone.
  assert (Hf1 : files w1 !! CacheFile cfg = files w !! CacheFile cfg)
    by by apply (acquired_frame w w1 _ Hacq).
  assert (Hn1 : now w1 = now w) by by apply acquired_now.
  assert (Hany : anyModified (gathered cfg w1) = false)
    by by apply gather_all_unmodified.
  assert (Hload : Cache.loadExistingBanners cfg (advance w1 join_delay)
                  = Cache.loadExistingBanners cfg w).
  { by apply loadExistingBanners_ext. }
  assert (Hdata : datasets (gathered cfg w1) = []).
  { unfold gathered. rewrite gather_all_datasets, Hload.
    by apply concat_nothing. }
  assert (Hsaved : files (saved cfg w1) !! CacheFile cfg
                   = files w !! CacheFile cfg
                   ∧ now (saved cfg w1) = now w + join_delay).
  { unfold saved. rewrite saveMeta_frame, saveMeta_now by done.
    simpl. by rewrite Hf1, Hn1. }
  destruct Hsaved as [Hfs Hns].
  assert (Hinvalid : Cache.IsValid cfg (saved cfg w1) = false).
  { unfold Cache.IsValid, os.Stat, time.Since. rewrite Hfs, Hns.
    destruct (files w !! CacheFile cfg) as [f|] eqn:Hf; [|done].
    apply bool_decide_eq_false. by apply Hstale. }
  rewrite (SmartUpdate_unfold cfg w w1 Hacq), Hany, Hinvalid. cbn [negb andb].
  rewrite Hdata. cbn [length]. rewrite decide_True by done. cbn [fst snd].
  split; [done|]. by rewrite releaseLock_lookup.
Qed.

(** C2, as the code has it.  Let [SmartUpdate] have acquired the lock
    and no source have reported a modification (each answered 304 or
    failed).  If the primary artifact exists and is fresh at the check
    that follows the fetch, the call returns [(false, nil)] and the
    primary artifact is the file that was there before, modification
    time included.  If the primary artifact is stale and decodes, some
    source answered without error and no file operation fails, the call
    still returns [(false, nil)] but rewrites the primary artifact with
    the merge of the cached document, at a new modification time.  If
    the primary artifact is absent or stale, and every source failed or
    the artifact cannot be read and decoded, the call returns the
    all-sources-failed error and leaves the primary artifact as it
    was. *)
Theorem SmartUpdate_not_modified (w w1 : World) :
  Cache.acquireLock cfg w = (None, w1) →
  CacheFile cfg ≠ LockFile cfg →
  CacheFile cfg ≠ Cache.metaFile cfg →
  let results :=
    (Fetcher.FetchAllWithMeta w1 (ConfigSources cfg)
       (Some (Cache.loadMeta cfg w1))).1 in
  Forall (λ r, Modified r = false) results →
  (∀ f,
     files w !! CacheFile cfg = Some f →
     time.Sub (now w + join_delay) (ModTime f) < TTL cfg →
     (Cache.SmartUpdate cfg w).1 = (false, None)
     ∧ files (Cache.SmartUpdate cfg w).2 !! CacheFile cfg = Some f)
  ∧ (∀ f existing,
       files w !! CacheFile cfg = Some f →
       ¬ time.Sub (now w + join_delay) (ModTime f) < TTL cfg →
       Unmarshal_BannerData (contents f) = Some existing →
       Exists (λ r, Err r = None) results →
       no_faults →
       (Cache.SmartUpdate cfg w).1 = (false, None)
       ∧ ∃ mode,
           files (Cache.SmartUpdate cfg w).2 !! CacheFile cfg
           = Some {| contents := json_Encode (Merge [Some existing]);
                     ModTime := now w + join_delay; Mode := mode |})
  ∧ ((∀ f, files w !! CacheFile cfg = Some f →
           ¬ time.Sub (now w + join_delay) (ModTime f) < TTL cfg) →
     Forall (λ r, Err r ≠ None) results
     ∨ Cache.loadExistingBanners cfg w = None →
     (Cache.SmartUpdate cfg w).1 = (false, Some ErrAllSourcesFailed)
     ∧ files (Cache.SmartUpdate cfg w).2 !! CacheFile cfg
       = files w !! CacheFile cfg).
Proof.
  intros Hacq Hlock Hmeta results Hall. split_and!.
  - intros f Hf Hfresh.
    by apply (SmartUpdate_fresh_unchanged cfg w w1 f).
  - intros f existing Hf Hstale Hdec Hex Hnf.
    by apply (SmartUpdate_stale_rewrite w w1 f existing).
  - intros Hstale Hnone.
    by apply (SmartUpdate_nothing_to_merge w w1).
Qed.


Lemma URI_or_expected w :
  (let '(uri, ok) := Cache.URI cfg w in
   if negb ok then "file://" +:+ CacheFile cfg else uri)
  = "file://" +:+ CacheFile cfg.
Proof.
  unfold Cache.URI, Cache.Path, os.Stat.
  by destruct (files w !! CacheFile cfg).
Qed.

Lemma vol3_content_has_key (pre uri : string) :
  contains (pre +:+ vol3_content uri) "remote_isf_url" = true.
Proof.
  apply contains_spec.
  exists (pre +:+ "# Added by basar" +:+ LF), (": " +:+ uri +:+ LF).
  unfold vol3_content. rewrite !string_app_assoc. reflexivity.
Qed.

Lemma ConfigureVolatility3_cases w home :
  os_UserHomeDir = Some home →
  Cache.ConfigureVolatility3 cfg w
  = let p := filepath_Join home ".volatility3.yaml" in
    let content := vol3_content ("file://" +:+ CacheFile cfg) in
    match files w !! p with
    | Some f =>
      if io_fault OpReadFile p then
        (Some (fmt_Errorf "reading volatility3 config" (PathError OpReadFile p)), w)
      else if contains (contents f) "remote_isf_url" then
        (Some (errors_New
                 ("volatility3 config already has remote_isf_url, please update manually: "
                  +:+ p)), w)
      else if io_fault OpOpenFile p then
        (Some (fmt_Errorf "opening volatility3 config" (PathError OpOpenFile p)), w)
      else if io_fault OpWrite p then
        (Some (fmt_Errorf "writing volatility3 config" (PathError OpWrite p)),
         match io_written p with
         | None => w
         | Some n =>
           set_files w
             (<[ p := {| contents :=
                           contents f
                           +:+ String.substring 0 n (LF +:+ content);
                         ModTime := now w; Mode := Mode f |} ]> (files w))
         end)
      else
        (None, set_files w (<[ p := {| contents := contents f +:+ LF +:+ content;
                                       ModTime := now w; Mode := Mode f |} ]>
                              (files w)))
    | None =>
      if io_fault OpWriteFile p then
        (Some (fmt_Errorf "creating volatility3 config" (PathError OpWriteFile p)),
         match io_written p with
         | None => w
         | Some n => os.put w p (String.substring 0 n content) FileMode
         end)
      else (None, os.put w p content FileMode)
    end.
Proof.
  intros Hhome. unfold Cache.ConfigureVolatility3.
  rewrite Hhome. cbv zeta.
  pose proof (URI_or_expected w) as Huri.
  destruct (Cache.URI cfg w) as [uri ok]. rewrite Huri.
  unfold os.Stat, os.ReadFile, os.OpenFileAppend, os.WriteString, os.WriteFile,
    os.appended.
  destruct (files w !! filepath_Join home ".volatility3.yaml") as [f|] eqn:Hf.
  - destruct (io_fault OpReadFile _); [done|].
    destruct (contains _ _); [done|].
    destruct (io_fault OpOpenFile _); [done|].
    destruct (io_fault OpWrite _); [|done].
    by destruct (io_written _).
  - by destruct (io_fault OpWriteFile _).
Qed.

(** X24.  [ConfigureVolatility3] only ever appends to the configuration
    of volatility3: what the file held stays at its start.  When the
    file already mentions [remote_isf_url] the call fails and changes
    nothing.  When the call succeeds the file ends with the entry for
    the URI of the cache file, whether or not the cache exists yet, and
    a second call then fails and changes nothing.  No other file is
    touched. *)
Theorem ConfigureVolatility3_appends (w : World) (home : string) :
  os_UserHomeDir = Some home →
  let p := filepath_Join home ".volatility3.yaml" in
  let entry := vol3_content ("file://" +:+ CacheFile cfg) in
  let after := (Cache.ConfigureVolatility3 cfg w).2 in
  (∀ f, files w !! p = Some f →
        ∃ f' suffix, files after !! p = Some f'
                     ∧ contents f' = contents f +:+ suffix)
  ∧ (∀ f pre post,
       files w !! p = Some f →
       contents f = pre +:+ "remote_isf_url" +:+ post →
       (Cache.ConfigureVolatility3 cfg w).1 ≠ None ∧ after = w)
  ∧ ((Cache.ConfigureVolatility3 cfg w).1 = None →
     (∃ f' pre, files after !! p = Some f' ∧ contents f' = pre +:+ entry)
     ∧ (Cache.ConfigureVolatility3 cfg after).1 ≠ None
     ∧ (Cache.ConfigureVolatility3 cfg after).2 = after)
  ∧ (∀ path, path ≠ p → files after !! path = files w !! path).
Proof.
  intros Hhome p entry after.
  pose proof (ConfigureVolatility3_cases w home Hhome) as Hc.
  cbv zeta in Hc. fold p entry in Hc.
  assert (Hsucc : (Cache.ConfigureVolatility3 cfg w).1 = None →
    ∃ f' pre, files after !! p = Some f' ∧ contents f' = pre +:+ entry).
  { subst after. rewrite Hc.
    destruct (files w !! p) as [f|] eqn:Hf.
    - destruct (io_fault OpReadFile p); [done|].
      destruct (contains _ _); [done|].
      destruct (io_fault OpOpenFile p); [done|].
      destruct (io_fault OpWrite p); [done|]. intros _. cbn [snd files set_files].
      rewrite lookup_insert_eq. eexists _, (contents f +:+ LF). split; [done|].
      cbn [contents]. by rewrite string_app_assoc.
    - destruct (io_fault OpWriteFile p); [done|]. intros _. cbn [snd].
      unfold os.put. cbn [files set_files].
      rewrite lookup_insert_eq. by eexists _, EmptyString. }
  split_and!.
  - intros f Hf. subst after. rewrite Hc, Hf.
    assert (Hsame : ∃ f' suffix, files w !! p = Some f'
                                 ∧ contents f' = contents f +:+ suffix).
    { exists f, EmptyString. by rewrite string_app_nil_r. }
    destruct (io_fault OpReadFile p); [done|].
    destruct (contains _ _); [done|].
    destruct (io_fault OpOpenFile p); [done|].
    destruct (io_fault OpWrite p); cbn [snd].
    { destruct (io_written p); [|done]. cbn [files set_files].
      rewrite lookup_insert_eq. by eexists _, _. }
    cbn [files set_files]. rewrite lookup_insert_eq. by eexists _, _.
  - intros f pre post Hf Hkey. subst after. rewrite Hc, Hf.
    destruct (io_fault OpReadFile p); [done|].
    assert (Hhas : contains (contents f) "remote_isf_url" = true).
    { apply contains_spec. eauto. }
    by rewrite Hhas.
  - intros Hok. destruct (Hsucc Hok) as (f' & pre & Hf' & Hcont).
    split; [by eauto|].
    pose proof (ConfigureVolatility3_cases after home Hhome) as Hc'.
    cbv zeta in Hc'. fold p entry in Hc'. rewrite Hc', Hf'.
    destruct (io_fault OpReadFile p); [done|].
    rewrite Hcont. subst entry. by rewrite vol3_content_has_key.
  - intros path Hne. subst after. rewrite Hc.
    destruct (files w !! p) as [f|] eqn:Hf.
    + destruct (io_fault OpReadFile p); [done|].
      destruct (contains _ _); [done|].
      destruct (io_fault OpOpenFile p); [done|].
      destruct (io_fault OpWrite p); cbn [snd].
      { destruct (io_written p); [|done]. cbn [files set_files].
        by rewrite lookup_insert_ne. }
      cbn [files set_files]. by rewrite lookup_insert_ne.
    + destruct (io_fault OpWriteFile p); cbn [snd].
      * destruct (io_written p); [|done]. unfold os.put.
        cbn [files set_files]. by rewrite lookup_insert_ne.
      * unfold os.put. cbn [files set_files]. by rewrite lookup_insert_ne.
Qed.
End MoreCacheProperties.

(** * Package config *)

Section ConfigProperties.
Context `{Runtime}.
Variable Sscanf_d : string → option Z.
Variable ScanLines : string → list string.
Variable TrimSpace : string → string.

Lemma wrap64_small z : - 2 ^ 63 ≤ z < 2 ^ 63 → wrap64 z = z.
Proof. intros Hz. unfold wrap64. rewrite Z.mod_small; lia. Qed.

Lemma wrap64_over z : 2 ^ 63 ≤ z < 2 ^ 64 → wrap64 z = z - 2 ^ 64.
Proof.
  intros Hz. unfold wrap64.
  replace (z + 2 ^ 63) with ((z - 2 ^ 63) + 1 * 2 ^ 64) by lia.
  rewrite Z_mod_plus_full, Z.mod_small; lia.
Qed.

(** X25.  [parseTTL] reads the text as a number of seconds: the
    default is returned for the empty text, for a text that does not
    scan as an integer, and for an integer that is not positive; a
    positive number of seconds up to 9223372036 gives exactly that many
    seconds, a positive duration. *)
Theorem parseTTL_seconds (s : string) (defaultVal : Z) :
  config.parseTTL Sscanf_d EmptyString defaultVal = defaultVal
  ∧ (Sscanf_d s = None → config.parseTTL Sscanf_d s defaultVal = defaultVal)
  ∧ (∀ secs, Sscanf_d s = Some secs → secs ≤ 0 →
             config.parseTTL Sscanf_d s defaultVal = defaultVal)
  ∧ (∀ secs, s ≠ EmptyString → Sscanf_d s = Some secs →
             0 < secs ≤ 9223372036 →
             config.parseTTL Sscanf_d s defaultVal = secs * Second
             ∧ 0 < config.parseTTL Sscanf_d s defaultVal).
Proof.
  unfold config.parseTTL. split_and!.
  - done.
  - intros ->. by case_decide.
  - intros secs -> Hs. case_decide; [done|]. by rewrite decide_False by lia.
  - intros secs Hne -> Hs. rewrite decide_False by done.
    rewrite decide_True by lia. unfold Second in *.
    rewrite wrap64_small by lia. lia.
Qed.

(** X26.  [parseTTL] does not guard the multiplication by a second: a
    number of seconds from 9223372037 to 18446744073 overflows the
    64-bit duration and gives a negative TTL, and with such a TTL a
    primary artifact that is not dated in the future is never valid. *)
Theorem parseTTL_overflow (s : string) (defaultVal secs : Z) :
  s ≠ EmptyString →
  Sscanf_d s = Some secs →
  9223372037 ≤ secs ≤ 18446744073 →
  config.parseTTL Sscanf_d s defaultVal = secs * Second - 2 ^ 64
  ∧ config.parseTTL Sscanf_d s defaultVal < 0
  ∧ (∀ (cfg : Config) (w : World) (f : File),
       TTL cfg = config.parseTTL Sscanf_d s defaultVal →
       files w !! CacheFile cfg = Some f →
       ModTime f ≤ now w →
       Cache.IsValid cfg w = false).
Proof.
  intros Hne Hscan Hs.
  assert (Hval : config.parseTTL Sscanf_d s defaultVal = secs * Second - 2 ^ 64).
  { unfold config.parseTTL. rewrite decide_False by done. rewrite Hscan.
    rewrite decide_True by lia. unfold Second. apply wrap64_over. lia. }
  assert (Hneg : config.parseTTL Sscanf_d s defaultVal < 0).
  { rewrite Hval. unfold Second. lia. }
  split_and!; [done|done|].
  intros cfg w f Httl Hf Hm. unfold Cache.IsValid, os.Stat, time.Since.
  rewrite Hf. apply bool_decide_eq_false. rewrite Httl.
  unfold time.Sub, time.minDuration, time.maxDuration. lia.
Qed.

Lemma addSource_filter (lines acc : list string) :
  foldl (config.addSource TrimSpace) acc lines
  = acc ++ filter is_source_line (TrimSpace <$> lines).
Proof.
  revert acc. induction lines as [|l ls IH]; intros acc.
  - simpl. by rewrite app_nil_r.
  - cbn [foldl]. rewrite IH, fmap_cons, filter_cons. unfold config.addSource.
    destruct (decide (TrimSpace l = EmptyString)) as [He|He].
    + rewrite decide_False; [done|]. by intros [? _].
    + destruct (strings.HasPrefix (TrimSpace l) "#") eqn:Hp.
      * rewrite decide_False; [done|]. intros [_ ?]. congruence.
      * rewrite decide_True by done. by rewrite <- app_assoc.
Qed.

(** X27.  [loadSources] never returns an empty list and never returns
    an empty line or a comment line.  It gives the default sources when
    the configuration file is missing; when the file can be read it
    gives the trimmed lines of the file that are neither empty nor
    comments, in the order of the file, and the default sources when
    there is no such line. *)
Theorem loadSources_never_empty (w : World) (c : Config) :
  config.loadSources ScanLines TrimSpace w c ≠ []
  ∧ Forall is_source_line (config.loadSources ScanLines TrimSpace w c)
  ∧ (files w !! ConfigFile c = None →
     config.loadSources ScanLines TrimSpace w c = DefaultSources)
  ∧ (∀ f, files w !! ConfigFile c = Some f →
          io_fault OpOpen (ConfigFile c) = false →
          config.loadSources ScanLines TrimSpace w c
          = match filter is_source_line (TrimSpace <$> ScanLines (contents f)) with
            | [] => DefaultSources
            | sources => sources
            end).
Proof.
  assert (Hdef : Forall is_source_line DefaultSources).
  { repeat constructor; done. }
  unfold config.loadSources, os.Open.
  destruct (files w !! ConfigFile c) as [f|] eqn:Hf; [|by split_and!].
  destruct (io_fault OpOpen (ConfigFile c)) eqn:Hio.
  { split_and!; try done. }
  rewrite (addSource_filter _ []). simpl.
  destruct (filter is_source_line _) as [|l ls] eqn:Hfil; simpl.
  - split_and!; try done. by intros f' [= <-] _; rewrite Hfil.
  - split_and!; try done.
    + rewrite <- Hfil. apply Forall_forall. by intros x [? _]%list_elem_of_filter.
    + by intros f' [= <-] _; rewrite Hfil.
Qed.
End ConfigProperties.

(** * The further properties on the scenarios *)

Section MoreExamples.
#[local] Existing Instance Demo.runtime.

(** X2 on the two documents of the examples, the first given again. *)
Lemma Merge_repeated_input_witness :
  Some Demo.docA ∈ [Some Demo.docA; Some Demo.docB]
  ∧ Merge ([Some Demo.docA; Some Demo.docB] ++ Some Demo.docA :: [])
    = Merge ([Some Demo.docA; Some Demo.docB] ++ [])
  ∧ Merge (replicate 3 (Some Demo.docA)) = Merge [Some Demo.docA].
Proof.
  assert (Hin : Some Demo.docA ∈ [Some Demo.docA; Some Demo.docB]) by by left.
  split; [exact Hin|].
  exact (Merge_repeated_input [Some Demo.docA; Some Demo.docB] []
           (Some Demo.docA) 2 Hin).
Defined.

(** X3 on a document of version 2 whose one list has no repetition. *)
Lemma Merge_single_witness :
  map_Forall (λ _ urls, NoDup urls) (Linux Demo.docV2)
  ∧ Linux (Merge [Some Demo.docV2]) = Linux Demo.docV2
  ∧ Version (Merge [Some Demo.docV2]) = 1.
Proof.
  assert (Hnd : map_Forall (λ (_ : string) (urls : list string), NoDup urls)
                  (Linux Demo.docV2)).
  { apply map_Forall_singleton. apply NoDup_singleton. }
  destruct (Merge_single Demo.docV2) as (_ & Hv & Hsame & _).
  split; [exact Hnd|]. split; [exact (Hsame Hnd)|exact Hv].
Defined.

(** X8 on a document in a local file, fetched with validators of an
    earlier fetch. *)
Lemma FetchWithMeta_local_witness :
  let source := "file://" +:+ Scenario.local_path in
  isLocalPath source = true
  ∧ Fetcher.FetchWithMeta Scenario.world_local 0 source (Some Demo.metaOld)
    = Fetcher.FetchWithMeta Scenario.world_local 0 source None
  ∧ Fetcher.FetchWithMeta Scenario.world_local 0 source (Some Demo.metaOld)
    = (Some Demo.docA,
       Some {| ETag := EmptyString; LastModified := EmptyString;
               UpdatedAt := 100 * Hour + 1 * Second |},
       true, None).
Proof.
  intros source.
  assert (Hloc : isLocalPath source = true) by by vm_compute.
  split; [exact Hloc|]. split.
  - exact (proj1 (FetchWithMeta_local Scenario.world_local 0 source
                    (Some Demo.metaOld) Hloc)).
  - by vm_compute.
Defined.

(** X9 on the two local files. *)
Lemma fetchLocal_path_forms_witness :
  let w := Scenario.world_local in
  strings.HasPrefix Scenario.local_path "file://" = false
  ∧ os_UserHomeDir = Some "/home/user"
  ∧ strings.HasPrefix (filepath_Join "/home/user" "banners.json") "file://" = false
  ∧ strings.HasPrefix (filepath_Join "/home/user" "banners.json") "~" = false
  ∧ Fetcher.fetchLocal w ("file://" +:+ Scenario.local_path)
    = Fetcher.fetchLocal w Scenario.local_path
  ∧ Fetcher.fetchLocal w Scenario.local_path = inr Demo.docA
  ∧ Fetcher.fetchLocal w "~banners.json" = Fetcher.fetchLocal w Scenario.home_path
  ∧ Fetcher.fetchLocal w Scenario.home_path = inr Demo.docB.
Proof.
  intros w.
  assert (H1 : strings.HasPrefix Scenario.local_path "file://" = false)
    by reflexivity.
  assert (H2 : os_UserHomeDir = Some "/home/user") by reflexivity.
  assert (H3 : strings.HasPrefix (filepath_Join "/home/user" "banners.json")
                 "file://" = false) by reflexivity.
  assert (H4 : strings.HasPrefix (filepath_Join "/home/user" "banners.json")
                 "~" = false) by reflexivity.
  destruct (fetchLocal_path_forms w Scenario.local_path "/home/user"
              "banners.json" H1 H2 H3 H4) as (Hfile & Htilde & _).
  split_and!; [exact H1|exact H2|exact H3|exact H4|exact Hfile| |exact Htilde|];
    by vm_compute.
Defined.

(** X12 on the stale cache: the sidecar stays, the primary artifact
    goes. *)
Lemma Clear_removes_primary_witness :
  let cfg := Demo.config [] in
  let w := Demo.world_stale in
  io_fault OpRemove (CacheFile cfg) = false
  ∧ is_Some (files w !! CacheFile cfg)
  ∧ (Cache.Clear cfg w).1 = None
  ∧ files (Cache.Clear cfg w).2 = delete (CacheFile cfg) (files w)
  ∧ Cache.IsValid cfg (Cache.Clear cfg w).2 = false.
Proof.
  intros cfg w.
  assert (Hrm : io_fault OpRemove (CacheFile cfg) = false) by reflexivity.
  destruct (Clear_removes_primary cfg w Hrm) as (Hok & Hfiles & _ & _ & Hv & _).
  split_and!; [exact Hrm|by eexists|exact Hok|exact Hfiles|exact Hv].
Defined.

(** X13 on a first run, on the sidecar of the stale cache, and on a
    removal that fails. *)
Lemma Clear_frame_witness :
  let cfg := Demo.config [] in
  files Demo.world_first_run !! CacheFile cfg = None
  ∧ Cache.Clear cfg Demo.world_first_run = (None, Demo.world_first_run)
  ∧ Demo.meta_path ≠ CacheFile cfg
  ∧ files (Cache.Clear cfg Demo.world_stale).2 !! Demo.meta_path
    = files Demo.world_stale !! Demo.meta_path
  ∧ (Cache.Clear (H := Scenario.faulty OpRemove Demo.cache_path) cfg Demo.world_stale).1 ≠ None
  ∧ (Cache.Clear (H := Scenario.faulty OpRemove Demo.cache_path) cfg Demo.world_stale).2 = Demo.world_stale.
Proof.
  intros cfg.
  assert (H1 : files Demo.world_first_run !! CacheFile cfg = None)
    by reflexivity.
  assert (H2 : Demo.meta_path ≠ CacheFile cfg) by by vm_compute.
  assert (H3 : (Cache.Clear (H := Scenario.faulty OpRemove Demo.cache_path) cfg Demo.world_stale).1 ≠ None)
    by by vm_compute.
  destruct (Clear_frame cfg Demo.world_first_run) as (Hnone & _ & _).
  destruct (Clear_frame cfg Demo.world_stale) as (_ & Hframe & _).
  destruct (Clear_frame (H := Scenario.faulty OpRemove Demo.cache_path) cfg Demo.world_stale) as (_ & _ & Hfail).
  split_and!; [exact H1|exact (Hnone H1)|exact H2|exact (Hframe _ H2)
              |exact H3|exact (Hfail H3)].
Defined.

(** X14 on the cache one hour after it was written. *)
Lemma Ensure_is_Update_witness :
  let cfg := Demo.config [Demo.urlA] in
  let w := Demo.world_fresh in
  Cache.IsValid cfg w = true
  ∧ Cache.Ensure cfg w = (None, w)
  ∧ Cache.Update cfg w false = (None, w).
Proof.
  intros cfg w.
  assert (Hv : Cache.IsValid cfg w = true) by by vm_compute.
  destruct (Ensure_is_Update cfg w) as (_ & He & Hu).
  split_and!; [exact Hv|exact (He Hv)|exact (Hu Hv)].
Defined.

(** X15 on the stale cache: a write that succeeds, and one whose rename
    fails and leaves the old artifact and no temporary file. *)
Lemma write_atomic_witness :
  let cfg := Demo.config [] in
  let w := Demo.world_stale in
  (Cache.write cfg w Demo.docB).1 = None
  ∧ files (Cache.write cfg w Demo.docB).2 !! tmpFile cfg = None
  ∧ (contents <$> files (Cache.write cfg w Demo.docB).2 !! CacheFile cfg)
    = Some (json_Encode Demo.docB)
  ∧ (Cache.write (H := Scenario.faulty OpRename (tmpFile cfg)) cfg w Demo.docB).1 ≠ None
  ∧ files (Cache.write (H := Scenario.faulty OpRename (tmpFile cfg)) cfg w Demo.docB).2 !! CacheFile cfg
    = files w !! CacheFile cfg
  ∧ files (Cache.write (H := Scenario.faulty OpRename (tmpFile cfg)) cfg w Demo.docB).2 !! tmpFile cfg = None.
Proof.
  intros cfg w.
  assert (Hok : (Cache.write cfg w Demo.docB).1 = None) by by vm_compute.
  assert (Hfail : (Cache.write (H := Scenario.faulty OpRename (tmpFile cfg)) cfg w Demo.docB).1 ≠ None)
    by by vm_compute.
  destruct (write_atomic cfg w Demo.docB) as (Hsucc & _).
  destruct (Hsucc Hok) as (Htmp & mode & Hfile).
  destruct (write_atomic (H := Scenario.faulty OpRename (tmpFile cfg)) cfg w Demo.docB) as (_ & Hkeep & Hclean & _).
  split_and!; [exact Hok|exact Htmp| |exact Hfail|exact (Hkeep Hfail)|].
  - by rewrite Hfile.
  - apply (Hclean Hfail); reflexivity.
Defined.

(** X16 on the same write. *)
Lemma write_read_back_witness :
  let cfg := Demo.config [] in
  let w := Demo.world_stale in
  (Cache.write cfg w Demo.docB).1 = None
  ∧ io_fault OpReadFile (CacheFile cfg) = false
  ∧ 0 < TTL cfg
  ∧ Unmarshal_BannerData (json_Encode Demo.docB) = Some Demo.docB
  ∧ Cache.loadExistingBanners cfg (Cache.write cfg w Demo.docB).2
    = Some Demo.docB
  ∧ Cache.IsValid cfg (Cache.write cfg w Demo.docB).2 = true.
Proof.
  intros cfg w.
  assert (Hok : (Cache.write cfg w Demo.docB).1 = None) by by vm_compute.
  assert (Hrd : io_fault OpReadFile (CacheFile cfg) = false) by reflexivity.
  assert (Httl : 0 < TTL cfg) by by vm_compute.
  assert (Hdec : Unmarshal_BannerData (json_Encode Demo.docB) = Some Demo.docB)
    by by vm_compute.
  destruct (write_read_back cfg w Demo.docB Hok Hrd) as (Hload & _ & Hv).
  split_and!; [exact Hok|exact Hrd|exact Httl|exact Hdec| |exact (Hv Httl)].
  by rewrite Hload.
Defined.

(** X17 on a forced update of the stale cache. *)
Lemma Update_success_valid_witness :
  let cfg := Demo.config [Demo.urlA; Demo.urlB] in
  let w := Demo.world_stale in
  (Cache.Update cfg w true).1 = None
  ∧ CacheFile cfg ≠ LockFile cfg
  ∧ 0 < TTL cfg
  ∧ Cache.IsValid cfg w = false
  ∧ Cache.IsValid cfg (Cache.Update cfg w true).2 = true
  ∧ Cache.Ensure cfg (Cache.Update cfg w true).2
    = (None, (Cache.Update cfg w true).2).
Proof.
  intros cfg w.
  assert (Hok : (Cache.Update cfg w true).1 = None) by by vm_compute.
  assert (Hne : CacheFile cfg ≠ LockFile cfg) by by vm_compute.
  assert (Httl : 0 < TTL cfg) by by vm_compute.
  assert (Hold : Cache.IsValid cfg w = false) by by vm_compute.
  destruct (Update_success_valid cfg w true Hok Hne Httl) as (Hv & _ & He).
  split_and!; [exact Hok|exact Hne|exact Httl|exact Hold|exact Hv|exact He].
Defined.

(** X18 on a smart update of the stale cache. *)
Lemma SmartUpdate_success_valid_witness :
  let cfg := Demo.config [Demo.urlA; Demo.urlB] in
  let w := Demo.world_stale in
  (Cache.SmartUpdate cfg w).1.2 = None
  ∧ CacheFile cfg ≠ LockFile cfg
  ∧ 0 < TTL cfg
  ∧ Cache.IsValid cfg w = false
  ∧ Cache.IsValid cfg (Cache.SmartUpdate cfg w).2 = true.
Proof.
  intros cfg w.
  assert (Hok : (Cache.SmartUpdate cfg w).1.2 = None) by by vm_compute.
  assert (Hne : CacheFile cfg ≠ LockFile cfg) by by vm_compute.
  assert (Httl : 0 < TTL cfg) by by vm_compute.
  assert (Hold : Cache.IsValid cfg w = false) by by vm_compute.
  split_and!; [exact Hok|exact Hne|exact Httl|exact Hold|].
  exact (SmartUpdate_success_valid cfg w Hok Hne Httl).
Defined.

(** X19 on a first run whose only source fails, and on a lock taken
    thirty seconds ago. *)
Lemma lock_released_on_return_witness :
  let cfg := Demo.config [Demo.urlBad] in
  io_fault OpRemove (LockFile cfg) = false
  ∧ (Cache.acquireLock cfg Demo.world_first_run).1 = None
  ∧ (Cache.Update cfg Demo.world_first_run true).1 = Some ErrAllSourcesFailed
  ∧ files (Cache.Update cfg Demo.world_first_run true).2 !! LockFile cfg = None
  ∧ files (Cache.SmartUpdate cfg Demo.world_first_run).2 !! LockFile cfg = None
  ∧ io_fault OpMkdirAll (CacheDir cfg) = false
  ∧ lock_held cfg Demo.world_locked
  ∧ Cache.Update cfg Demo.world_locked true = (Some ErrLocked, Demo.world_locked)
  ∧ Cache.SmartUpdate cfg Demo.world_locked
    = (false, Some ErrLocked, Demo.world_locked).
Proof.
  intros cfg.
  assert (Hrm : io_fault OpRemove (LockFile cfg) = false) by reflexivity.
  assert (Hacq : (Cache.acquireLock cfg Demo.world_first_run).1 = None)
    by by vm_compute.
  assert (Herr : (Cache.Update cfg Demo.world_first_run true).1
                 = Some ErrAllSourcesFailed) by by vm_compute.
  assert (Hmk : io_fault OpMkdirAll (CacheDir cfg) = false) by reflexivity.
  assert (Hheld : lock_held cfg Demo.world_locked).
  { eexists. split; [reflexivity|]. by vm_compute. }
  destruct (lock_released_on_return cfg Demo.world_first_run) as (Hfree & _).
  destruct (Hfree Hrm Hacq) as (Hu & Hs).
  destruct (lock_released_on_return cfg Demo.world_locked) as (_ & Hstop).
  destruct (Hstop Hmk Hheld) as (Hu' & Hs').
  split_and!; [exact Hrm|exact Hacq|exact Herr|exact Hu|exact Hs|exact Hmk
              |exact Hheld|exact Hu'|exact Hs'].
Defined.

(** X20 on a first run, on a sidecar that is not JSON, on a save that
    fails after three bytes and on one that succeeds. *)
Lemma loadMeta_saveMeta_witness :
  let cfg := Demo.config [] in
  let w := Demo.world_first_run in
  let garbage :=
    {| files := {[ Demo.meta_path := Demo.file_at "invalid json" 0 ]};
       now := 100 * Hour |} in
  let text := Demo.print (Demo.MetaCache_value Demo.sidecarOld) in
  Cache.loadMeta cfg w = {| Sources := ∅ |}
  ∧ Cache.loadMeta cfg garbage = {| Sources := ∅ |}
  ∧ (Cache.saveMeta (H := Scenario.faulty OpWriteFile Demo.meta_path)
       cfg w Demo.sidecarOld).1 ≠ None
  ∧ (contents <$>
       files (Cache.saveMeta (H := Scenario.faulty OpWriteFile Demo.meta_path)
                cfg w Demo.sidecarOld).2 !! Demo.meta_path)
    = Some (String.substring 0 3 text)
  ∧ files (Cache.saveMeta (H := Scenario.faulty OpWriteFile Demo.meta_path)
             cfg w Demo.sidecarOld).2 !! Demo.cache_path
    = files w !! Demo.cache_path
  ∧ (Cache.saveMeta cfg w Demo.sidecarOld).1 = None
  ∧ Cache.loadMeta cfg (Cache.saveMeta cfg w Demo.sidecarOld).2
    = Demo.sidecarOld.
Proof.
  intros cfg w garbage text.
  assert (H1 : files w !! Cache.metaFile cfg = None) by reflexivity.
  assert (H2 : files garbage !! Cache.metaFile cfg
               = Some (Demo.file_at "invalid json" 0)) by by vm_compute.
  assert (H3 : Unmarshal_MetaCache (contents (Demo.file_at "invalid json" 0))
               = None) by by vm_compute.
  assert (H4 : (Cache.saveMeta (H := Scenario.faulty OpWriteFile Demo.meta_path)
                  cfg w Demo.sidecarOld).1 ≠ None)
    by by vm_compute.
  assert (H5 : (Cache.saveMeta cfg w Demo.sidecarOld).1 = None)
    by by vm_compute.
  assert (H6 : json_MarshalIndent Demo.sidecarOld = Some text)
    by reflexivity.
  assert (H7 : io_fault OpReadFile (Cache.metaFile cfg) = false)
    by reflexivity.
  assert (H8 : Unmarshal_MetaCache text = Some Demo.sidecarOld)
    by by vm_compute.
  assert (H9 : Demo.cache_path ≠ Cache.metaFile cfg) by by vm_compute.
  destruct (loadMeta_saveMeta cfg w Demo.sidecarOld)
    as (Hnone & _ & _ & _ & Hback).
  destruct (loadMeta_saveMeta cfg garbage Demo.sidecarOld) as (_ & Hbad & _).
  destruct (loadMeta_saveMeta
              (H := Scenario.faulty OpWriteFile Demo.meta_path)
              cfg w Demo.sidecarOld) as (_ & _ & Hframe & _).
  split_and!; [exact (Hnone H1)|exact (Hbad _ H2 H3)|exact H4|by vm_compute
              |exact (Hframe _ H9)|exact H5|exact (Hback _ H5 H6 H7 H8)].
Defined.

(** X21 on a source that answers between two failures of another
    source. *)
Lemma gather_records_validators_witness :
  let cfg := Demo.config [] in
  let results :=
    [Scenario.result_failed] ++ Scenario.result_fresh :: [Scenario.result_failed] in
  Err Scenario.result_fresh = None
  ∧ Meta Scenario.result_fresh = Some Demo.fresh_validators
  ∧ (∀ r', r' ∈ [Scenario.result_failed] →
           Source r' ≠ Source Scenario.result_fresh)
  ∧ Sources (newMeta (Cache.gather_all cfg Demo.world_stale Demo.sidecarOld results))
      !! Demo.urlA = Some Demo.fresh_validators.
Proof.
  intros cfg results.
  assert (H1 : Err Scenario.result_fresh = None) by reflexivity.
  assert (H2 : Meta Scenario.result_fresh = Some Demo.fresh_validators)
    by reflexivity.
  assert (H3 : ∀ r', r' ∈ [Scenario.result_failed] →
                     Source r' ≠ Source Scenario.result_fresh).
  { intros r' Hr'. apply list_elem_of_singleton in Hr' as ->. by vm_compute. }
  split_and!; [exact H1|exact H2|exact H3|].
  exact (gather_records_validators cfg Demo.world_stale Demo.sidecarOld
           [Scenario.result_failed] [Scenario.result_failed]
           Scenario.result_fresh Demo.fresh_validators H1 H2 H3).
Defined.

(** X22 on the stale cache with a source that answers 304 and one that
    sends a new document: the artifact holds both documents merged. *)
Lemma SmartUpdate_modified_witness :
  let cfg := Demo.config [Demo.urlA; Demo.urlB] in
  let w := Demo.world_stale in
  let w1 := (Cache.acquireLock cfg w).2 in
  let results :=
    (Fetcher.FetchAllWithMeta w1 (ConfigSources cfg)
       (Some (Cache.loadMeta cfg w1))).1 in
  Cache.acquireLock cfg w = (None, w1)
  ∧ CacheFile cfg ≠ LockFile cfg
  ∧ Exists brings_document results
  ∧ no_faults
  ∧ Merge (concat (contribution (Cache.loadExistingBanners cfg w) <$> results))
    = Demo.docAB
  ∧ (Cache.SmartUpdate cfg w).1 = (true, None)
  ∧ (contents <$> files (Cache.SmartUpdate cfg w).2 !! CacheFile cfg)
    = Some (json_Encode
              (Merge (concat (contribution (Cache.loadExistingBanners cfg w)
                                <$> results)))).
Proof.
  intros cfg w w1 results.
  assert (Hacq : Cache.acquireLock cfg w = (None, w1))
    by (apply pair_eta; by vm_compute).
  assert (Hne : CacheFile cfg ≠ LockFile cfg) by by vm_compute.
  assert (Hres : results
    = [ {| Source := Demo.urlA; Data := None; Meta := Some Demo.metaOld;
           Modified := false; Err := None |};
        {| Source := Demo.urlB; Data := Some Demo.docB;
           Meta := Some {| ETag := EmptyString; LastModified := EmptyString;
                           UpdatedAt := 100 * Hour + 1 * Second |};
           Modified := true; Err := None |} ]) by by vm_compute.
  assert (Hex : Exists brings_document results).
  { rewrite Hres. apply Exists_cons_tl, Exists_cons_hd.
    split; [reflexivity|]. split; [reflexivity|]. by eexists. }
  assert (Hmerged :
    Merge (concat (contribution (Cache.loadExistingBanners cfg w) <$> results))
    = Demo.docAB) by by vm_compute.
  pose proof (SmartUpdate_modified cfg w w1 Hacq Hne) as Hthm.
  cbv zeta in Hthm. destruct Hthm as (_ & Hgo).
  destruct (Hgo Hex demo_no_faults) as (Hret & mode & Hfile).
  split_and!; [exact Hacq|exact Hne|exact Hex|exact demo_no_faults
              |exact Hmerged|exact Hret|].
  by rewrite Hfile.
Defined.

(** C2, as the code has it: on the cache one hour after it was
    written, on the stale cache whose source answers 304, and on the
    stale cache whose only source fails. *)
Lemma SmartUpdate_not_modified_witness :
  let cfg := Demo.config [Demo.urlA] in
  let bad := Demo.config [Demo.urlBad] in
  let f := Demo.file_at (Demo.print (Demo.BannerData_value Demo.docA)) 0 in
  (Cache.acquireLock cfg Demo.world_fresh).1 = None
  ∧ files Demo.world_fresh !! CacheFile cfg = Some f
  ∧ time.Sub (now Demo.world_fresh + join_delay) (ModTime f) < TTL cfg
  ∧ (Cache.SmartUpdate cfg Demo.world_fresh).1 = (false, None)
  ∧ files (Cache.SmartUpdate cfg Demo.world_fresh).2 !! CacheFile cfg = Some f
  ∧ files Demo.world_stale !! CacheFile cfg = Some f
  ∧ ¬ time.Sub (now Demo.world_stale + join_delay) (ModTime f) < TTL cfg
  ∧ Unmarshal_BannerData (contents f) = Some Demo.docA
  ∧ (Cache.SmartUpdate cfg Demo.world_stale).1 = (false, None)
  ∧ (ModTime <$> files (Cache.SmartUpdate cfg Demo.world_stale).2
                   !! CacheFile cfg)
    = Some (100 * Hour + 2 * Second)
  ∧ (Cache.SmartUpdate bad Demo.world_stale).1
    = (false, Some ErrAllSourcesFailed)
  ∧ files (Cache.SmartUpdate bad Demo.world_stale).2 !! CacheFile bad
    = Some f.
Proof.
  intros cfg bad f.
  assert (Hacq : ∀ c w,
    CacheDir c = "/cache" → LockFile c = "/cache/.lock" →
    (Cache.acquireLock c w).1 = None →
    Cache.acquireLock c w = (None, (Cache.acquireLock c w).2)).
  { intros c w _ _ Hok. by apply pair_eta. }
  assert (Hfresh_acq : (Cache.acquireLock cfg Demo.world_fresh).1 = None)
    by by vm_compute.
  assert (Hstale_acq : (Cache.acquireLock cfg Demo.world_stale).1 = None)
    by by vm_compute.
  assert (Hbad_acq : (Cache.acquireLock bad Demo.world_stale).1 = None)
    by by vm_compute.
  assert (H1 : CacheFile cfg ≠ LockFile cfg) by by vm_compute.
  assert (H2 : CacheFile cfg ≠ Cache.metaFile cfg) by by vm_compute.
  assert (Hf_fresh : files Demo.world_fresh !! CacheFile cfg = Some f)
    by by vm_compute.
  assert (Hf_stale : files Demo.world_stale !! CacheFile cfg = Some f)
    by by vm_compute.
  assert (Hage_fresh :
    time.Sub (now Demo.world_fresh + join_delay) (ModTime f) < TTL cfg)
    by by vm_compute.
  assert (Hage_stale :
    ¬ time.Sub (now Demo.world_stale + join_delay) (ModTime f) < TTL cfg)
    by by vm_compute.
  assert (Hdec : Unmarshal_BannerData (contents f) = Some Demo.docA)
    by by vm_compute.
  assert (Hall_fresh : Forall (λ r, Modified r = false)
    (Fetcher.FetchAllWithMeta (Cache.acquireLock cfg Demo.world_fresh).2
       (ConfigSources cfg)
       (Some (Cache.loadMeta cfg (Cache.acquireLock cfg Demo.world_fresh).2))).1).
  { vm_compute. repeat constructor. }
  assert (Hres_stale :
    (Fetcher.FetchAllWithMeta (Cache.acquireLock cfg Demo.world_stale).2
       (ConfigSources cfg)
       (Some (Cache.loadMeta cfg (Cache.acquireLock cfg Demo.world_stale).2))).1
    = [ {| Source := Demo.urlA; Data := None; Meta := Some Demo.metaOld;
           Modified := false; Err := None |} ]) by by vm_compute.
  assert (Hres_bad :
    (Fetcher.FetchAllWithMeta (Cache.acquireLock bad Demo.world_stale).2
       (ConfigSources bad)
       (Some (Cache.loadMeta bad (Cache.acquireLock bad Demo.world_stale).2))).1
    = [ {| Source := Demo.urlBad; Data := None; Meta := None;
           Modified := false;
           Err := Some (fmt_Errorf "executing request"
                          (ExternalError "connection refused")) |} ])
    by by vm_compute.
  pose proof (SmartUpdate_not_modified cfg Demo.world_fresh _
                (Hacq cfg _ eq_refl eq_refl Hfresh_acq) H1 H2) as Tfresh.
  pose proof (SmartUpdate_not_modified cfg Demo.world_stale _
                (Hacq cfg _ eq_refl eq_refl Hstale_acq) H1 H2) as Tstale.
  pose proof (SmartUpdate_not_modified bad Demo.world_stale _
                (Hacq bad _ eq_refl eq_refl Hbad_acq) H1 H2) as Tbad.
  cbv zeta in Tfresh, Tstale, Tbad.
  destruct (Tfresh Hall_fresh) as (Hfresh & _).
  destruct (Hfresh f Hf_fresh Hage_fresh) as (Hret1 & Hfile1).
  rewrite Hres_stale in Tstale.
  destruct Tstale as (_ & Hstale & _); [by repeat constructor|].
  destruct (Hstale f Demo.docA Hf_stale Hage_stale Hdec) as (Hret2 & mode & Hfile2);
    [by apply Exists_cons_hd|exact demo_no_faults|].
  rewrite Hres_bad in Tbad.
  destruct Tbad as (_ & _ & Hfail); [by repeat constructor|].
  destruct Hfail as (Hret3 & Hfile3).
  { intros f0 Hf0.
    assert (Hsame : Some f0 = Some f) by (rewrite <- Hf0; exact Hf_stale).
    injection Hsame as ->. exact Hage_stale. }
  { left. repeat constructor. done. }
  split_and!; [exact Hfresh_acq|exact Hf_fresh|exact Hage_fresh|exact Hret1
              |exact Hfile1|exact Hf_stale|exact Hage_stale|exact Hdec
              |exact Hret2| |exact Hret3|].
  - by rewrite Hfile2.
  - rewrite Hfile3. exact Hf_stale.
Defined.

(** X23 on the stale cache whose one source answers 304. *)
Lemma SmartUpdate_stale_refresh_witness :
  let cfg := Demo.config [Demo.urlA] in
  let w := Demo.world_stale in
  let w1 := (Cache.acquireLock cfg w).2 in
  let f := Demo.file_at (Demo.print (Demo.BannerData_value Demo.docA)) 0 in
  let results :=
    (Fetcher.FetchAllWithMeta w1 (ConfigSources cfg)
       (Some (Cache.loadMeta cfg w1))).1 in
  Cache.acquireLock cfg w = (None, w1)
  ∧ CacheFile cfg ≠ LockFile cfg
  ∧ CacheFile cfg ≠ Cache.metaFile cfg
  ∧ no_faults
  ∧ Forall (λ r, Modified r = false) results
  ∧ Exists (λ r, Err r = None) results
  ∧ files w !! CacheFile cfg = Some f
  ∧ Unmarshal_BannerData (contents f) = Some Demo.docA
  ∧ ¬ time.Sub (now w + join_delay) (ModTime f) < TTL cfg
  ∧ (Cache.SmartUpdate cfg w).1 = (false, None)
  ∧ (contents <$> files (Cache.SmartUpdate cfg w).2 !! CacheFile cfg)
    = Some (json_Encode (Merge [Some Demo.docA]))
  ∧ (ModTime <$> files (Cache.SmartUpdate cfg w).2 !! CacheFile cfg)
    = Some (100 * Hour + 2 * Second).
Proof.
  intros cfg w w1 f results.
  assert (Hacq : Cache.acquireLock cfg w = (None, w1))
    by (apply pair_eta; by vm_compute).
  assert (H1 : CacheFile cfg ≠ LockFile cfg) by by vm_compute.
  assert (H2 : CacheFile cfg ≠ Cache.metaFile cfg) by by vm_compute.
  assert (Hres : results
    = [ {| Source := Demo.urlA; Data := None; Meta := Some Demo.metaOld;
           Modified := false; Err := None |} ]) by by vm_compute.
  assert (Hall : Forall (λ r, Modified r = false) results).
  { rewrite Hres. by repeat constructor. }
  assert (Hex : Exists (λ r, Err r = None) results).
  { rewrite Hres. by apply Exists_cons_hd. }
  assert (H3 : files w !! CacheFile cfg = Some f) by by vm_compute.
  assert (H4 : Unmarshal_BannerData (contents f) = Some Demo.docA)
    by by vm_compute.
  assert (H5 : ¬ time.Sub (now w + join_delay) (ModTime f) < TTL cfg)
    by by vm_compute.
  pose proof (SmartUpdate_stale_refresh cfg w w1 f Demo.docA Hacq H1 H2
                demo_no_faults) as Hthm.
  cbv zeta in Hthm.
  destruct (Hthm Hall Hex H3 H4 H5) as (Hret & mode & Hfile).
  split_and!; [exact Hacq|exact H1|exact H2|exact demo_no_faults|exact Hall
              |exact Hex|exact H3|exact H4|exact H5|exact Hret| |];
    by rewrite Hfile.
Defined.

(** X24 on a configuration of volatility3 that lacks the key, and on
    one that has it. *)
Lemma ConfigureVolatility3_appends_witness :
  let cfg := Demo.config [] in
  let plain := Scenario.world_vol3 ("plugins: []" +:+ LF) in
  let set := Scenario.world_vol3 ("remote_isf_url: file:///x" +:+ LF) in
  os_UserHomeDir = Some "/home/user"
  ∧ (Cache.ConfigureVolatility3 cfg plain).1 = None
  ∧ (contents <$> files (Cache.ConfigureVolatility3 cfg plain).2
                    !! Scenario.vol3_path)
    = Some ("plugins: []" +:+ LF +:+ LF +:+ "# Added by basar" +:+ LF
            +:+ "remote_isf_url: file:///cache/banners.json" +:+ LF)
  ∧ (Cache.ConfigureVolatility3 cfg (Cache.ConfigureVolatility3 cfg plain).2).1
    ≠ None
  ∧ (Cache.ConfigureVolatility3 cfg set).1 ≠ None
  ∧ (Cache.ConfigureVolatility3 cfg set).2 = set.
Proof.
  intros cfg plain set.
  assert (Hhome : os_UserHomeDir = Some "/home/user") by reflexivity.
  assert (Hok : (Cache.ConfigureVolatility3 cfg plain).1 = None)
    by by vm_compute.
  assert (Hf : files set !! filepath_Join "/home/user" ".volatility3.yaml"
               = Some (Demo.file_at ("remote_isf_url: file:///x" +:+ LF) 0))
    by by vm_compute.
  assert (Hkey : contents (Demo.file_at ("remote_isf_url: file:///x" +:+ LF) 0)
                 = EmptyString +:+ "remote_isf_url" +:+ (": file:///x" +:+ LF))
    by by vm_compute.
  pose proof (ConfigureVolatility3_appends cfg plain "/home/user" Hhome) as Hp.
  cbv zeta in Hp. destruct Hp as (_ & _ & Hsucc & _).
  destruct (Hsucc Hok) as (_ & Hagain & _).
  pose proof (ConfigureVolatility3_appends cfg set "/home/user" Hhome) as Hs.
  cbv zeta in Hs. destruct Hs as (_ & Hrefuse & _).
  destruct (Hrefuse _ _ _ Hf Hkey) as (Herr & Hsame).
  split_and!; [exact Hhome|exact Hok|by vm_compute|exact Hagain|exact Herr
              |exact Hsame].
Defined.

(** X25 on the text of one hour. *)
Lemma parseTTL_seconds_witness :
  Scenario.Sscanf_d "3600" = Some 3600
  ∧ config.parseTTL Scenario.Sscanf_d "3600" DefaultTTL = 1 * Hour
  ∧ Scenario.Sscanf_d "soon" = None
  ∧ config.parseTTL Scenario.Sscanf_d "soon" DefaultTTL = DefaultTTL
  ∧ config.parseTTL Scenario.Sscanf_d "0" DefaultTTL = DefaultTTL.
Proof.
  assert (H1 : Scenario.Sscanf_d "3600" = Some 3600) by reflexivity.
  assert (H2 : Scenario.Sscanf_d "soon" = None) by reflexivity.
  assert (H3 : Scenario.Sscanf_d "0" = Some 0) by reflexivity.
  destruct (parseTTL_seconds Scenario.Sscanf_d "3600" DefaultTTL)
    as (_ & _ & _ & Hsecs).
  destruct (parseTTL_seconds Scenario.Sscanf_d "soon" DefaultTTL)
    as (_ & Hnone & _).
  destruct (parseTTL_seconds Scenario.Sscanf_d "0" DefaultTTL)
    as (_ & _ & Hzero & _).
  split_and!; [exact H1| |exact H2|exact (Hnone H2)|].
  - assert (Hne : "3600" ≠ EmptyString) by done.
    assert (Hr : 0 < 3600 ≤ 9223372036) by lia.
    exact (proj1 (Hsecs 3600 Hne H1 Hr)).
  - assert (Hr : 0 ≤ 0) by lia. exact (Hzero 0 H3 Hr).
Defined.

(** X26 on a TTL of 9223372037 seconds and a cache written at the very
    moment it is checked. *)
Lemma parseTTL_overflow_witness :
  let ttl := config.parseTTL Scenario.Sscanf_d "9223372037" DefaultTTL in
  let cfg :=
    {| CacheDir := "/cache"; ConfigDir := "/config";
       CacheFile := "/cache/banners.json";
       ConfigFile := "/config/sources.conf"; LockFile := "/cache/.lock";
       TTL := ttl; ConfigSources := [] |} in
  let f := Demo.file_at "{}" (100 * Hour) in
  let w := {| files := {[ "/cache/banners.json" := f ]}; now := 100 * Hour |} in
  "9223372037" ≠ EmptyString
  ∧ Scenario.Sscanf_d "9223372037" = Some 9223372037
  ∧ 9223372037 ≤ 9223372037 ≤ 18446744073
  ∧ ttl = - 9223372036709551616
  ∧ Cache.IsValid cfg w = false.
Proof.
  intros ttl cfg f w.
  assert (H1 : "9223372037" ≠ EmptyString) by done.
  assert (H2 : Scenario.Sscanf_d "9223372037" = Some 9223372037)
    by reflexivity.
  assert (H3 : 9223372037 ≤ 9223372037 ≤ 18446744073) by lia.
  destruct (parseTTL_overflow Scenario.Sscanf_d "9223372037" DefaultTTL
              9223372037 H1 H2 H3) as (Hval & _ & Hinvalid).
  refine (conj H1 (conj H2 (conj H3 (conj _ _)))).
  - unfold ttl. rewrite Hval. reflexivity.
  - apply (Hinvalid cfg w f); [reflexivity|reflexivity|].
    simpl. lia.
Defined.

(** X27 on a sources file with a comment, a blank line and two sources,
    and on one that holds a comment only. *)
Lemma loadSources_never_empty_witness :
  let cfg := Demo.config [] in
  let load := config.loadSources Scenario.ScanLines Scenario.TrimSpace in
  load Demo.world_first_run cfg = DefaultSources
  ∧ load (Scenario.world_sources Scenario.sources_text) cfg
    = [Demo.urlA; Scenario.local_path]
  ∧ load (Scenario.world_sources ("# none" +:+ LF)) cfg = DefaultSources.
Proof.
  intros cfg load.
  assert (H0 : files Demo.world_first_run !! ConfigFile cfg = None)
    by reflexivity.
  assert (Hio : io_fault OpOpen (ConfigFile cfg) = false) by reflexivity.
  assert (H1 : files (Scenario.world_sources Scenario.sources_text)
                 !! ConfigFile cfg
               = Some (Demo.file_at Scenario.sources_text 0)) by by vm_compute.
  assert (H2 : files (Scenario.world_sources ("# none" +:+ LF)) !! ConfigFile cfg
               = Some (Demo.file_at ("# none" +:+ LF) 0)) by by vm_compute.
  destruct (loadSources_never_empty Scenario.ScanLines Scenario.TrimSpace
              Demo.world_first_run cfg) as (_ & _ & Hmissing & _).
  destruct (loadSources_never_empty Scenario.ScanLines Scenario.TrimSpace
              (Scenario.world_sources Scenario.sources_text) cfg)
    as (_ & _ & _ & Hfile).
  destruct (loadSources_never_empty Scenario.ScanLines Scenario.TrimSpace
              (Scenario.world_sources ("# none" +:+ LF)) cfg)
    as (_ & _ & _ & Hcomment).
  split_and!.
  - exact (Hmissing H0).
  - unfold load. rewrite (Hfile _ H1 Hio). by vm_compute.
  - unfold load. rewrite (Hcomment _ H2 Hio). by vm_compute.
Defined.

End MoreExamples.
